(** * Sequence-to-sequence notebooks: a shallow embedding

    The notebooks compose framework primitives (tensors, layers, optimizers).
    The development embeds

    - the tensor operations the notebooks call, on a row-major model of
      tensors (a shape and a flat list of elements), with the exceptions the
      framework raises on out-of-range indices and incompatible shapes;
    - the model classes [Encoder], [Attention], [Decoder] and [Seq2Seq] of the
      attention notebooks;
    - the training and evaluation loops, the data setup and the save cells.

    Learned layers, the loss, automatic differentiation and the optimizer are
    opaque: they are fields of records, and act on an abstract framework
    state. Part I holds the definitions, Part II the lemmas and theorems. *)

From stdpp Require Import base tactics option list strings gmap.
From Stdlib Require Import ZArith Lia.

Set Default Proof Using "Type*".
Open Scope Z_scope.
Open Scope nat_scope.

(** * Part I: definitions *)

(** ** Exceptions and results *)

(** The exceptions of the interpreter and of the framework, by class. *)
Inductive exn : Type :=
  | IndexError (msg : string)
  | RuntimeError (msg : string)
  | FileNotFoundError (path : string)
  | OtherError (class msg : string).

Inductive result (A : Type) : Type :=
  | OK (a : A)
  | Raise (e : exn).
Arguments OK {A} a.
Arguments Raise {A} e.

#[global] Instance result_ret : MRet result := @OK.
#[global] Instance result_bind : MBind result := λ A B f r,
  match r with OK a => f a | Raise e => Raise e end.
#[global] Instance result_fmap : FMap result := λ A B f r,
  match r with OK a => OK (f a) | Raise e => Raise e end.

Definition index_error {A} : result A := Raise (IndexError "index out of range").
Definition shape_error {A} : result A := Raise (RuntimeError "shape mismatch").

(** ** Computations that read and update a state and may raise *)

Definition M (S A : Type) : Type := S → result (A * S).

#[global] Instance M_ret {S} : MRet (M S) := λ A a s, OK (a, s).
#[global] Instance M_bind {S} : MBind (M S) := λ A B f m s,
  match m s with OK (a, s') => f a s' | Raise e => Raise e end.

(** A pure operation that may raise, inside a computation. *)
Definition lift {S A} (r : result A) : M S A :=
  λ s, match r with OK a => OK (a, s) | Raise e => Raise e end.

(** [for x in xs: body], the loop variables being threaded as [st]. *)
Fixpoint for_each {S X St} (xs : list X) (body : X → St → M S St) (st : St) : M S St :=
  match xs with
  | [] => mret st
  | x :: xs' => st' ← body x st; for_each xs' body st'
  end.

(** [range(a, b)] *)
Definition range (a b : nat) : list nat := seq a (b - a).

(** ** Shapes and row-major offsets *)

Definition numel (sh : list nat) : nat := foldr Nat.mul 1 sh.

(** The offset of a multi-index in row-major storage; [None] when the index
    has the wrong rank or leaves the shape. *)
Fixpoint offset (sh idx : list nat) : option nat :=
  match sh, idx with
  | [], [] => Some 0
  | d :: sh', i :: idx' =>
      if decide (i < d) then (λ o, i * numel sh' + o) <$> offset sh' idx' else None
  | _, _ => None
  end.

(** All multi-indices of a shape, in storage order. *)
Fixpoint indices (sh : list nat) : list (list nat) :=
  match sh with
  | [] => [[]]
  | d :: sh' => i ← seq 0 d; (cons i) <$> indices sh'
  end.

(** ** Tensors *)

Record tensor (A : Type) : Type := Tensor { shape : list nat; data : list A }.
Arguments Tensor {A} shape data.
Arguments shape {A} t.
Arguments data {A} t.

Definition rank {A} (T : tensor A) : nat := length (shape T).

(** The storage of a well-formed tensor has one element per index. *)
Definition wf {A} (T : tensor A) : Prop := length (data T) = numel (shape T).

#[global] Instance tensor_lookup {A} : Lookup (list nat) A (tensor A) :=
  λ idx T, o ← offset (shape T) idx; data T !! o.

#[global] Instance tensor_lookup_total {A} `{Inhabited A} : LookupTotal (list nat) A (tensor A) :=
  λ idx T, default inhabitant (T !! idx).

(** [build sh f] tabulates [f] over the indices of [sh]. *)
Definition build {A} (sh : list nat) (f : list nat → A) : tensor A :=
  Tensor sh (f <$> indices sh).

Definition full {A} (sh : list nat) (x : A) : tensor A :=
  Tensor sh (replicate (numel sh) x).

(** A zero-dimensional tensor: what a scalar is when it meets a tensor. *)
Definition scalar {A} (x : A) : tensor A := Tensor [] [x].

#[global] Arguments tensor_lookup : simpl never.
#[global] Arguments tensor_lookup_total : simpl never.
#[global] Arguments build : simpl never.
#[global] Arguments full : simpl never.

(** ** The tensor operations the notebooks call *)

(** An entry of a subscript: an integer, or the full slice [:]. *)
Inductive index : Type := Idx (i : nat) | All.

(** The shape of the view [T[ix]]; an integer beyond its dimension, or more
    subscripts than dimensions, raise [IndexError]. *)
Fixpoint sub_shape (ix : list index) (sh : list nat) : result (list nat) :=
  match ix, sh with
  | [], _ => OK sh
  | Idx i :: ix', d :: sh' => if decide (i < d) then sub_shape ix' sh' else index_error
  | All :: ix', d :: sh' => cons d <$> sub_shape ix' sh'
  | _ :: _, [] => index_error
  end.

(** Where an index of the whole tensor falls inside the view, if it does. *)
Fixpoint sub_index (ix : list index) (idx : list nat) : option (list nat) :=
  match ix, idx with
  | [], _ => Some idx
  | Idx i :: ix', j :: idx' => if decide (i = j) then sub_index ix' idx' else None
  | All :: ix', j :: idx' => cons j <$> sub_index ix' idx'
  | _ :: _, [] => None
  end.

(** Assignment drops the leading dimensions of size one of the value, then
    broadcasts it: dimensions are aligned from the right, and each is the
    target's or one. *)
Fixpoint strip_ones (sh : list nat) : list nat :=
  match sh with
  | 1 :: sh' => strip_ones sh'
  | _ => sh
  end.

Definition broadcastable (vsh tsh : list nat) : Prop :=
  length vsh ≤ length tsh ∧
  Forall2 (λ v t, v = t ∨ v = 1) vsh (drop (length tsh - length vsh) tsh).

#[global] Instance broadcastable_dec vsh tsh : Decision (broadcastable vsh tsh).
Proof. unfold broadcastable. apply _. Defined.

Definition expand_index (vsh j : list nat) : list nat :=
  zip_with (λ d i, if decide (d = 1) then 0 else i) vsh (drop (length j - length vsh) j).

Section tensor_ops.
Context {A : Type} `{!Inhabited A}.
Implicit Types T v : tensor A.

(** [T.shape[0]] and [T.shape[-1]] *)
Definition size_first T : result nat :=
  match shape T with d :: _ => OK d | [] => index_error end.

Definition size_last T : result nat :=
  match last (shape T) with Some d => OK d | None => index_error end.

(** The value of an assignment, expanded to the shape of the view. *)
Definition broadcast v (tsh : list nat) : result (tensor A) :=
  let vsh := strip_ones (shape v) in
  if decide (broadcastable vsh tsh)
  then OK (build tsh (λ j, Tensor vsh (data v) !!! expand_index vsh j))
  else shape_error.

(** [T[ix] = v] *)
Definition setitem (ix : list index) T v : result (tensor A) :=
  tsh ← sub_shape ix (shape T);
  v' ← broadcast v tsh;
  OK (build (shape T) (λ idx,
        match sub_index ix idx with
        | Some j => v' !!! j
        | None => T !!! idx
        end)).

(** [T.squeeze()]: every dimension of size one goes; the storage stays. *)
Definition squeeze T : tensor A :=
  Tensor (filter (λ d, d ≠ 1) (shape T)) (data T).

(** [T.squeeze(d)]: dimension [d] goes if it has size one. *)
Definition squeeze_dim (d : nat) T : result (tensor A) :=
  match shape T !! d with
  | Some 1 => OK (Tensor (delete d (shape T)) (data T))
  | Some _ => OK T
  | None => if decide (d = 0) then OK T else index_error
  end.

(** [T.unsqueeze(d)] *)
Definition unsqueeze (d : nat) T : result (tensor A) :=
  if decide (d ≤ rank T)
  then OK (Tensor (take d (shape T) ++ 1 :: drop d (shape T)) (data T))
  else index_error.

(** [T.permute(dims)]: dimension [i] of the result is dimension [dims[i]]
    of [T]. *)
Definition unpermute (dims idx' : list nat) : list nat :=
  foldr (λ '(d, x) acc, <[d:=x]> acc) (replicate (length dims) 0) (zip dims idx').

Definition permute (dims : list nat) T : result (tensor A) :=
  if decide (length dims = rank T ∧ NoDup dims ∧ Forall (λ d, d < rank T) dims)
  then OK (build ((λ d, shape T !!! d) <$> dims) (λ idx', T !!! unpermute dims idx'))
  else shape_error.

(** [T.repeat(sizes)]: [T] gets leading dimensions of size one up to the
    length of [sizes], then is tiled [sizes[i]] times along dimension [i]. *)
Definition repeat (sizes : list nat) T : result (tensor A) :=
  if decide (rank T ≤ length sizes) then
    let lead := length sizes - rank T in
    let padded := replicate lead 1 ++ shape T in
    OK (build (zip_with Nat.mul sizes padded) (λ idx',
          T !!! drop lead (zip_with (λ i d, i mod d) idx' padded)))
  else shape_error.

(** [torch.cat((T1, T2), dim)]: all dimensions but [dim] agree; a
    one-dimensional empty tensor is skipped. *)
Definition cat (dim : nat) T1 T2 : result (tensor A) :=
  if decide (shape T1 = [0]) then OK T2
  else if decide (shape T2 = [0]) then OK T1
  else
    match shape T1 !! dim, shape T2 !! dim with
    | Some d1, Some d2 =>
        if decide (delete dim (shape T1) = delete dim (shape T2)) then
          OK (build (<[dim:=d1 + d2]> (shape T1)) (λ idx,
                let i := idx !!! dim in
                if decide (i < d1) then T1 !!! idx else T2 !!! <[dim:=i - d1]> idx))
        else shape_error
    | _, _ => index_error
    end.

(** [T[k:]], a slice of the first dimension *)
Definition slice_from (k : nat) T : result (tensor A) :=
  match shape T with
  | d :: sh => OK (Tensor ((d - k) :: sh) (drop (k * numel sh) (data T)))
  | [] => index_error
  end.

(** [T.view(-1, d)] and [T.view(-1)]. The tensors of this development are
    laid out row by row, as the tensors that the framework calls contiguous:
    what [view] raises on a tensor with another layout is out of its reach. *)
Definition view_rows (d : nat) T : result (tensor A) :=
  if decide (d ≠ 0 ∧ numel (shape T) mod d = 0)
  then OK (Tensor [numel (shape T) / d; d] (data T))
  else shape_error.

Definition view_flat T : tensor A := Tensor [numel (shape T)] (data T).

(** [T.item()]: the element of a tensor that has one. *)
Definition item T : result A :=
  match data T with
  | [x] => OK x
  | _ => Raise (RuntimeError "a tensor with several elements is no scalar")
  end.
End tensor_ops.

(** ** The framework *)

(** What the framework is taken to provide: the scalars of floating-point
    tensors with their arithmetic, the choice of the largest entry of a row,
    the softmax along a dimension; a state [W] (parameters, gradients,
    optimizer and random-generator state, training or evaluation mode) and
    the operations on it that are no method of a layer. *)
Class Backend : Type := {
  F : Type;
  F0 : F;
  F1 : F;
  Fadd : F → F → F;
  Fmul : F → F → F;
  argmax_row : list F → nat;
  softmax : nat → tensor F → result (tensor F);
  W : Type;
  (** what [model.parameters()] and [model.state_dict()] hand out *)
  Params : Type;
  StateDict : Type;
  (** [T.to(device)] *)
  to_device : string → tensor Z → M W (tensor Z);
  (** [loss.backward()] *)
  backward : tensor F → M W ();
  (** [torch.nn.utils.clip_grad_norm_(parameters, max_norm)] *)
  clip_grad_norm_ : Params → F → M W ();
  (** the interpreter's addition of floats *)
  py_add : F → F → F;
}.

#[global] Instance F_inhabited `{Backend} : Inhabited F := populate F0.

Section float_ops.
Context `{Backend}.
Implicit Types T : tensor F.

Definition zeros (sh : list nat) : tensor F := full sh F0.
#[global] Arguments zeros : simpl never.

(** The sum of the products [x 0 * y 0], ..., [x (n-1) * y (n-1)], taken
    from the left. *)
Definition dot (n : nat) (x y : nat → F) : F :=
  foldl Fadd F0 ((λ l, Fmul (x l) (y l)) <$> seq 0 n).

(** [torch.bmm(T1, T2)]: a batch of matrix products. *)
Definition bmm T1 T2 : result (tensor F) :=
  match shape T1, shape T2 with
  | [b; n; m], [b'; m'; p] =>
      if decide (b = b' ∧ m = m') then
        OK (build [b; n; p] (λ idx,
              match idx with
              | [i; j; k] => dot m (λ l, T1 !!! [i; j; l]) (λ l, T2 !!! [i; l; k])
              | _ => F0
              end))
      else shape_error
  | _, _ => shape_error
  end.

(** [T.argmax(-1)]: the index of the largest entry along the last
    dimension, which must not be empty. *)
Definition argmax_last T : result (tensor Z) :=
  match last (shape T) with
  | None => OK (scalar 0%Z)
  | Some 0 => index_error
  | Some (S _ as V) =>
      OK (build (removelast (shape T)) (λ idx,
            Z.of_nat (argmax_row ((λ k, T !!! (idx ++ [k])) <$> seq 0 V))))
  end.
End float_ops.

(** ** The model classes of the attention notebooks *)

Module Encoder.
Section defs.
Context `{Backend}.

Record t : Type := {
  input_dim : nat;
  embedding_layer : tensor Z → M W (tensor F);
  dropout : tensor F → M W (tensor F);
  gru : tensor F → M W (tensor F * tensor F);
}.

Definition forward (self : t) (src : tensor Z) : M W (tensor F * tensor F) :=
  y ← embedding_layer self src;
  y ← dropout self y;
  '(enc_outputs, enc_context) ← gru self y;
  mret (enc_outputs, enc_context).
End defs.
End Encoder.

Module Attention.
Section defs.
Context `{Backend}.

Record t : Type := {
  energy_layer : tensor F → M W (tensor F);
  v : tensor F → M W (tensor F);
}.

Definition forward (self : t) (dec_hidden enc_outputs : tensor F) : M W (tensor F) :=
  src_len ← lift (size_first enc_outputs);
  let dec_hidden := squeeze dec_hidden in
  dec_hidden ← lift (unsqueeze 0 dec_hidden);
  dec_hidden ← lift (repeat [src_len; 1; 1] dec_hidden);
  dec_hidden ← lift (permute [1; 0; 2] dec_hidden);
  enc_outputs ← lift (permute [1; 0; 2] enc_outputs);
  comb_inputs ← lift (cat 2 dec_hidden enc_outputs);
  energy ← energy_layer self comb_inputs;
  attn ← v self energy;
  attn ← lift (squeeze_dim 2 attn);
  attn ← lift (softmax 1 attn);
  mret attn.
End defs.
End Attention.

Module Decoder.
Section defs.
Context `{Backend}.

Record t : Type := {
  output_dim : nat;
  embedding_layer : tensor Z → M W (tensor F);
  dropout_layer : tensor F → M W (tensor F);
  gru : tensor F → tensor F → M W (tensor F * tensor F);
  linear_layer : tensor F → M W (tensor F);
  attention : Attention.t;
}.

Definition forward (self : t) (input_idx : tensor Z) (input_hidden enc_outputs : tensor F)
    : M W (tensor F * tensor F * tensor F) :=
  y ← embedding_layer self input_idx;
  y ← dropout_layer self y;
  y ← lift (unsqueeze 0 y);
  a ← Attention.forward (attention self) input_hidden enc_outputs;
  a ← lift (unsqueeze 1 a);
  enc_outputs ← lift (permute [1; 0; 2] enc_outputs);
  weighted ← lift (bmm a enc_outputs);
  weighted ← lift (permute [1; 0; 2] weighted);
  rnn_input ← lift (cat 2 y weighted);
  '(output, hidden) ← gru self rnn_input input_hidden;
  output ← lift (squeeze_dim 0 output);
  pred_proba ← linear_layer self output;
  mret (pred_proba, hidden, a).
End defs.
End Decoder.

Module Seq2Seq.
Section defs.
Context `{Backend}.

(** The encoder and the decoder are any callables; the decoder also tells
    the size of the target vocabulary. *)
Record t : Type := {
  encoder : tensor Z → M W (tensor F * tensor F);
  decoder : tensor Z → tensor F → tensor F → M W (tensor F * tensor F * tensor F);
  trg_vocab_size : nat;
}.

Definition init (encoder : Encoder.t) (decoder : Decoder.t) : t :=
  {| encoder := Encoder.forward encoder;
     decoder := Decoder.forward decoder;
     trg_vocab_size := Decoder.output_dim decoder |}.

(** [torch.ones(batch_size).int() * 2], the first input of the decoder *)
Definition sos_input (batch_size : nat) : tensor Z := full [batch_size] 2%Z.

(** One turn of the decoding loop. *)
Definition step (self : t) (enc_outputs : tensor F) (t : nat)
    (st : tensor F * tensor F * tensor Z * tensor F)
    : M W (tensor F * tensor F * tensor Z * tensor F) :=
  let '(pred_probas, hidden, input_idx, attn) := st in
  '(pred_proba_t, hidden, a) ← decoder self input_idx hidden enc_outputs;
  pred_probas ← lift (setitem [Idx t; All; All] pred_probas pred_proba_t);
  input_idx ← lift (argmax_last pred_proba_t);
  attn ← lift (setitem [All; All; Idx t] attn (squeeze a));
  mret (pred_probas, hidden, input_idx, attn).

Definition forward (self : t) (src : tensor Z) (trg_len : nat)
    : M W (tensor F * tensor F) :=
  batch_size ← lift (size_last src);
  let pred_probas := zeros [trg_len; batch_size; trg_vocab_size self] in
  pred_probas ← lift (setitem [Idx 0; All; Idx 2] pred_probas (scalar F1));
  src_len ← lift (size_first src);
  let attn := zeros [batch_size; src_len; trg_len] in
  '(enc_outputs, hidden) ← encoder self src;
  let input_idx := sos_input batch_size in
  '(pred_probas, _, _, attn) ←
    for_each (range 1 trg_len) (step self enc_outputs)
             (pred_probas, hidden, input_idx, attn);
  mret (pred_probas, attn).
End defs.
End Seq2Seq.

(** ** Greedy decoding, in the specification's words *)

Section reference.
Context `{Backend}.

(** What one decoding step takes and gives. *)
Record decoding_step : Type := {
  step_input : tensor Z;
  step_hidden : tensor F;
  step_pred : tensor F;
  step_attention : tensor F;
}.

(** [n] further steps from the input tokens [input_idx] and the state
    [hidden]: each step applies the decoder once, and the highest-scoring
    index of its prediction is the input of the next step. *)
Fixpoint greedy_steps
    (decoder : tensor Z → tensor F → tensor F → M W (tensor F * tensor F * tensor F))
    (enc_outputs : tensor F) (n : nat) (input_idx : tensor Z) (hidden : tensor F)
    : M W (list decoding_step) :=
  match n with
  | 0 => mret []
  | S n' =>
      '(pred, hidden', a) ← decoder input_idx hidden enc_outputs;
      next ← lift (argmax_last pred);
      rest ← greedy_steps decoder enc_outputs n' next hidden';
      mret ({| step_input := input_idx; step_hidden := hidden;
               step_pred := pred; step_attention := a |} :: rest)
  end.

(** The encoder first; then [trg_len - 1] greedy steps, from the encoder's
    final state and the start-of-sentence token, index 2, for every sentence
    of the batch. *)
Definition greedy_decoding (self : Seq2Seq.t) (src : tensor Z) (trg_len : nat)
    : M W (tensor F * list decoding_step) :=
  batch_size ← lift (size_last src);
  '(enc_outputs, context) ← Seq2Seq.encoder self src;
  steps ← greedy_steps (Seq2Seq.decoder self) enc_outputs (trg_len - 1)
                       (full [batch_size] 2%Z) context;
  mret (enc_outputs, steps).
End reference.

(** ** Vocabulary tables *)

(** [vocab.itos[i]] for an integer [i] of the interpreter: a negative index
    counts from the end of the list. *)
Definition list_getitem {A} (l : list A) (i : Z) : result A :=
  let n := Z.of_nat (length l) in
  let j := if decide (i < 0)%Z then (i + n)%Z else i in
  if decide (0 ≤ j < n)%Z
  then match l !! Z.to_nat j with Some x => OK x | None => index_error end
  else index_error.

(** [T[i]] for a tensor of one dimension or more, and the conversion of a
    tensor to an index of a list, which a tensor of one element allows. *)
Definition select {A} (i : nat) (T : tensor A) : result (tensor A) :=
  match shape T with
  | d :: sh =>
      if decide (i < d)
      then OK (Tensor sh (take (numel sh) (drop (i * numel sh) (data T))))
      else index_error
  | [] => index_error
  end.

Definition as_index (T : tensor Z) : result Z :=
  match data T with
  | [i] => OK i
  | _ => Raise (OtherError "TypeError" "only a tensor of one element is an index")
  end.

(** [len(T)] *)
Definition len {A} (T : tensor A) : result nat :=
  match shape T with
  | d :: _ => OK d
  | [] => Raise (OtherError "TypeError" "len() of a 0-d tensor")
  end.

(** [[vocab.itos[tensor_indx[i]] for i in range(len(tensor_indx))]], the
    body of [itos_list_de] and [itos_list_en] *)
Definition itos_list (itos : list string) (tensor_indx : tensor Z) : result (list string) :=
  n ← len tensor_indx;
  mapM (λ i, e ← select i tensor_indx; j ← as_index e; list_getitem itos j) (seq 0 n).

(** ** The fields of the notebooks, and the tables built for them *)

(** The special tokens of a field. *)
Record Field : Type := {
  init_token : option string;
  eos_token : option string;
  unk_token : option string;
  pad_token : option string;
}.

(** [Field(tokenize=tokenize_en, init_token='<sos>', eos_token='<eos>', lower=True)],
    and the same for the source but for the tokenizer: the call names the
    tokens of the start and of the end of a sentence, and leaves the unknown
    and the padding tokens to the defaults of the framework. *)
Definition TRG : Field :=
  {| init_token := Some "<sos>"; eos_token := Some "<eos>";
     unk_token := Some "<unk>"; pad_token := Some "<pad>" |}.

Definition SRC : Field := TRG.



(** ** The data setup of the notebooks that take a subset *)

Section data.
Context {example : Type}.

Record splits : Type := {
  train_data : list example;
  valid_data : list example;
  test_data : list example;
}.

(** The three assignments, in their order. *)
Definition take_subset (d : splits) : splits :=
  let d := {| train_data := take 1000 (train_data d);
              valid_data := valid_data d; test_data := test_data d |} in
  let d := {| train_data := train_data d;
              valid_data := take 100 (valid_data d); test_data := test_data d |} in
  {| train_data := train_data d; valid_data := valid_data d;
     test_data := take 100 (train_data d) |}.
End data.
Arguments splits : clear implicits.

(** ** What a decoding step of the attention model computes *)

Section steps.
Context `{Backend}.

(** What one call of the decoder computes: [y] is the embedding of the input
    tokens after dropout, [a0] the weights the attention module returns for
    the state [hidden] and the encoder outputs, and [X] what the recurrent
    layer receives with [hidden]. *)
Definition decoder_call (self : Decoder.t) (input_idx : tensor Z)
    (hidden enc_outputs pred hidden' a : tensor F) (w w' : W) : Prop :=
  ∃ Ns B He E y0 w1 y w2 a0 w3 scores X out w4 out',
    shape enc_outputs = [Ns; B; He] ∧
    Decoder.embedding_layer self input_idx w = OK (y0, w1) ∧
    Decoder.dropout_layer self y0 w1 = OK (y, w2) ∧
    shape y = [B; E] ∧
    Attention.forward (Decoder.attention self) hidden enc_outputs w2 = OK (a0, w3) ∧
    softmax 1 scores = OK a0 ∧
    shape a0 = [B; Ns] ∧
    shape a = [B; 1; Ns] ∧
    (∀ b s, a !!! [b; 0; s] = a0 !!! [b; s]) ∧
    Decoder.gru self X hidden w3 = OK ((out, hidden'), w4) ∧
    shape X = [1; B; E + He] ∧
    (∀ b j, b < B → j < E + He →
       X !!! [0; b; j] =
         if decide (j < E) then y !!! [b; j]
         else dot Ns (λ s, a0 !!! [b; s]) (λ s, enc_outputs !!! [s; b; j - E])) ∧
    squeeze_dim 0 out = OK out' ∧
    Decoder.linear_layer self out' w4 = OK (pred, w').

(** What the attention model does at one decoding step, given the encoder
    outputs and the attention tensor that [forward] returns: the decoder is
    called on the step's input and state; and the weights of the attention
    module are what position [t] of the attention tensor holds, when the
    encoder outputs have the source's length and batch size. *)
Definition attends (dec : Decoder.t) (enc_outputs attn : tensor F) (batch_size src_len t : nat)
    (st : decoding_step) : Prop :=
  ∃ hidden' w w',
    decoder_call dec (step_input st) (step_hidden st) enc_outputs
      (step_pred st) hidden' (step_attention st) w w' ∧
    (take 2 (shape enc_outputs) = [src_len; batch_size] →
     ∀ b s, b < batch_size → s < src_len →
       attn !! [b; s; t] = Some (step_attention st !!! [b; 0; s])).
End steps.

(** ** Training and evaluation *)

Section training.
Context `{Backend}.

(** What the save routines put in a file. *)
Inductive payload : Type :=
  | PStateDict (sd : StateDict)
  | PModule (sd : StateDict)
  | PTensor (t : tensor F)
  | PArray (t : tensor F).

Inductive routine : Type := TorchSave | NumpySave.

Record file : Type := { written_by : routine; content : payload }.

(** The framework operations a notebook function issues, as they are
    written to [calls], in order; [CPrint] is a line on the standard output. *)
Inductive call : Type :=
  | CModelTrain
  | CModelEval
  | CModelTo (device : string)
  | CIter
  | CTo (device : string)
  | CZeroGrad
  | CForward (src : tensor Z) (trg_len : nat)
  | CLoss (pred_probas : tensor F) (trg : tensor Z)
  | CBackward
  | CClipGradNorm
  | COptimizerStep
  | CBleuScore
  | CPrint (epoch num_epochs : nat) (loss : F)
  | CSave (path : string).

(** The state of a notebook's process: the framework's state, the files of
    the working directory, and the operations issued so far. *)
Record world : Type := {
  fw : W;
  disk : gmap string file;
  calls : list call;
}.

(** A framework operation, issued and recorded. It leaves the files alone. *)
Definition issue {A} (c : call) (op : M W A) : M world A :=
  λ s, match op (fw s) with
       | OK (a, w') => OK (a, {| fw := w'; disk := disk s; calls := calls s ++ [c] |})
       | Raise e => Raise e
       end.

(** The framework's state, read. *)
Definition get_fw : M world W := λ s, OK (fw s, s).

(** [print(...)] *)
Definition print (c : call) : M world () :=
  λ s, OK ((), {| fw := fw s; disk := disk s; calls := calls s ++ [c] |}).

(** [torch.save(obj, path)] and [np.save(path, obj)] *)
Definition save (by_ : routine) (obj : payload) (path : string) : M world () :=
  λ s, OK ((), {| fw := fw s;
                  disk := <[path := {| written_by := by_; content := obj |}]> (disk s);
                  calls := calls s ++ [CSave path] |}).

(** [torch.load(path)] and [np.load(path)] *)
Definition load (path : string) : M world payload :=
  λ s, match disk s !! path with
       | Some f => OK (content f, s)
       | None => Raise (FileNotFoundError path)
       end.

(** A model, as the training and evaluation functions use it: [R] is what
    calling it returns. *)
Record Module (R : Type) : Type := {
  model_call : tensor Z → nat → M W R;
  model_train : M W ();
  model_eval : M W ();
  model_to : string → M W ();
  parameters : Params;
  state_dict : W → StateDict;
}.
Arguments model_call {R} m.
Arguments model_train {R} m.
Arguments model_eval {R} m.
Arguments model_to {R} m.
Arguments parameters {R} m.
Arguments state_dict {R} m.

Record Optimizer : Type := {
  zero_grad : M W ();
  optimizer_step : M W ();
}.

Record batch : Type := { batch_src : tensor Z; batch_trg : tensor Z }.

(** Iterating a dataloader gives the batches of one epoch. *)
Definition Dataloader : Type := M W (list batch).

Definition LossFn : Type := tensor F → tensor Z → M W (tensor F).

(** The statements between the call of the model and the loss, the same in
    the training and in the evaluation functions:
    [output_dim = pred_probas.shape[-1]], [pred_probas = pred_probas[1:]],
    [pred_probas = pred_probas.view(-1, output_dim)],
    [trg = trg[1:].view(-1)]. *)
Definition remove_first_token (pred_probas : tensor F) (trg : tensor Z)
    : result (tensor F * tensor Z) :=
  output_dim ← size_last pred_probas;
  pred_probas ← slice_from 1 pred_probas;
  pred_probas ← view_rows output_dim pred_probas;
  trg ← slice_from 1 trg;
  OK (pred_probas, view_flat trg).

(** The body of the loop over batches of [training_seq2seq]. *)
Definition training_seq2seq_batch (model : Module (tensor F)) (loss_fn : LossFn)
    (optimizer : Optimizer) (device : string) (b : batch) (loss_current_epoch : F)
    : M world F :=
  src ← issue (CTo device) (to_device device (batch_src b));
  trg ← issue (CTo device) (to_device device (batch_trg b));
  trg_len ← lift (size_first trg);
  _ ← issue CZeroGrad (zero_grad optimizer);
  pred_probas ← issue (CForward src trg_len) (model_call model src trg_len);
  '(pred_probas, trg) ← lift (remove_first_token pred_probas trg);
  loss ← issue (CLoss pred_probas trg) (loss_fn pred_probas trg);
  _ ← issue CBackward (backward loss);
  _ ← issue CClipGradNorm (clip_grad_norm_ (parameters model) F1);
  _ ← issue COptimizerStep (optimizer_step optimizer);
  x ← lift (item loss);
  mret (py_add loss_current_epoch x).

(** The body of the loop over epochs of [training_seq2seq]. *)
Definition training_seq2seq_epoch (model : Module (tensor F)) (train_dataloader : Dataloader)
    (num_epochs : nat) (loss_fn : LossFn) (optimizer : Optimizer) (device : string)
    (verbose : bool) (epoch : nat) (loss_total : list F) : M world (list F) :=
  let loss_current_epoch := F0 in
  batches ← issue CIter train_dataloader;
  loss_current_epoch ←
    for_each batches (training_seq2seq_batch model loss_fn optimizer device)
             loss_current_epoch;
  let loss_total := loss_total ++ [loss_current_epoch] in
  _ ← (if verbose then print (CPrint (epoch + 1) num_epochs loss_current_epoch) else mret ());
  w ← get_fw;
  _ ← save TorchSave (PStateDict (state_dict model w)) "lstm_model.pt";
  mret loss_total.

Definition training_seq2seq (model : Module (tensor F)) (train_dataloader : Dataloader)
    (num_epochs : nat) (loss_fn : LossFn) (optimizer : Optimizer) (device : string)
    (verbose : bool) : M world (list F) :=
  _ ← issue CModelTrain (model_train model);
  _ ← issue (CModelTo device) (model_to model device);
  let loss_total := [] in
  for_each (range 0 num_epochs)
    (training_seq2seq_epoch model train_dataloader num_epochs loss_fn optimizer device verbose)
    loss_total.

(** The body of the loop over batches of [evaluate_seq2seq]. *)
Definition evaluate_seq2seq_batch (model : Module (tensor F)) (loss_fn : LossFn)
    (device : string) (b : batch) (loss_eval : F) : M world F :=
  src ← issue (CTo device) (to_device device (batch_src b));
  trg ← issue (CTo device) (to_device device (batch_trg b));
  trg_len ← lift (size_first trg);
  pred_probas ← issue (CForward src trg_len) (model_call model src trg_len);
  '(pred_probas, trg) ← lift (remove_first_token pred_probas trg);
  loss ← issue (CLoss pred_probas trg) (loss_fn pred_probas trg);
  x ← lift (item loss);
  mret (py_add loss_eval x).

Definition evaluate_seq2seq (model : Module (tensor F)) (eval_dataloader : Dataloader)
    (loss_fn : LossFn) (device : string) : M world F :=
  _ ← issue CModelEval (model_eval model);
  _ ← issue (CModelTo device) (model_to model device);
  let loss_eval := F0 in
  batches ← issue CIter eval_dataloader;
  for_each batches (evaluate_seq2seq_batch model loss_fn device) loss_eval.

(** The body of the loop over batches of [training_validation_bleu], whose
    model returns the predictions and the attention. *)
Definition training_validation_bleu_batch (model : Module (tensor F * tensor F))
    (loss_fn : LossFn) (optimizer : Optimizer) (device : string) (b : batch)
    (loss_current_epoch : F) : M world F :=
  src ← issue (CTo device) (to_device device (batch_src b));
  trg ← issue (CTo device) (to_device device (batch_trg b));
  trg_len ← lift (size_first trg);
  _ ← issue CZeroGrad (zero_grad optimizer);
  '(pred_probas, _) ← issue (CForward src trg_len) (model_call model src trg_len);
  '(pred_probas, trg) ← lift (remove_first_token pred_probas trg);
  loss ← issue (CLoss pred_probas trg) (loss_fn pred_probas trg);
  _ ← issue CBackward (backward loss);
  _ ← issue CClipGradNorm (clip_grad_norm_ (parameters model) F1);
  _ ← issue COptimizerStep (optimizer_step optimizer);
  x ← lift (item loss);
  mret (py_add loss_current_epoch x).

Definition training_validation_bleu_epoch (model : Module (tensor F * tensor F))
    (train_dataloader : Dataloader) (num_epochs : nat) (loss_fn : LossFn)
    (optimizer : Optimizer) (device : string) (verbose : bool) (epoch : nat)
    (loss_train_total : list F) : M world (list F) :=
  let loss_current_epoch := F0 in
  batches ← issue CIter train_dataloader;
  loss_current_epoch ←
    for_each batches (training_validation_bleu_batch model loss_fn optimizer device)
             loss_current_epoch;
  let loss_train_total := loss_train_total ++ [loss_current_epoch] in
  _ ← (if verbose then print (CPrint (epoch + 1) num_epochs loss_current_epoch) else mret ());
  mret loss_train_total.

(** [training_validation_bleu]: the validation is left to write, so the
    list of scores stays empty and [model_name] and [valid_dataloader] are
    not used. *)
Definition training_validation_bleu (model : Module (tensor F * tensor F))
    (train_dataloader : Dataloader) (num_epochs : nat) (loss_fn : LossFn)
    (optimizer : Optimizer) (model_name : string) (valid_dataloader : option Dataloader)
    (device : string) (verbose : bool) : M world (list F * list F) :=
  _ ← issue CModelTrain (model_train model);
  _ ← issue (CModelTo device) (model_to model device);
  let loss_train_total := [] in
  let bleu_val_total := [] in
  loss_train_total ←
    for_each (range 0 num_epochs)
      (training_validation_bleu_epoch model train_dataloader num_epochs loss_fn optimizer
         device verbose)
      loss_train_total;
  mret (loss_train_total, bleu_val_total).

(** [evaluate_bleu]: the sentences are left to collect, so the score is
    that of two empty lists. *)
Definition evaluate_bleu (model : Module (tensor F * tensor F)) (eval_dataloader : Dataloader)
    (bleu_score : list (list string) → list (list (list string)) → M W F)
    (device : string) : M world F :=
  _ ← issue CModelEval (model_eval model);
  _ ← issue (CModelTo device) (model_to model device);
  let trg_pred_all := [] in
  let trg_all := [] in
  batches ← issue CIter eval_dataloader;
  _ ← for_each batches (λ b (_ : ()),
        src ← issue (CTo device) (to_device device (batch_src b));
        trg ← issue (CTo device) (to_device device (batch_trg b));
        trg_len ← lift (size_first trg);
        '(pred_probas, _) ← issue (CForward src trg_len) (model_call model src trg_len);
        trg_pred ← lift (argmax_last pred_probas);
        mret ()) ();
  issue CBleuScore (bleu_score trg_pred_all trg_all).

(** ** The save cells of the basics notebook *)

(** [np.ones((2, 3))] *)
Definition ones_2_3 : tensor F := full [2; 3] F1.

(** The cell that saves and loads an array and a tensor. *)
Definition save_load_cell : M world (payload * payload) :=
  let x_np := ones_2_3 in
  let np_filepath := "x_np.npy" in
  _ ← save NumpySave (PArray x_np) np_filepath;
  x_np_load ← load np_filepath;
  let x_tensor := x_np in
  let tensor_filepath := "x_tensor.pt" in
  _ ← save TorchSave (PTensor x_tensor) tensor_filepath;
  x_tensor_load ← load tensor_filepath;
  mret (x_np_load, x_tensor_load).

(** The cell that saves and loads the linear layer, and the one that saves
    and loads its parameters only. *)
Definition save_layer_cell (linear_layer : Module (tensor F)) : M world payload :=
  w ← get_fw;
  _ ← save TorchSave (PModule (state_dict linear_layer w)) "fnn_model.pt";
  load "fnn_model.pt".

Definition save_params_cell (linear_layer : Module (tensor F)) : M world payload :=
  w ← get_fw;
  _ ← save TorchSave (PStateDict (state_dict linear_layer w)) "fnn_model_params.pt";
  load "fnn_model_params.pt".
End training.

Arguments model_call {_ R} m.
Arguments model_train {_ R} m.
Arguments model_eval {_ R} m.
Arguments model_to {_ R} m.
Arguments parameters {_ R} m.
Arguments state_dict {_ R} m.

(** ** What a run of the training and evaluation functions is made of *)

Section runs.
Context `{Backend}.

(** One batch: as the dataloader gave it, its source and target on the
    device, the length of the target, what the model returned, what the loss
    was given, and its value. *)
Record batch_run : Type := {
  run_batch : batch;
  run_src : tensor Z;
  run_trg : tensor Z;
  run_trg_len : nat;
  run_model_pred : tensor F;
  run_loss_pred : tensor F;
  run_loss_trg : tensor Z;
  run_loss : F;
}.

(** Steps that run one after the other, each from the state of the
    framework that the one before left. *)
Fixpoint in_sequence {X} (step : X → W → W → Prop) (xs : list X) (w w' : W) : Prop :=
  match xs with
  | [] => w' = w
  | x :: xs' => ∃ w1, step x w w1 ∧ in_sequence step xs' w1 w'
  end.

(** One batch of training, from the state [w] of the framework to [w']:
    both tensors are moved to the device, the gradients are zeroed, the model
    is called, the loss is computed from its predictions and from the target,
    both without their first position, the backward pass runs on this loss,
    the gradients are clipped and the optimizer steps; every operation runs
    in the state that the one before left. *)
Definition trains_on (model : Module (tensor F)) (loss_fn : LossFn) (optimizer : Optimizer)
    (device : string) (r : batch_run) (w w' : W) : Prop :=
  ∃ w1 w2 w3 w4 loss w5 w6 w7,
    to_device device (batch_src (run_batch r)) w = OK (run_src r, w1) ∧
    to_device device (batch_trg (run_batch r)) w1 = OK (run_trg r, w2) ∧
    size_first (run_trg r) = OK (run_trg_len r) ∧
    zero_grad optimizer w2 = OK ((), w3) ∧
    model_call model (run_src r) (run_trg_len r) w3 = OK (run_model_pred r, w4) ∧
    remove_first_token (run_model_pred r) (run_trg r) = OK (run_loss_pred r, run_loss_trg r) ∧
    loss_fn (run_loss_pred r) (run_loss_trg r) w4 = OK (loss, w5) ∧
    backward loss w5 = OK ((), w6) ∧
    clip_grad_norm_ (parameters model) F1 w6 = OK ((), w7) ∧
    optimizer_step optimizer w7 = OK ((), w') ∧
    item loss = OK (run_loss r).

(** One batch of evaluation: the tensors are moved, the model is called
    and the loss is computed; nothing else runs. *)
Definition evaluates_on (model : Module (tensor F)) (loss_fn : LossFn) (device : string)
    (r : batch_run) (w w' : W) : Prop :=
  ∃ w1 w2 w3 loss,
    to_device device (batch_src (run_batch r)) w = OK (run_src r, w1) ∧
    to_device device (batch_trg (run_batch r)) w1 = OK (run_trg r, w2) ∧
    size_first (run_trg r) = OK (run_trg_len r) ∧
    model_call model (run_src r) (run_trg_len r) w2 = OK (run_model_pred r, w3) ∧
    remove_first_token (run_model_pred r) (run_trg r) = OK (run_loss_pred r, run_loss_trg r) ∧
    loss_fn (run_loss_pred r) (run_loss_trg r) w3 = OK (loss, w') ∧
    item loss = OK (run_loss r).

(** One iteration of the dataloader, and the batches it gave, run in their
    order. *)
Definition epoch_of (step : batch_run → W → W → Prop) (dataloader : Dataloader)
    (rs : list batch_run) (w w' : W) : Prop :=
  ∃ w0, dataloader w = OK (run_batch <$> rs, w0) ∧ in_sequence step rs w0 w'.

(** A training, from the state [w] of the framework to [w']: the model is
    set to training and moved, then the epochs follow one another. *)
Definition training_run (model : Module (tensor F)) (train_dataloader : Dataloader)
    (num_epochs : nat) (loss_fn : LossFn) (optimizer : Optimizer) (device : string)
    (w : W) (epochs : list (list batch_run)) (w' : W) : Prop :=
  ∃ w1 w2,
    model_train model w = OK ((), w1) ∧
    model_to model device w1 = OK ((), w2) ∧
    length epochs = num_epochs ∧
    in_sequence (epoch_of (trains_on model loss_fn optimizer device) train_dataloader)
      epochs w2 w'.

(** An evaluation: the model is set to evaluation and moved, then the
    batches of one iteration of the dataloader follow. *)
Definition evaluation_run (model : Module (tensor F)) (eval_dataloader : Dataloader)
    (loss_fn : LossFn) (device : string) (w : W) (rs : list batch_run) (w' : W) : Prop :=
  ∃ w1 w2,
    model_eval model w = OK ((), w1) ∧
    model_to model device w1 = OK ((), w2) ∧
    epoch_of (evaluates_on model loss_fn device) eval_dataloader rs w2 w'.

(** One batch of [evaluate_bleu]: the tensors are moved, the model is
    called and the index of the largest prediction is taken. *)
Definition predicts_on (model : Module (tensor F * tensor F)) (device : string)
    (b : batch) (w w' : W) : Prop :=
  ∃ src w1 trg w2 trg_len pred_probas a trg_pred,
    to_device device (batch_src b) w = OK (src, w1) ∧
    to_device device (batch_trg b) w1 = OK (trg, w2) ∧
    size_first trg = OK trg_len ∧
    model_call model src trg_len w2 = OK ((pred_probas, a), w') ∧
    argmax_last pred_probas = OK trg_pred.

(** [evaluate_bleu], from the state [w] of the framework to [w']: after the
    batches [bs] of one iteration of the dataloader, the score is that of no
    sentence against no reference. *)
Definition bleu_run (model : Module (tensor F * tensor F)) (eval_dataloader : Dataloader)
    (bleu_score : list (list string) → list (list (list string)) → M W F)
    (device : string) (w : W) (bs : list batch) (score : F) (w' : W) : Prop :=
  ∃ w1 w2 w3 w4,
    model_eval model w = OK ((), w1) ∧
    model_to model device w1 = OK ((), w2) ∧
    eval_dataloader w2 = OK (bs, w3) ∧
    in_sequence (predicts_on model device) bs w3 w4 ∧
    bleu_score [] [] w4 = OK (score, w').

(** [P'] and [T'] hold the positions 1 to [L - 1] of the predictions [P]
    and of the target [T], one row for each position and sentence. *)
Definition positions_from_1 (L B V : nat) (P : tensor F) (T : tensor Z)
    (P' : tensor F) (T' : tensor Z) : Prop :=
  shape P' = [(L - 1) * B; V] ∧ shape T' = [(L - 1) * B] ∧
  (∀ t b k, t < L - 1 → b < B → k < V → P' !! [t * B + b; k] = P !! [1 + t; b; k]) ∧
  (∀ t b, t < L - 1 → b < B → T' !! [t * B + b] = T !! [1 + t; b]).

(** Two tensors with the same entries from position 1 on. *)
Definition same_from_1 {A} (T1 T2 : tensor A) : Prop :=
  wf T1 ∧ wf T2 ∧ shape T1 = shape T2 ∧
  ∀ t idx, 1 ≤ t → T1 !! (t :: idx) = T2 !! (t :: idx).
(** What the loss of a batch was given. *)
Definition operands (r : batch_run) : tensor F * tensor Z := (run_loss_pred r, run_loss_trg r).

(** The first position has no part in what the loss of a batch is given:
    the loss is given the further positions, and would be given the same
    for any first position of the predictions and of the target. *)
Definition skips_first_position (r : batch_run) : Prop :=
  (∀ L B V, shape (run_model_pred r) = [L; B; V] → shape (run_trg r) = [L; B] →
     positions_from_1 L B V (run_model_pred r) (run_trg r)
       (run_loss_pred r) (run_loss_trg r)) ∧
  (∀ P T, same_from_1 (run_model_pred r) P → same_from_1 (run_trg r) T →
     remove_first_token P T = OK (operands r)).

(** Two models that differ at most in the first position of the
    predictions they return: they return, or raise, on the same calls, and
    leave the framework in the same state. *)
Definition agree_from_1 (model model' : Module (tensor F)) : Prop :=
  model_train model' = model_train model ∧
  model_to model' = model_to model ∧
  parameters model' = parameters model ∧
  ∀ src trg_len w,
    match model_call model src trg_len w, model_call model' src trg_len w with
    | OK (pred_probas, w1), OK (pred_probas', w1') =>
        same_from_1 pred_probas pred_probas' ∧ w1' = w1
    | Raise e, Raise e' => e' = e
    | _, _ => False
    end.

(** The operations of one batch of training: both tensors to the device,
    the gradients zeroed, the forward pass, the loss, the backward pass, the
    clipping of the gradients and the step of the optimizer. *)
Definition training_calls (device : string) (r : batch_run) : list call :=
  [CTo device; CTo device; CZeroGrad; CForward (run_src r) (run_trg_len r);
   CLoss (run_loss_pred r) (run_loss_trg r); CBackward; CClipGradNorm; COptimizerStep].

Definition evaluation_calls (device : string) (r : batch_run) : list call :=
  [CTo device; CTo device; CForward (run_src r) (run_trg_len r);
   CLoss (run_loss_pred r) (run_loss_trg r)].

(** The loss of an epoch: the losses of its batches, added up from zero. *)
Definition epoch_loss (rs : list batch_run) : F := foldl py_add F0 (run_loss <$> rs).

(** The operations of one epoch of training: the dataloader is iterated,
    the batches follow one after the other, then the line printed and the
    file saved, if any. *)
Definition epoch_calls (device : string) (verbose : bool) (num_epochs : nat)
    (saved : list string) (epoch : nat) (rs : list batch_run) : list call :=
  CIter :: (rs ≫= training_calls device)
    ++ (if verbose then [CPrint (epoch + 1) num_epochs (epoch_loss rs)] else [])
    ++ (CSave <$> saved).

(** The operands of the losses among operations. *)
Definition loss_operands (cs : list call) : list (tensor F * tensor Z) :=
  cs ≫= λ c, match c with CLoss p t => [(p, t)] | _ => [] end.

(** ** The operation that fails *)






(** The code of the notebooks that runs with the files of the working
    directory at hand: the training and evaluation functions and the save
    cells of the basics notebook. *)
Inductive writer : Type :=
  | WTraining (model : Module (tensor F)) (train_dataloader : Dataloader) (num_epochs : nat)
      (loss_fn : LossFn) (optimizer : Optimizer) (device : string) (verbose : bool)
  | WEvaluate (model : Module (tensor F)) (eval_dataloader : Dataloader) (loss_fn : LossFn)
      (device : string)
  | WTrainingBleu (model : Module (tensor F * tensor F)) (train_dataloader : Dataloader)
      (num_epochs : nat) (loss_fn : LossFn) (optimizer : Optimizer) (model_name : string)
      (valid_dataloader : option Dataloader) (device : string) (verbose : bool)
  | WEvaluateBleu (model : Module (tensor F * tensor F)) (eval_dataloader : Dataloader)
      (bleu_score : list (list string) → list (list (list string)) → M W F)
      (device : string)
  | WSaveLoad
  | WSaveLayer (linear_layer : Module (tensor F))
  | WSaveParams (linear_layer : Module (tensor F)).

Definition run_writer (c : writer) : M world () :=
  match c with
  | WTraining model train_dataloader num_epochs loss_fn optimizer device verbose =>
      _ ← training_seq2seq model train_dataloader num_epochs loss_fn optimizer device verbose;
      mret ()
  | WEvaluate model eval_dataloader loss_fn device =>
      _ ← evaluate_seq2seq model eval_dataloader loss_fn device; mret ()
  | WTrainingBleu model train_dataloader num_epochs loss_fn optimizer model_name
      valid_dataloader device verbose =>
      _ ← training_validation_bleu model train_dataloader num_epochs loss_fn optimizer
            model_name valid_dataloader device verbose;
      mret ()
  | WEvaluateBleu model eval_dataloader bleu_score device =>
      _ ← evaluate_bleu model eval_dataloader bleu_score device; mret ()
  | WSaveLoad => _ ← save_load_cell; mret ()
  | WSaveLayer linear_layer => _ ← save_layer_cell linear_layer; mret ()
  | WSaveParams linear_layer => _ ← save_params_cell linear_layer; mret ()
  end.

(** A checkpoint: a parameter dictionary, written by the framework's save
    routine. *)
Definition checkpoint (f : file) : Prop :=
  written_by f = TorchSave ∧ ∃ sd, content f = PStateDict sd.

(** The files a run leaves, on the files [d] it found, when the framework
    ends in the state [w]. *)
Definition files_after (c : writer) (w : W) (d : gmap string file) : gmap string file :=
  match c with
  | WTraining model _ num_epochs _ _ _ _ =>
      if decide (num_epochs = 0) then d
      else <["lstm_model.pt" :=
               {| written_by := TorchSave; content := PStateDict (state_dict model w) |}]> d
  | WEvaluate _ _ _ _ | WTrainingBleu _ _ _ _ _ _ _ _ _ | WEvaluateBleu _ _ _ _ => d
  | WSaveLoad =>
      <["x_tensor.pt" := {| written_by := TorchSave; content := PTensor ones_2_3 |}]>
        (<["x_np.npy" := {| written_by := NumpySave; content := PArray ones_2_3 |}]> d)
  | WSaveLayer linear_layer =>
      <["fnn_model.pt" :=
          {| written_by := TorchSave; content := PModule (state_dict linear_layer w) |}]> d
  | WSaveParams linear_layer =>
      <["fnn_model_params.pt" :=
          {| written_by := TorchSave; content := PStateDict (state_dict linear_layer w) |}]> d
  end.
End runs.

(** ** Indices within a list *)

(** An index of the interpreter within the bounds of a list: from the
    start when it is not negative, from the end when it is. *)
Definition in_bounds {A} (l : list A) (z : Z) : Prop :=
  (- Z.of_nat (length l) ≤ z < Z.of_nat (length l))%Z.

#[global] Instance in_bounds_dec {A} (l : list A) z : Decision (in_bounds l z).
Proof. unfold in_bounds. apply _. Defined.

(** ** Reading parts of tensors and arrays *)

(** Where an index of the view [T[ix]] falls in the whole tensor. *)
Fixpoint view_index (ix : list index) (j : list nat) : list nat :=
  match ix, j with
  | [], _ => j
  | Idx i :: ix', _ => i :: view_index ix' j
  | All :: ix', x :: j' => x :: view_index ix' j'
  | All :: _, [] => []
  end.

Section reading.
Context {A : Type} `{!Inhabited A}.

(** [T[ix]], read: an integer beyond its dimension, or more subscripts than
    dimensions, raise [IndexError], as they do in an assignment. *)
Definition getitem (ix : list index) (T : tensor A) : result (tensor A) :=
  tsh ← sub_shape ix (shape T);
  OK (build tsh (λ j, T !!! view_index ix j)).

(** [a[lo:hi, :hi2]] for an array and bounds that are not negative: a bound
    beyond a dimension stops at the dimension; an array of fewer than two
    dimensions has too many indices. *)
Definition slice_rows_columns (lo hi hi2 : nat) (a : tensor A) : result (tensor A) :=
  match shape a with
  | r :: c :: sh =>
      OK (build ((hi `min` r - lo) :: (hi2 `min` c) :: sh) (λ idx,
            match idx with
            | i :: rest => a !!! (lo + i :: rest)
            | [] => inhabitant
            end))
  | _ => Raise (IndexError "too many indices for array")
  end.
End reading.

(** ** The cells that show a translation and its attention *)

(** The loops of [vizualize_attention] over the tokens of a sentence:
    [for t in tokens: ticks.append(t); if t == '<eos>': break]. *)
Fixpoint ticks (tokens : list string) : list string :=
  match tokens with
  | [] => []
  | t :: tokens' => t :: (if decide (t = "<eos>") then [] else ticks tokens')
  end.

Section showing.
Context `{Backend}.

(** What [vizualize_attention] hands to the plotting library: the matrix
    shown and the labels of the ticks of both axes. What the library does
    with them is not part of the development: [matshow] shows a matrix, and
    refuses most arrays of more dimensions. *)
Record figure : Type := {
  shown : tensor F;
  x_labels : list string;
  y_labels : list string;
}.

Definition vizualize_attention (attention : tensor F) (sentence translation : list string)
    : result figure :=
  attention ← squeeze_dim 1 attention;
  let y_ticks := ticks translation in
  let x_ticks := ticks sentence in
  let x_ticks := EmptyString :: x_ticks in
  attention ← slice_rows_columns 1 (length y_ticks) (length x_ticks - 1) attention;
  OK {| shown := attention; x_labels := x_ticks; y_labels := y_ticks |}.

(** The cell that checks the results on the example batch, for the
    sentence [indx_sentence_print] of the batch: the source sentence, its
    translation, the predicted translation and the attention, as the cell
    leaves them; the next cell shows the attention. *)
Definition indx_sentence_print : nat := 1.

Definition check_results_cell (model : Module (tensor F * tensor F))
    (itos_de itos_en : list string) (example_batch : batch)
    : M W (list string * list string * list string * tensor F) :=
  let example_batch_src := batch_src example_batch in
  let example_batch_trg := batch_trg example_batch in
  n ← lift (len example_batch_trg);
  '(example_batch_trg_pred, a) ← model_call model example_batch_src n;
  indx_pred ← lift (argmax_last example_batch_trg_pred);
  src_column ← lift (getitem [All; Idx indx_sentence_print] example_batch_src);
  sentence ← lift (itos_list itos_de src_column);
  trg_column ← lift (getitem [All; Idx indx_sentence_print] example_batch_trg);
  translation ← lift (itos_list itos_en trg_column);
  pred_column ← lift (getitem [All; Idx indx_sentence_print] indx_pred);
  translation_pred ← lift (itos_list itos_en pred_column);
  attention ← lift (getitem [Idx indx_sentence_print] a);
  mret (sentence, translation, translation_pred, attention).

Definition show_attention_cell (model : Module (tensor F * tensor F))
    (itos_de itos_en : list string) (example_batch : batch) : M W figure :=
  '(sentence, _, translation_pred, attention) ←
    check_results_cell model itos_de itos_en example_batch;
  lift (vizualize_attention attention sentence translation_pred).

(** The row of predictions that holds a one at index 2 and zeros elsewhere. *)
Definition sos_row (V : nat) : list F := (λ k, if decide (k = 2) then F1 else F0) <$> seq 0 V.
End showing.

(** ** Training with validation, and the test of the attention notebook *)

Section validation.
Context `{Backend}.

(** A framework operation that the record of operations does not list. *)
Definition run {A} (op : M W A) : M world A :=
  λ s, match op (fw s) with
       | OK (a, w') => OK (a, {| fw := w'; disk := disk s; calls := calls s |})
       | Raise e => Raise e
       end.

(** [training_validation_seq2seq] of the attention notebook: its loops are
    those of [training_validation_bleu], line for line; the validation is
    left to write, so the list of validation losses stays empty, and
    [loss_val_optim], [model_name] and [valid_dataloader] are not used. *)
Definition training_validation_seq2seq (model : Module (tensor F * tensor F))
    (train_dataloader : Dataloader) (num_epochs : nat) (loss_fn : LossFn)
    (optimizer : Optimizer) (model_name : string) (valid_dataloader : option Dataloader)
    (device : string) (verbose : bool) : M world (list F * list F) :=
  _ ← issue CModelTrain (model_train model);
  _ ← issue (CModelTo device) (model_to model device);
  let loss_train_total := [] in
  let loss_val_total := [] in
  loss_train_total ←
    for_each (range 0 num_epochs)
      (training_validation_bleu_epoch model train_dataloader num_epochs loss_fn optimizer
         device verbose)
      loss_train_total;
  mret (loss_train_total, loss_val_total).

(** [evaluate_seq2seq] of the attention notebook, whose model returns the
    predictions and the attention. *)
Definition evaluate_seq2seq_attention_batch (model : Module (tensor F * tensor F))
    (loss_fn : LossFn) (device : string) (b : batch) (loss_eval : F) : M world F :=
  src ← issue (CTo device) (to_device device (batch_src b));
  trg ← issue (CTo device) (to_device device (batch_trg b));
  trg_len ← lift (size_first trg);
  '(pred_probas, _) ← issue (CForward src trg_len) (model_call model src trg_len);
  '(pred_probas, trg) ← lift (remove_first_token pred_probas trg);
  loss ← issue (CLoss pred_probas trg) (loss_fn pred_probas trg);
  x ← lift (item loss);
  mret (py_add loss_eval x).

Definition evaluate_seq2seq_attention (model : Module (tensor F * tensor F))
    (eval_dataloader : Dataloader) (loss_fn : LossFn) (device : string) : M world F :=
  _ ← issue CModelEval (model_eval model);
  _ ← issue (CModelTo device) (model_to model device);
  let loss_eval := F0 in
  batches ← issue CIter eval_dataloader;
  for_each batches (evaluate_seq2seq_attention_batch model loss_fn device) loss_eval.

(** The cell that trains the attention model, and the cell that evaluates
    it on the test set: [model.load_state_dict(torch.load('model_attention.pt'))]
    and [evaluate_seq2seq(model, test_dataloader, loss_fn)]. *)
Definition train_cell (model : Module (tensor F * tensor F)) (train_dataloader : Dataloader)
    (num_epochs : nat) (loss_fn : LossFn) (optimizer : Optimizer)
    (valid_dataloader : Dataloader) : M world (list F * list F) :=
  training_validation_seq2seq model train_dataloader num_epochs loss_fn optimizer
    "model_attention" (Some valid_dataloader) "cpu" true.

Definition test_cell (model : Module (tensor F * tensor F))
    (load_state_dict : payload → M W ()) (test_dataloader : Dataloader) (loss_fn : LossFn)
    : M world F :=
  state ← load "model_attention.pt";
  _ ← run (load_state_dict state);
  evaluate_seq2seq_attention model test_dataloader loss_fn "cpu".

(** Two runs that end alike: with values related by [R] and in the same
    state of the framework, or with the same exception. *)
Definition alike {A B} (R : A → B → Prop) (r1 : result (A * world)) (r2 : result (B * world))
    : Prop :=
  match r1, r2 with
  | OK (a, s1), OK (b, s2) => R a b ∧ fw s1 = fw s2
  | Raise e1, Raise e2 => e1 = e2
  | _, _ => False
  end.

(** The model that returns the predictions of a model with attention, and
    leaves its attention. *)
Definition predictions_only (model : Module (tensor F * tensor F)) : Module (tensor F) :=
  {| model_call := λ src trg_len, r ← model_call model src trg_len; mret r.1;
     model_train := model_train model;
     model_eval := model_eval model;
     model_to := model_to model;
     parameters := parameters model;
     state_dict := state_dict model |}.
End validation.

(** ** A small instance, to run the definitions

    Integers for scalars, the identity for the softmax, and layers of fixed
    sizes that check the shapes of their arguments as the framework's do:
    embeddings of size 2, states of size 2, a target vocabulary of size 4.
    The state counts the calls of layers. *)

Module Toy.

(** The first index that holds the largest entry. *)
Definition argmax (row : list Z) : nat :=
  match row with
  | [] => 0
  | x :: row' =>
      (foldl (λ '(best, at_, i) y, if decide (best < y)%Z then (y, i, S i) else (best, at_, S i))
             (x, 0, 1) row').1.2
  end.

Definition count {A} (a : A) : M nat A := λ n, OK (a, S n).

#[export] Instance backend : Backend := {|
  F := Z; F0 := 0%Z; F1 := 1%Z; Fadd := Z.add; Fmul := Z.mul;
  argmax_row := argmax;
  softmax := λ _ T, OK T;
  W := nat;
  Params := ();
  StateDict := nat;
  to_device := λ _ T, mret T;
  backward := λ _, count ();
  clip_grad_norm_ := λ _ _, count ();
  py_add := Z.add;
|}.

(** A layer on the last dimension, which must have size [m]: the row [r]
    becomes the row [f r 0], ..., [f r (n-1)]. *)
Definition on_rows (m n : nat) (f : list Z → nat → Z) (T : tensor Z) : M nat (tensor Z) :=
  if decide (last (shape T) = Some m) then
    count (build (removelast (shape T) ++ [n]) (λ idx,
             f ((λ k, T !!! (removelast idx ++ [k])) <$> seq 0 m) (default 0 (last idx))))
  else lift shape_error.

Definition entry (r : list Z) (k : nat) : Z := default 0%Z (r !! k).

(** A table of [rows] embeddings of size 2. *)
Definition embedding (rows : nat) (idx : tensor Z) : M nat (tensor Z) :=
  if decide (Forall (λ i, 0 ≤ i < Z.of_nat rows)%Z (data idx)) then
    count (build (shape idx ++ [2]) (λ i,
             (idx !!! removelast i + Z.of_nat (default 0%nat (last i)))%Z))
  else lift index_error.

Definition dropout (T : tensor Z) : M nat (tensor Z) := count T.

(** A recurrent layer from inputs of size 2 to states of size 2, without an
    initial state: all outputs, and the last one. *)
Definition gru_enc (T : tensor Z) : M nat (tensor Z * tensor Z) :=
  match shape T with
  | [s; b; e] =>
      if decide (0 < s ∧ e = 2) then
        outputs ← on_rows 2 2 (λ r j, Z.add (entry r j) (Z.of_nat j)) T;
        mret (outputs, build [1; b; 2] (λ idx, outputs !!! (s - 1 :: drop 1 idx)))
      else lift shape_error
  | _ => lift shape_error
  end.

(** One step of a recurrent layer from inputs of size 4 and a state of size 2. *)
Definition gru_dec (x h : tensor Z) : M nat (tensor Z * tensor Z) :=
  match shape x with
  | [_; b; _] =>
      if decide (shape x = [1; b; 4] ∧ shape h = [1; b; 2]) then
        let out := build [1; b; 2] (λ idx,
          Z.add (Z.add (x !!! idx) (x !!! (take 2 idx ++ [default 0 (last idx) + 2])))
                (h !!! idx)) in
        count (out, out)
      else lift shape_error
  | _ => lift shape_error
  end.

Definition encoder : Encoder.t := {|
  Encoder.input_dim := 6;
  Encoder.embedding_layer := embedding 6;
  Encoder.dropout := dropout;
  Encoder.gru := gru_enc;
|}.

Definition attention : Attention.t := {|
  Attention.energy_layer := on_rows 4 2 (λ r j, (entry r j + entry r (j + 2))%Z);
  Attention.v := on_rows 2 1 (λ r _, (entry r 0 + entry r 1)%Z);
|}.

Definition decoder : Decoder.t := {|
  Decoder.output_dim := 4;
  Decoder.embedding_layer := embedding 4;
  Decoder.dropout_layer := dropout;
  Decoder.gru := gru_dec;
  Decoder.linear_layer := on_rows 2 4 (λ r k, (entry r (k mod 2) * Z.of_nat (k + 1))%Z);
  Decoder.attention := attention;
|}.

Definition model : Seq2Seq.t := Seq2Seq.init encoder decoder.

(** Two sentences of two tokens, and two sentences of one token. *)
Definition src_2_2 : tensor Z := Tensor [2; 2] [4; 5; 3; 1]%Z.
Definition src_1_2 : tensor Z := Tensor [1; 2] [4; 5]%Z.

(** The model as a module, its loss, optimizer and dataloader. *)
Definition module : Module (tensor Z * tensor Z) := {|
  model_call := Seq2Seq.forward model;
  model_train := count ();
  model_eval := count ();
  model_to := λ _, count ();
  parameters := ();
  state_dict := λ w, w;
|}.

Definition module_pred : Module (tensor Z) := {|
  model_call := λ src trg_len, r ← Seq2Seq.forward model src trg_len; mret r.1;
  model_train := count ();
  model_eval := count ();
  model_to := λ _, count ();
  parameters := ();
  state_dict := λ w, w;
|}.

Definition loss_fn : LossFn := λ pred trg,
  if decide (take 1 (shape pred) = [length (data trg)])
  then count (scalar (foldr Z.add 0%Z (data pred)))
  else lift shape_error.

Definition optimizer : Optimizer := {| zero_grad := count (); optimizer_step := count () |}.

Definition trg_3_2 : tensor Z := Tensor [3; 2] [2; 2; 1; 0; 3; 3]%Z.

Definition dataloader : Dataloader :=
  count [{| batch_src := src_2_2; batch_trg := trg_3_2 |}].


Definition start : world := {| fw := 0; disk := ∅; calls := [] |}.
End Toy.

(** ** Examples on the small instance *)

Module Example.

(** Vocabularies whose first entries are those of the notebooks. *)
Definition itos_de : list string := ["<unk>"; "<pad>"; "<sos>"; "<eos>"; "ein"; "hund"].
Definition itos_en : list string := ["<unk>"; "<pad>"; "<sos>"; "<eos>"].

Definition example_batch : batch :=
  {| batch_src := Tensor [2; 2] [2; 2; 4; 3]%Z; batch_trg := Toy.trg_3_2 |}.

(** An attention of three rows and two columns, and one of one column. *)
Definition attention_3_2 : tensor (@F Toy.backend) := Tensor [3; 2] [1; 2; 3; 4; 5; 6]%Z.
Definition attention_3_1 : tensor (@F Toy.backend) := Tensor [3; 1] [1; 2; 3]%Z.

(** States of a decoder of one layer, of two layers, and of size one, for
    two sentences; and the outputs of an encoder on two tokens. *)
Definition hidden_1_2_2 : tensor (@F Toy.backend) := Tensor [1; 2; 2] [1; 2; 3; 4]%Z.
Definition hidden_2_2_2 : tensor (@F Toy.backend) := Tensor [2; 2; 2] [1; 2; 3; 4; 5; 6; 7; 8]%Z.
Definition hidden_1_2_1 : tensor (@F Toy.backend) := Tensor [1; 2; 1] [1; 2]%Z.
Definition enc_outputs_2_2_2 : tensor (@F Toy.backend) := Tensor [2; 2; 2] [1; 0; 2; 0; 3; 0; 4; 0]%Z.
End Example.

(** * Part II: lemmas and theorems *)

(** ** Results and computations *)

Lemma result_bind_OK {A B} (f : A → result B) (r : result A) b :
  r ≫= f = OK b ↔ ∃ a, r = OK a ∧ f a = OK b.
Proof. destruct r; simpl; split; [eauto| |done|]; by intros (? & [= ->] & ?). Qed.

Lemma result_fmap_OK {A B} (f : A → B) (r : result A) b :
  f <$> r = OK b ↔ ∃ a, r = OK a ∧ b = f a.
Proof.
  destruct r as [a|e]; simpl; split.
  - intros [= <-]. by eexists.
  - by intros (? & [= ->] & ->).
  - done.
  - by intros (? & [=] & _).
Qed.

Section monad.
Context {S : Type}.

Lemma bind_OK {A B} (m : M S A) (f : A → M S B) s r :
  (m ≫= f) s = OK r ↔ ∃ a s', m s = OK (a, s') ∧ f a s' = OK r.
Proof.
  unfold mbind, M_bind. destruct (m s) as [[a s']|]; split.
  - eauto.
  - by intros (? & ? & [= -> ->] & ?).
  - done.
  - by intros (? & ? & [=] & _).
Qed.

Lemma bind_Raise {A B} (m : M S A) (f : A → M S B) s e :
  (m ≫= f) s = Raise e ↔ m s = Raise e ∨ ∃ a s', m s = OK (a, s') ∧ f a s' = Raise e.
Proof.
  unfold mbind, M_bind. destruct (m s) as [[a s']|]; split.
  - intros ?. right. by eexists _, _.
  - by intros [[=]|(? & ? & [= -> ->] & ?)].
  - intros [= ->]. by left.
  - by intros [[= ->]|(? & ? & [=] & _)].
Qed.

Lemma ret_OK {A} (a : A) (s : S) r : (mret a : M S A) s = OK r ↔ r = (a, s).
Proof. unfold mret, M_ret. split; [by intros [= <-]|by intros ->]. Qed.

Lemma lift_OK {A} (x : result A) (s : S) r : lift x s = OK r ↔ ∃ a, x = OK a ∧ r = (a, s).
Proof.
  unfold lift. destruct x as [a|e]; split.
  - intros [= <-]. by eexists.
  - by intros (? & [= ->] & ->).
  - done.
  - by intros (? & [=] & _).
Qed.

Lemma lift_Raise {A} (x : result A) (s : S) e : lift x s = Raise e ↔ x = Raise e.
Proof. unfold lift. destruct x as [a|e']; split; try done; by intros [= ->]. Qed.

(** A property of the loop variables that every turn keeps holds at the end. *)
Lemma for_each_inv {X St} (I : St → S → Prop) (xs : list X) (body : X → St → M S St)
    st s st' s' :
  (∀ x st s st' s', x ∈ xs → I st s → body x st s = OK (st', s') → I st' s') →
  I st s → for_each xs body st s = OK (st', s') → I st' s'.
Proof.
  revert st s. induction xs as [|x xs IH]; intros st s Hb Hst; simpl.
  - by intros [= <- <-]%ret_OK.
  - intros (st1 & s1 & H1 & H2)%bind_OK. eapply IH; [|by eapply Hb; [left|..]|done].
    intros. eapply Hb; [by right|done..].
Qed.

(** A loop raises what one of its turns raises. *)
Lemma for_each_Raise {X St} (xs : list X) (body : X → St → M S St) st s e :
  for_each xs body st s = Raise e → ∃ x st0 s0, x ∈ xs ∧ body x st0 s0 = Raise e.
Proof.
  revert st s. induction xs as [|x xs IH]; intros st s; simpl; [done|].
  intros [Hx|(st1 & s1 & _ & Hrest)]%bind_Raise.
  - exists x, st, s. split; [left|done].
  - destruct (IH _ _ Hrest) as (x' & st0 & s0 & Hin & Hr).
    exists x', st0, s0. split; [by right|done].
Qed.
Lemma bind_ext {A B} (m : M S A) (k1 k2 : A → M S B) s :
  (∀ a s', k1 a s' = k2 a s') → (m ≫= k1) s = (m ≫= k2) s.
Proof. intros Hk. unfold mbind, M_bind. by destruct (m s) as [[a s']|]. Qed.

Lemma for_each_ext {X St} (xs : list X) (body1 body2 : X → St → M S St) st s :
  (∀ x st s, body1 x st s = body2 x st s) →
  for_each xs body1 st s = for_each xs body2 st s.
Proof.
  intros Hb. revert st s. induction xs as [|x xs IH]; intros st s; [done|]. simpl.
  unfold mbind, M_bind. rewrite Hb. by destruct (body2 x st s) as [[st' s']|].
Qed.
End monad.

(** Inversion of a successful run, one bind at a time. *)
Ltac inv_run H :=
  repeat match type of H with
  | (_ ≫= _) _ = OK _ =>
      let a := fresh "a" in let s := fresh "s" in let H1 := fresh "Hrun" in
      apply bind_OK in H as (a & s & H1 & H);
      try (apply lift_OK in H1 as (? & H1 & [= -> ->]))
  | (let '(_, _) := ?x in _) _ = OK _ => destruct x
  | (let '(_, _) := ?x in _) = OK _ => destruct x
  | mret _ _ = OK _ => apply ret_OK in H; simplify_eq
  end.

(** Simplification that keeps the lookups of tensors in their notation. *)
Ltac tsimpl :=
  cbn;
  repeat change (tensor_lookup_total ?i ?T) with (T !!! i);
  repeat change (tensor_lookup ?i ?T) with (T !! i).

(** An index within a shape, entry by entry. *)
Ltac in_range :=
  repeat (refine (List.Forall2_cons _ _ _ _); [simpl; (done || lia)|]);
  refine (List.Forall2_nil _).

Lemma elem_of_range a b t : t ∈ range a b ↔ a ≤ t < b.
Proof. unfold range. rewrite elem_of_seq. lia. Qed.

(** ** Offsets and indices *)

Lemma length_indices sh : length (indices sh) = numel sh.
Proof.
  induction sh as [|d sh IH]; [done|]. simpl.
  assert (∀ k, length (seq k d ≫= λ i, cons i <$> indices sh) = d * numel sh) as Hk.
  { induction d as [|d IHd]; intros k; [done|]. simpl.
    rewrite length_app, length_fmap, IH, IHd. lia. }
  apply Hk.
Qed.

Lemma offset_lt sh idx o : offset sh idx = Some o → o < numel sh.
Proof.
  revert idx o. induction sh as [|d sh IH]; intros [|i idx] o; simpl; try done.
  - intros [= <-]. lia.
  - case_decide; [|done]. destruct (offset sh idx) as [o'|] eqn:E; [|done].
    intros [= <-]. apply IH in E.
    assert (S i * numel sh ≤ d * numel sh) by (apply Nat.mul_le_mono_r; lia). lia.
Qed.

Lemma offset_is_Some sh idx : Forall2 lt idx sh ↔ is_Some (offset sh idx).
Proof.
  split.
  - induction 1 as [|i d idx sh Hi _ IH]; simpl; [by eexists|].
    rewrite decide_True by done. destruct IH as [o ->]. by eexists.
  - revert idx. induction sh as [|d sh IH]; intros [|i idx]; simpl; intros [o Ho]; try done.
    case_decide; [|done]. constructor; [done|]. apply IH.
    destruct (offset sh idx); [by eexists|done].
Qed.

(** The blocks of a concatenation of lists of one length. *)
Lemma lookup_blocks {A} (g : nat → list A) n d k i j :
  (∀ i, length (g i) = n) → i < d → j < n →
  (seq k d ≫= g) !! (i * n + j) = g (k + i) !! j.
Proof.
  intros Hg. revert k i. induction d as [|d IH]; intros k i Hi Hj; [lia|].
  simpl. destruct i as [|i].
  - rewrite lookup_app_l by (rewrite Hg; lia). by rewrite Nat.add_0_r.
  - rewrite lookup_app_r by (rewrite Hg; lia). rewrite Hg.
    replace (S i * n + j - n) with (i * n + j) by lia.
    rewrite IH by lia. by replace (S k + i) with (k + S i) by lia.
Qed.

(** The index stored at an offset is the one the offset was computed from. *)
Lemma indices_offset sh idx o : offset sh idx = Some o → indices sh !! o = Some idx.
Proof.
  revert idx o. induction sh as [|d sh IH]; intros [|i idx] o; simpl; try done.
  - by intros [= <-].
  - case_decide; [|done]. destruct (offset sh idx) as [o'|] eqn:E; [|done].
    intros [= <-].
    rewrite (lookup_blocks (λ i, cons i <$> indices sh) (numel sh)).
    + rewrite list_lookup_fmap. by rewrite (IH _ _ E).
    + intros. by rewrite length_fmap, length_indices.
    + done.
    + by eapply offset_lt.
Qed.

Lemma offset_indices sh o idx : indices sh !! o = Some idx → offset sh idx = Some o.
Proof.
  revert idx o. induction sh as [|d sh IH]; intros idx o; simpl.
  - destruct o; [|done]. by intros [= <-].
  - intros Hl.
    assert (o < d * numel sh) as Ho.
    { apply lookup_lt_Some in Hl. pose proof (length_indices (d :: sh)) as HL.
      simpl in HL. by rewrite HL in Hl. }
    assert (0 < numel sh) as Hpos by nia.
    assert (o = (o / numel sh) * numel sh + o mod numel sh) as Heq.
    { rewrite Nat.mul_comm. apply Nat.div_mod_eq. }
    assert (o / numel sh < d) as Hq by (apply Nat.Div0.div_lt_upper_bound; lia).
    assert (o mod numel sh < numel sh) as Hr by (apply Nat.mod_upper_bound; lia).
    rewrite Heq in Hl.
    rewrite (lookup_blocks (λ i, cons i <$> indices sh) (numel sh)) in Hl; try done.
    2:{ intros. by rewrite length_fmap, length_indices. }
    rewrite list_lookup_fmap in Hl.
    destruct (indices sh !! (o mod numel sh)) as [idx'|] eqn:E; [|done].
    simpl in Hl. injection Hl as <-. simpl.
    rewrite decide_True by done. rewrite (IH _ _ E). simpl. f_equal. lia.
Qed.

(** *** Broadcasting a value to its own shape *)

Lemma length_strip_ones sh : length (strip_ones sh) ≤ length sh.
Proof. induction sh as [|[|[|d]] sh IH]; simpl; lia. Qed.

Lemma expand_index_id sh idx :
  Forall2 lt idx sh → zip_with (λ d i, if decide (d = 1) then 0 else i) sh idx = idx.
Proof.
  induction 1 as [|i d idx sh Hi _ IH]; [done|]. simpl. rewrite IH.
  case_decide; [|done]. f_equal. lia.
Qed.

Lemma offset_strip_ones sh idx :
  Forall2 lt idx sh →
  offset (strip_ones sh) (expand_index (strip_ones sh) idx) = offset sh idx.
Proof.
  induction 1 as [|i d idx sh Hi Hrest IH]; [done|].
  pose proof (Forall2_length _ _ _ Hrest) as Hlen.
  pose proof (length_strip_ones sh) as Hle.
  destruct (decide (d = 1)) as [->|Hd].
  - assert (i = 0) as -> by lia. simpl strip_ones.
    unfold expand_index in *. simpl length.
    replace (S (length idx) - length (strip_ones sh))
      with (S (length idx - length (strip_ones sh))) by lia.
    simpl drop. rewrite IH. simpl. by destruct (offset sh idx).
  - assert (strip_ones (d :: sh) = d :: sh) as -> by (by destruct d as [|[|d]]).
    unfold expand_index. simpl length. rewrite Hlen, Nat.sub_diag. simpl drop.
    rewrite expand_index_id; [done|]. by constructor.
Qed.

Lemma strip_ones_suffix sh : drop (length sh - length (strip_ones sh)) sh = strip_ones sh.
Proof.
  induction sh as [|d sh IH]; [done|].
  pose proof (length_strip_ones sh) as Hle.
  destruct (decide (d = 1)) as [->|Hd].
  - simpl strip_ones. simpl length.
    replace (S (length sh) - length (strip_ones sh))
      with (S (length sh - length (strip_ones sh))) by lia.
    done.
  - assert (strip_ones (d :: sh) = d :: sh) as -> by (by destruct d as [|[|d]]).
    by rewrite Nat.sub_diag.
Qed.

(** ** Reading tensors *)

Section tensor_lemmas.
Context {A : Type} `{!Inhabited A}.
Implicit Types T v : tensor A.

Lemma lookup_build sh (f : list nat → A) idx :
  Forall2 lt idx sh → build sh f !! idx = Some (f idx).
Proof.
  intros [o Ho]%offset_is_Some. unfold lookup, tensor_lookup, build. simpl.
  rewrite Ho. simpl. rewrite list_lookup_fmap. by rewrite (indices_offset _ _ _ Ho).
Qed.

Lemma lookup_full sh (x : A) idx : Forall2 lt idx sh → full sh x !! idx = Some x.
Proof.
  intros [o Ho]%offset_is_Some. unfold lookup, tensor_lookup, full. simpl.
  rewrite Ho. simpl. apply lookup_replicate_2. by eapply offset_lt.
Qed.

Lemma wf_build sh (f : list nat → A) : wf (build sh f).
Proof. unfold wf, build. simpl. by rewrite length_fmap, length_indices. Qed.

Lemma lookup_total_Some T idx x : T !! idx = Some x → T !!! idx = x.
Proof. unfold lookup_total, tensor_lookup_total. by intros ->. Qed.

Lemma lookup_total_build sh (f : list nat → A) idx :
  Forall2 lt idx sh → build sh f !!! idx = f idx.
Proof. intros Hi. by apply lookup_total_Some, lookup_build. Qed.

Lemma lookup_build_total sh (f : list nat → A) idx :
  Forall2 lt idx sh → build sh f !! idx = Some (build sh f !!! idx).
Proof. intros Hi. rewrite lookup_total_build by done. by apply lookup_build. Qed.

(** Reading depends on the storage and the offset only. *)
Lemma lookup_same_data T1 T2 idx1 idx2 :
  data T1 = data T2 → offset (shape T1) idx1 = offset (shape T2) idx2 →
  T1 !! idx1 = T2 !! idx2.
Proof. unfold lookup, tensor_lookup. by intros -> ->. Qed.

Lemma lookup_total_same_data T1 T2 idx1 idx2 :
  data T1 = data T2 → offset (shape T1) idx1 = offset (shape T2) idx2 →
  T1 !!! idx1 = T2 !!! idx2.
Proof.
  intros Hd Ho. unfold lookup_total, tensor_lookup_total.
  by rewrite (lookup_same_data _ _ _ _ Hd Ho).
Qed.

(** Two well-formed tensors of one shape that agree at every index are equal. *)
Lemma tensor_ext T1 T2 :
  wf T1 → wf T2 → shape T1 = shape T2 →
  (∀ idx, Forall2 lt idx (shape T1) → T1 !! idx = T2 !! idx) →
  T1 = T2.
Proof.
  destruct T1 as [sh1 d1], T2 as [sh2 d2]. unfold wf. simpl.
  intros H1 H2 <- Hext. f_equal. apply list_eq. intros o.
  destruct (decide (o < numel sh1)) as [Ho|Ho].
  - destruct (indices sh1 !! o) as [idx|] eqn:E.
    + apply offset_indices in E.
      specialize (Hext idx (proj2 (offset_is_Some _ _) (ltac:(by eexists)))).
      unfold lookup, tensor_lookup in Hext. simpl in Hext. by rewrite E in Hext.
    + apply lookup_ge_None in E. rewrite length_indices in E. lia.
  - rewrite !lookup_ge_None_2; [done| |]; lia.
Qed.

(** *** Assignment *)

Lemma broadcast_scalar (x : A) tsh : broadcast (scalar x) tsh = OK (build tsh (λ _, x)).
Proof.
  unfold broadcast. rewrite decide_True; [done|].
  split; simpl; [lia|]. rewrite Nat.sub_0_r, drop_all. constructor.
Qed.

Lemma broadcast_shape v tsh v' : broadcast v tsh = OK v' → shape v' = tsh.
Proof. unfold broadcast. case_decide; [|done]. by intros [= <-]. Qed.

Lemma broadcast_lookup v tsh v' idx :
  broadcast v tsh = OK v' → Forall2 lt idx tsh → v' !! idx = Some (v' !!! idx).
Proof.
  unfold broadcast. case_decide; [|done]. intros [= <-]. apply lookup_build_total.
Qed.

(** A value of the shape of the view is assigned as it is. *)
Lemma broadcast_same_OK v : ∃ v', broadcast v (shape v) = OK v'.
Proof.
  unfold broadcast. rewrite decide_True; [by eexists|]. split.
  - apply length_strip_ones.
  - rewrite strip_ones_suffix. apply Forall2_same_length_lookup_2; [done|].
    intros i x y Hx Hy. left. congruence.
Qed.

Lemma broadcast_same v v' :
  broadcast v (shape v) = OK v' →
  ∀ idx, Forall2 lt idx (shape v) → v' !!! idx = v !!! idx.
Proof.
  unfold broadcast. case_decide; [|done]. intros [= <-] idx Hidx.
  rewrite lookup_total_build by done.
  apply lookup_total_same_data; [done|]. simpl. by apply offset_strip_ones.
Qed.

Lemma setitem_OK ix T v T' :
  setitem ix T v = OK T' →
  ∃ tsh v', sub_shape ix (shape T) = OK tsh ∧ broadcast v tsh = OK v' ∧
    T' = build (shape T) (λ idx,
           match sub_index ix idx with Some j => v' !!! j | None => T !!! idx end).
Proof.
  unfold setitem. intros (tsh & Hs & (v' & Hv & [= <-])%result_bind_OK)%result_bind_OK.
  by eexists _, _.
Qed.

Lemma setitem_shape ix T v T' : setitem ix T v = OK T' → shape T' = shape T.
Proof. by intros (? & ? & _ & _ & ->)%setitem_OK. Qed.

(** An assignment leaves the entries outside the view as they were. *)
Lemma setitem_lookup_other ix T v T' idx x :
  setitem ix T v = OK T' → sub_index ix idx = None →
  T !! idx = Some x → T' !! idx = Some x.
Proof.
  intros (? & ? & _ & _ & ->)%setitem_OK Hi Hx.
  rewrite lookup_build.
  - by rewrite Hi, (lookup_total_Some _ _ _ Hx).
  - apply offset_is_Some. unfold lookup, tensor_lookup in Hx.
    destruct (offset (shape T) idx); [by eexists|done].
Qed.

(** An assignment writes the expanded value into the view. *)
Lemma setitem_lookup_view ix T v T' idx j :
  setitem ix T v = OK T' → sub_index ix idx = Some j → Forall2 lt idx (shape T) →
  ∃ tsh v', sub_shape ix (shape T) = OK tsh ∧ broadcast v tsh = OK v' ∧
    T' !! idx = Some (v' !!! j).
Proof.
  intros (tsh & v' & Hs & Hv & ->)%setitem_OK Hi Hx. exists tsh, v'. split_and!; try done.
  rewrite lookup_build by done. by rewrite Hi.
Qed.

(** The attention of a step, squeezed and assigned: one source position and
    several sentences do not fit; otherwise the weights arrive as they are. *)
Lemma attention_squeeze B Ns (a a' : tensor A) :
  shape a = [B; 1; Ns] → broadcast (squeeze a) [B; Ns] = OK a' →
  (Ns = 1 → B = 1) ∧ ∀ b s, b < B → s < Ns → a' !!! [b; s] = a !!! [b; 0; s].
Proof.
  intros Hsh. unfold broadcast, squeeze. simpl shape. simpl data. rewrite Hsh.
  rewrite !filter_cons, filter_nil. rewrite (decide_False (P := 1 ≠ 1)) by (intros Hne; by apply Hne).
  destruct (decide (B = 1)) as [->|HB], (decide (Ns = 1)) as [->|HN].
  - rewrite !(decide_False (P := 1 ≠ 1)) by (intros Hne; by apply Hne). simpl strip_ones.
    case_decide; [|done]. intros [= <-]. split; [done|]. intros b s Hb Hs.
    rewrite lookup_total_build by in_range.
    apply lookup_total_same_data; [done|]. simpl. rewrite Hsh. simpl.
    repeat case_decide; try lia. simpl. f_equal. lia.
  - rewrite !(decide_False (P := 1 ≠ 1)) by (intros Hne; by apply Hne).
    rewrite (decide_True (P := Ns ≠ 1)) by done.
    assert (strip_ones [Ns] = [Ns]) as -> by (by destruct Ns as [|[|?]]).
    case_decide; [|done]. intros [= <-]. split; [done|]. intros b s Hb Hs.
    rewrite lookup_total_build by in_range.
    apply lookup_total_same_data; [done|]. simpl. rewrite Hsh. simpl.
    rewrite (decide_False (P := Ns = 1)) by done.
    repeat case_decide; try lia. simpl. f_equal. lia.
  - rewrite (decide_True (P := B ≠ 1)) by done.
    rewrite !(decide_False (P := 1 ≠ 1)) by (intros Hne; by apply Hne).
    assert (strip_ones [B] = [B]) as -> by (by destruct B as [|[|?]]).
    case_decide as Hbc; [|done]. exfalso. destruct Hbc as [_ Hbc]. simpl in Hbc.
    apply Forall2_cons_1 in Hbc as [[?|?] _]; done.
  - rewrite (decide_True (P := B ≠ 1)) by done.
    rewrite (decide_True (P := Ns ≠ 1)) by done.
    assert (strip_ones [B; Ns] = [B; Ns]) as -> by (by destruct B as [|[|?]]).
    case_decide; [|done]. intros [= <-]. split; [done|]. intros b s Hb Hs.
    rewrite lookup_total_build by in_range.
    apply lookup_total_same_data; [done|]. simpl. rewrite Hsh. simpl.
    rewrite (decide_False (P := B = 1)), (decide_False (P := Ns = 1)) by done.
    repeat case_decide; try lia. simpl. f_equal. lia.
Qed.
(** An assignment returns when its view exists and its value fits. *)
Lemma setitem_returns ix (T v : tensor A) tsh :
  sub_shape ix (shape T) = OK tsh → (∃ v', broadcast v tsh = OK v') →
  ∃ T', setitem ix T v = OK T' ∧ shape T' = shape T.
Proof.
  intros Hs [v' Hv]. unfold setitem. rewrite Hs. simpl. rewrite Hv. simpl.
  by eexists.
Qed.

(** The squeezed attention of a step fits its view, but for one source
    position and a batch size other than one. *)
Lemma squeeze_fits B Ns (a : tensor A) :
  shape a = [B; 1; Ns] → Ns ≠ 1 ∨ B = 1 → ∃ a', broadcast (squeeze a) [B; Ns] = OK a'.
Proof.
  intros Hsh Hfit. unfold broadcast, squeeze. simpl shape. rewrite Hsh.
  rewrite !filter_cons, filter_nil.
  rewrite (decide_False (P := 1 ≠ 1)) by (intros Hne; by apply Hne).
  assert (∀ sh, broadcastable sh [B; Ns] →
    ∃ a', (if decide (broadcastable sh [B; Ns])
           then OK (build [B; Ns] (λ j, Tensor sh (data a) !!! expand_index sh j))
           else shape_error) = OK a') as Hok.
  { intros sh Hb. rewrite decide_True by done. by eexists. }
  destruct (decide (B = 1)) as [->|HB], (decide (Ns = 1)) as [->|HN].
  - rewrite !(decide_False (P := 1 ≠ 1)) by (intros Hne; by apply Hne).
    apply Hok. split; [simpl; lia|]. simpl. constructor.
  - rewrite !(decide_False (P := 1 ≠ 1)) by (intros Hne; by apply Hne).
    rewrite (decide_True (P := Ns ≠ 1)) by done.
    assert (strip_ones [Ns] = [Ns]) as -> by (by destruct Ns as [|[|?]]).
    apply Hok. split; [simpl; lia|]. simpl. constructor; [by left|constructor].
  - by destruct Hfit.
  - rewrite (decide_True (P := B ≠ 1)) by done.
    rewrite (decide_True (P := Ns ≠ 1)) by done.
    assert (strip_ones [B; Ns] = [B; Ns]) as -> by (by destruct B as [|[|?]]).
    apply Hok. split; [simpl; lia|]. simpl.
    constructor; [by left|]. constructor; [by left|constructor].
Qed.

(** *** Reshaping, permuting and concatenating tensors of three dimensions *)

Lemma permute_102 T T' :
  permute [1; 0; 2] T = OK T' →
  ∃ a b c, shape T = [a; b; c] ∧ shape T' = [b; a; c] ∧
    ∀ i j k, i < b → j < a → k < c → T' !!! [i; j; k] = T !!! [j; i; k].
Proof.
  unfold permute, rank. case_decide as Hd; [|done]. intros [= <-].
  destruct Hd as (Hlen & _ & _).
  destruct (shape T) as [|a [|b [|c [|]]]] eqn:Hsh; try done.
  exists a, b, c. split_and!; try done.
  intros i j k Hi Hj Hk. by rewrite lookup_total_build by in_range.
Qed.

Lemma unsqueeze_0 T T' :
  unsqueeze 0 T = OK T' →
  shape T' = 1 :: shape T ∧ ∀ idx, T' !!! (0 :: idx) = T !!! idx.
Proof.
  unfold unsqueeze. rewrite decide_True by lia. intros [= <-]. simpl.
  split; [by rewrite drop_0|]. intros idx. apply lookup_total_same_data; [done|].
  simpl. rewrite drop_0. by destruct (offset (shape T) idx).
Qed.

Lemma unsqueeze_1 T T' x y :
  shape T = [x; y] → unsqueeze 1 T = OK T' →
  shape T' = [x; 1; y] ∧ ∀ i j, T' !!! [i; 0; j] = T !!! [i; j].
Proof.
  unfold unsqueeze, rank. intros Hsh. rewrite Hsh. simpl. intros [= <-]. simpl.
  split; [done|]. intros i j. apply lookup_total_same_data; [done|].
  simpl. rewrite Hsh. simpl. repeat case_decide; simpl; try done; try lia.
  f_equal. lia.
Qed.

Lemma cat_2 T1 T2 T' a b c2 :
  shape T1 ≠ [0] → shape T2 = [a; b; c2] → cat 2 T1 T2 = OK T' →
  ∃ c1, shape T1 = [a; b; c1] ∧ shape T' = [a; b; c1 + c2] ∧
    ∀ i j k, i < a → j < b → k < c1 + c2 →
      T' !!! [i; j; k] = if decide (k < c1) then T1 !!! [i; j; k] else T2 !!! [i; j; k - c1].
Proof.
  unfold cat. intros H0 Hsh. rewrite Hsh. rewrite decide_False by done.
  rewrite decide_False by done. simpl.
  destruct (shape T1) as [|a' [|b' [|c1 [|]]]] eqn:Hsh1; simpl; try done;
    (case_decide as Hdel; [|done]); simpl in Hdel; [|done].
  injection Hdel as -> ->.
  intros [= <-]. exists c1. split_and!; try done.
  intros i j k Hi Hj Hk. by rewrite lookup_total_build by in_range.
Qed.
End tensor_lemmas.

Section float_lemmas.
Context `{Backend}.

Lemma dot_ext n (x y x' y' : nat → F) :
  (∀ l, l < n → x l = x' l) → (∀ l, l < n → y l = y' l) → dot n x y = dot n x' y'.
Proof.
  intros Hx Hy. unfold dot. f_equal. apply list_fmap_ext.
  intros i l [-> Hl]%lookup_seq. simpl. by rewrite Hx, Hy.
Qed.

Lemma bmm_OK (T1 T2 T' : tensor F) :
  bmm T1 T2 = OK T' →
  ∃ b n m p, shape T1 = [b; n; m] ∧ shape T2 = [b; m; p] ∧ shape T' = [b; n; p] ∧
    ∀ i j k, i < b → j < n → k < p →
      T' !!! [i; j; k] = dot m (λ l, T1 !!! [i; j; l]) (λ l, T2 !!! [i; l; k]).
Proof.
  unfold bmm.
  destruct (shape T1) as [|b [|n [|m [|]]]] eqn:Hsh1; try done.
  destruct (shape T2) as [|b' [|m' [|p [|]]]] eqn:Hsh2; try done.
  case_decide as Hd; [|done]. destruct Hd as [<- <-]. intros [= <-].
  exists b, n, m, p. split_and!; try done.
  intros i j k Hi Hj Hk. by rewrite lookup_total_build by in_range.
Qed.
End float_lemmas.

(** ** The forward pass of [Seq2Seq] *)

Section forward.
Context `{Backend}.
Implicit Types (self : Seq2Seq.t) (src : tensor Z).

Lemma forward_inv self src trg_len w P attn w' :
  Seq2Seq.forward self src trg_len w = OK ((P, attn), w') →
  ∃ batch_size src_len P0 enc_outputs context w0 hidden input_idx,
    size_last src = OK batch_size ∧
    setitem [Idx 0; All; Idx 2] (zeros [trg_len; batch_size; Seq2Seq.trg_vocab_size self])
            (scalar F1) = OK P0 ∧
    size_first src = OK src_len ∧
    Seq2Seq.encoder self src w = OK ((enc_outputs, context), w0) ∧
    for_each (range 1 trg_len) (Seq2Seq.step self enc_outputs)
      (P0, context, Seq2Seq.sos_input batch_size, zeros [batch_size; src_len; trg_len]) w0
    = OK ((P, hidden, input_idx, attn), w').
Proof.
  unfold Seq2Seq.forward. intros Hrun. inv_run Hrun. by eexists _, _, _, _, _, _, _, _.
Qed.

Lemma step_inv self enc_outputs t P hidden input_idx attn w P' hidden' input_idx' attn' w' :
  Seq2Seq.step self enc_outputs t (P, hidden, input_idx, attn) w
    = OK ((P', hidden', input_idx', attn'), w') →
  ∃ pred_proba_t a,
    Seq2Seq.decoder self input_idx hidden enc_outputs w = OK ((pred_proba_t, hidden', a), w') ∧
    setitem [Idx t; All; All] P pred_proba_t = OK P' ∧
    argmax_last pred_proba_t = OK input_idx' ∧
    setitem [All; All; Idx t] attn (squeeze a) = OK attn'.
Proof.
  unfold Seq2Seq.step. intros Hrun. inv_run Hrun. by eexists _, _.
Qed.

(** The first assignment: a one at index 2 of position 0, for every
    sentence of the batch. *)
Lemma first_write_inv trg_len batch_size V P0 :
  setitem [Idx 0; All; Idx 2] (zeros [trg_len; batch_size; V]) (scalar F1) = OK P0 →
  0 < trg_len ∧ 2 < V ∧ shape P0 = [trg_len; batch_size; V] ∧
  ∀ b k, b < batch_size → k < V →
    P0 !! [0; b; k] = Some (if decide (k = 2) then F1 else F0).
Proof.
  intros Hset. pose proof (setitem_shape _ _ _ _ Hset) as Hsh.
  apply setitem_OK in Hset as (tsh & v' & Hsub & Hv & ->). simpl in Hsub.
  case_decide; [|done]. simpl in Hsub. case_decide; [|done].
  injection Hsub as <-. rewrite broadcast_scalar in Hv.
  injection Hv as <-. split_and!; try done.
  intros b k Hb Hk. rewrite lookup_build by in_range.
  f_equal. tsimpl. rewrite (decide_True (P := 0 = 0)) by done.
  destruct (decide (k = 2)) as [->|].
  - rewrite decide_True by done. tsimpl.
    by rewrite lookup_total_build by in_range.
  - rewrite decide_False by done. tsimpl.
    apply lookup_total_Some, lookup_full. in_range.
Qed.

(** The assignment of a step's prediction. *)
Lemma pred_store L B V t (P pred P1 : tensor F) :
  shape P = [L; B; V] → setitem [Idx t; All; All] P pred = OK P1 →
  t < L ∧ shape P1 = [L; B; V] ∧
  ∃ pred', broadcast pred [B; V] = OK pred' ∧
    (∀ b k, b < B → k < V → P1 !! [t; b; k] = pred' !! [b; k]) ∧
    (∀ i b k x, i ≠ t → P !! [i; b; k] = Some x → P1 !! [i; b; k] = Some x).
Proof.
  intros HP Hset. pose proof (setitem_shape _ _ _ _ Hset) as HP1. rewrite HP in HP1.
  pose proof Hset as (tsh & pred' & Hs & Hb & _)%setitem_OK.
  rewrite HP in Hs. simpl in Hs. case_decide as Ht; [|done]. injection Hs as <-.
  split_and!; try done. exists pred'. split_and!; try done.
  - intros b k Hb' Hk.
    edestruct (setitem_lookup_view [Idx t; All; All] P pred P1 [t; b; k] [b; k])
      as (tsh & v' & Hs & Hv & ->); [done|..].
    { simpl. by rewrite decide_True. }
    { rewrite HP. in_range. }
    rewrite HP in Hs. simpl in Hs. rewrite decide_True in Hs by done.
    injection Hs as <-. rewrite Hb in Hv. injection Hv as <-.
    symmetry. eapply broadcast_lookup; [done|]. in_range.
  - intros i b k x Hi Hx. eapply setitem_lookup_other; [done| |done].
    simpl. by rewrite decide_False by lia.
Qed.

(** The assignment of a step's attention. *)
Lemma attn_store B Ns L t (attn a attn1 : tensor F) :
  shape attn = [B; Ns; L] → setitem [All; All; Idx t] attn a = OK attn1 →
  t < L ∧ shape attn1 = [B; Ns; L] ∧
  ∃ a', broadcast a [B; Ns] = OK a' ∧
    (∀ b s, b < B → s < Ns → attn1 !! [b; s; t] = a' !! [b; s]) ∧
    (∀ b s i x, i ≠ t → attn !! [b; s; i] = Some x → attn1 !! [b; s; i] = Some x).
Proof.
  intros HP Hset. pose proof (setitem_shape _ _ _ _ Hset) as HP1. rewrite HP in HP1.
  pose proof Hset as (tsh & a' & Hs & Hb & _)%setitem_OK.
  rewrite HP in Hs. simpl in Hs. case_decide as Ht; [|done]. injection Hs as <-.
  split_and!; try done. exists a'. split_and!; try done.
  - intros b s Hb' Hs'.
    edestruct (setitem_lookup_view [All; All; Idx t] attn a attn1 [b; s; t] [b; s])
      as (tsh & v' & Hs & Hv & ->); [done|..].
    { simpl. by rewrite decide_True. }
    { rewrite HP. in_range. }
    rewrite HP in Hs. simpl in Hs. rewrite decide_True in Hs by done.
    injection Hs as <-. rewrite Hb in Hv. injection Hv as <-.
    symmetry. eapply broadcast_lookup; [done|]. in_range.
  - intros b s i x Hi Hx. eapply setitem_lookup_other; [done| |done].
    simpl. by rewrite decide_False by lia.
Qed.

(** The loop of [forward] from step [t] on: it runs the greedy steps, writes
    each prediction and each attention at its position, and leaves the
    earlier positions. *)
Lemma decoding_loop self enc_outputs L B Ns V n t P hidden input_idx attn w
    P' hidden' input_idx' attn' w' :
  shape P = [L; B; V] → shape attn = [B; Ns; L] →
  for_each (seq t n) (Seq2Seq.step self enc_outputs) (P, hidden, input_idx, attn) w
    = OK ((P', hidden', input_idx', attn'), w') →
  ∃ steps,
    greedy_steps (Seq2Seq.decoder self) enc_outputs n input_idx hidden w = OK (steps, w') ∧
    length steps = n ∧
    shape P' = [L; B; V] ∧
    (∀ i b k x, i < t → P !! [i; b; k] = Some x → P' !! [i; b; k] = Some x) ∧
    (∀ b s i x, i < t → attn !! [b; s; i] = Some x → attn' !! [b; s; i] = Some x) ∧
    (∀ i st, steps !! i = Some st →
       ∃ pred' a',
         broadcast (step_pred st) [B; V] = OK pred' ∧
         broadcast (squeeze (step_attention st)) [B; Ns] = OK a' ∧
         (∀ b k, b < B → k < V → P' !! [t + i; b; k] = pred' !! [b; k]) ∧
         (∀ b s, b < B → s < Ns → attn' !! [b; s; t + i] = a' !! [b; s])).
Proof.
  revert t P hidden input_idx attn w.
  induction n as [|n IH]; intros t P hidden input_idx attn w HP HA; simpl.
  - intros [= <- <- <- <- <-]%ret_OK. exists []. split_and!; try done.
  - intros ([[[P1 h1] i1] a1] & w1 & Hstep & Hloop)%bind_OK.
    apply step_inv in Hstep as (pred & a & Hdec & Hset & Harg & Hattn).
    destruct (pred_store _ _ _ _ _ _ _ HP Hset) as (Ht & HP1 & pred' & Hb & Hw & Hfr).
    destruct (attn_store _ _ _ _ _ _ _ HA Hattn) as (_ & HA1 & a' & Hba & Hwa & Hfra).
    destruct (IH _ _ _ _ _ _ HP1 HA1 Hloop)
      as (steps & Hsteps & Hlen & HP' & Hframe & Hframe_a & Hpos).
    eexists (_ :: steps). split_and!.
    + apply bind_OK. eexists _, _. split; [done|]. simpl.
      apply bind_OK. eexists _, _. split; [by apply lift_OK; eexists|].
      apply bind_OK. eexists _, _. split; [done|]. by apply ret_OK.
    + simpl. by rewrite Hlen.
    + done.
    + intros i b k x Hi Hx. apply Hframe; [lia|]. apply Hfr; [lia|done].
    + intros b s i x Hi Hx. apply Hframe_a; [lia|]. apply Hfra; [lia|done].
    + intros [|i] st; simpl.
      * intros [= <-]. simpl. exists pred', a'. split_and!; try done.
        -- intros b k Hb' Hk. rewrite Nat.add_0_r.
           assert (pred' !! [b; k] = Some (pred' !!! [b; k])) as Hx
             by (eapply broadcast_lookup; [done|in_range]).
           rewrite Hx. apply Hframe; [lia|]. by rewrite Hw.
        -- intros b s Hb' Hs. rewrite Nat.add_0_r.
           assert (a' !! [b; s] = Some (a' !!! [b; s])) as Hx
             by (eapply broadcast_lookup; [done|in_range]).
           rewrite Hx. apply Hframe_a; [lia|]. by rewrite Hwa.
      * intros Hi. destruct (Hpos _ _ Hi) as (pred'' & a'' & ? & ? & Hw' & Hwa').
        exists pred'', a''. split_and!; try done.
        -- intros b k Hb' Hk. replace (t + S i) with (S t + i) by lia. by apply Hw'.
        -- intros b s Hb' Hs. replace (t + S i) with (S t + i) by lia. by apply Hwa'.
Qed.

(** The inputs of the greedy steps: the first is the one given, and each
    further one holds the highest-scoring indices of the prediction before
    it. *)
Lemma greedy_steps_inputs decoder enc_outputs n input_idx hidden w steps w' :
  greedy_steps decoder enc_outputs n input_idx hidden w = OK (steps, w') →
  (∀ st, steps !! 0 = Some st → step_input st = input_idx ∧ step_hidden st = hidden) ∧
  (∀ i st st', steps !! i = Some st → steps !! (i + 1) = Some st' →
     argmax_last (step_pred st) = OK (step_input st')).
Proof.
  revert input_idx hidden w steps.
  induction n as [|n IH]; intros input_idx hidden w steps; simpl.
  - intros [= -> ->]%ret_OK. done.
  - intros Hrun. inv_run Hrun. rename Hrun2 into Hrest.
    destruct (IH _ _ _ _ Hrest) as [Hfirst Hnext]. split.
    + by intros st [= <-].
    + intros [|i] st st'; simpl.
      * intros [= <-] Hst'. simpl. destruct (Hfirst _ Hst') as [-> _]. done.
      * apply Hnext.
Qed.
(** The loop of [forward] returns when the greedy steps do and what they
    give has the shapes of a batch. *)
Lemma decoding_loop_returns (self : Seq2Seq.t) enc_outputs L B Ns V n t P hidden input_idx
    attn w steps w' :
  shape P = [L; B; V] → shape attn = [B; Ns; L] → t + n ≤ L → Ns ≠ 1 ∨ B = 1 →
  greedy_steps (Seq2Seq.decoder self) enc_outputs n input_idx hidden w = OK (steps, w') →
  Forall (λ st, shape (step_pred st) = [B; V] ∧ shape (step_attention st) = [B; 1; Ns])
         steps →
  ∃ P' hidden' input_idx' attn',
    for_each (seq t n) (Seq2Seq.step self enc_outputs) (P, hidden, input_idx, attn) w
      = OK ((P', hidden', input_idx', attn'), w') ∧
    shape P' = [L; B; V] ∧ shape attn' = [B; Ns; L].
Proof.
  revert t P hidden input_idx attn w steps.
  induction n as [|n IH]; intros t P hidden input_idx attn w steps HP HA Ht Hfit; simpl.
  - intros [= -> ->]%ret_OK _. by eexists _, _, _, _.
  - intros Hrun Hshapes.
    apply bind_OK in Hrun as ([[pred h1] a] & w1 & Hdec & Hrun). simpl in Hrun.
    apply bind_OK in Hrun as (next & w2 & (? & Harg & [= <- <-])%lift_OK & Hrun).
    apply bind_OK in Hrun as (rest & w3 & Hrest & [= -> ->]%ret_OK).
    apply Forall_cons in Hshapes as [[Hpred Ha] Hshapes]. simpl in Hpred, Ha.
    destruct (setitem_returns [Idx t; All; All] P pred [B; V]) as (P1 & HP1 & HsP1).
    { rewrite HP. simpl. by rewrite decide_True by lia. }
    { rewrite <- Hpred. apply broadcast_same_OK. }
    destruct (setitem_returns [All; All; Idx t] attn (squeeze a) [B; Ns])
      as (attn1 & HA1 & HsA1).
    { rewrite HA. simpl. by rewrite decide_True by lia. }
    { by apply squeeze_fits. }
    rewrite HP in HsP1. rewrite HA in HsA1.
    destruct (IH (S t) P1 h1 next attn1 _ rest HsP1 HsA1 ltac:(lia) Hfit Hrest Hshapes)
      as (P' & h' & i' & attn' & Hloop & HP' & HA').
    exists P', h', i', attn'. split_and!; try done.
    apply bind_OK. eexists (_, _, _, _), _. split; [|done].
    unfold Seq2Seq.step.
    apply bind_OK. eexists _, _. split; [done|]. simpl.
    apply bind_OK. eexists _, _. split; [by apply lift_OK; eexists|].
    apply bind_OK. eexists _, _. split; [by apply lift_OK; eexists|].
    apply bind_OK. eexists _, _. split; [by apply lift_OK; eexists|].
    by apply ret_OK.
Qed.

End forward.

(** ** The decoder with attention *)

Section decoder.
Context `{Backend}.

Lemma attention_inv (self : Attention.t) dec_hidden enc_outputs w a w' :
  Attention.forward self dec_hidden enc_outputs w = OK (a, w') →
  ∃ src_len hu hr hp enc_p comb energy w1 scores3 scores,
    size_first enc_outputs = OK src_len ∧
    unsqueeze 0 (squeeze dec_hidden) = OK hu ∧
    repeat [src_len; 1; 1] hu = OK hr ∧
    permute [1; 0; 2] hr = OK hp ∧
    permute [1; 0; 2] enc_outputs = OK enc_p ∧
    cat 2 hp enc_p = OK comb ∧
    Attention.energy_layer self comb w = OK (energy, w1) ∧
    Attention.v self energy w1 = OK (scores3, w') ∧
    squeeze_dim 2 scores3 = OK scores ∧
    softmax 1 scores = OK a.
Proof.
  unfold Attention.forward. intros Hrun. inv_run Hrun.
  by eexists _, _, _, _, _, _, _, _, _, _.
Qed.

Lemma decoder_run (self : Decoder.t) input_idx hidden enc_outputs w pred hidden' a w' :
  Decoder.forward self input_idx hidden enc_outputs w = OK ((pred, hidden', a), w') →
  ∃ y0 w1 y w2 yu a0 w3 enc_p weighted0 weighted X out w4 out',
    Decoder.embedding_layer self input_idx w = OK (y0, w1) ∧
    Decoder.dropout_layer self y0 w1 = OK (y, w2) ∧
    unsqueeze 0 y = OK yu ∧
    Attention.forward (Decoder.attention self) hidden enc_outputs w2 = OK (a0, w3) ∧
    unsqueeze 1 a0 = OK a ∧
    permute [1; 0; 2] enc_outputs = OK enc_p ∧
    bmm a enc_p = OK weighted0 ∧
    permute [1; 0; 2] weighted0 = OK weighted ∧
    cat 2 yu weighted = OK X ∧
    Decoder.gru self X hidden w3 = OK ((out, hidden'), w4) ∧
    squeeze_dim 0 out = OK out' ∧
    Decoder.linear_layer self out' w4 = OK (pred, w').
Proof.
  unfold Decoder.forward. intros Hrun. inv_run Hrun.
  by eexists _, _, _, _, _, _, _, _, _, _, _, _, _, _.
Qed.

Lemma decoder_inv (self : Decoder.t) input_idx hidden enc_outputs w pred hidden' a w' :
  Decoder.forward self input_idx hidden enc_outputs w = OK ((pred, hidden', a), w') →
  decoder_call self input_idx hidden enc_outputs pred hidden' a w w'.
Proof.
  intros (y0 & w1 & y & w2 & yu & a0 & w3 & enc_p & weighted0 & weighted & X & out & w4 & out'
    & Hrun0 & Hrun1 & Hrun2 & Hrun3 & Hrun4 & Hrun5 & Hrun6 & Hrun7 & Hrun8 & Hrun9
    & Hrun10 & Hrun11)%decoder_run.
  apply permute_102 in Hrun5 as (Ns & B & He & Henc & Hencp & Hencp_at).
  apply bmm_OK in Hrun6 as (B' & n & Ns' & He' & Ha & Hencp' & Hw0 & Hw0_at).
  rewrite Hencp in Hencp'. injection Hencp' as <- <- <-.
  assert (shape a0 = [B; Ns] ∧ n = 1) as [Ha0 ->].
  { revert Hrun4 Ha. unfold unsqueeze, rank.
    destruct (shape a0) as [|x [|z [|]]]; simpl; try done.
    all: intros [= <-]; simpl; try done.
    by intros [= -> -> ->]. }
  destruct (unsqueeze_1 _ _ _ _ Ha0 Hrun4) as [_ Ha_at].
  apply permute_102 in Hrun7 as (B' & n & He' & Hw0' & Hw & Hw_at).
  rewrite Hw0 in Hw0'. injection Hw0' as <- <- <-.
  destruct (unsqueeze_0 _ _ Hrun2) as [Hyu Hyu_at].
  apply (cat_2 _ _ _ _ _ _ ltac:(by rewrite Hyu) Hw) in Hrun8 as (E & Hyu' & HX & HX_at).
  rewrite Hyu in Hyu'. injection Hyu' as Hy.
  pose proof Hrun3 as (? & ? & ? & ? & ? & ? & ? & ? & ? & scores & _ & _ & _ & _ & _ & _
    & _ & _ & _ & Hsoft)%attention_inv.
  exists Ns, B, He, E, y0, w1, y, w2, a0, w3, scores, X, out, w4, out'.
  split_and!; try done.
  intros b j Hb Hj. rewrite HX_at by (done || lia). case_decide; [done|].
  rewrite Hw_at, Hw0_at by lia. apply dot_ext; intros l Hl; [done|].
  apply Hencp_at; lia.
Qed.

(** Every greedy step is a call of the decoder on the state the step
    before it left. *)
Lemma greedy_steps_calls decoder enc_outputs n input_idx hidden w steps w' :
  greedy_steps decoder enc_outputs n input_idx hidden w = OK (steps, w') →
  ∀ i st, steps !! i = Some st →
    ∃ wi hidden' wi',
      decoder (step_input st) (step_hidden st) enc_outputs wi
        = OK ((step_pred st, hidden', step_attention st), wi') ∧
      ∀ st', steps !! (i + 1) = Some st' → step_hidden st' = hidden'.
Proof.
  revert input_idx hidden w steps.
  induction n as [|n IH]; intros input_idx hidden w steps; simpl.
  - by intros [= -> ->]%ret_OK.
  - intros Hrun. inv_run Hrun. rename Hrun0 into Hdec, Hrun2 into Hrest.
    intros [|i] st; simpl.
    + intros [= <-]. simpl. eexists _, _, _. split; [done|].
      intros st' Hst'.
      destruct (greedy_steps_inputs _ _ _ _ _ _ _ _ Hrest) as [Hfirst _].
      by destruct (Hfirst _ Hst') as [_ ->].
    + by eapply IH.
Qed.
End decoder.

(** ** Runs of the training and evaluation functions *)

Section training_lemmas.
Context `{Backend}.

Lemma issue_OK {A} (c : call) (op : M W A) s a s' :
  issue c op s = OK (a, s') ↔
  ∃ w', op (fw s) = OK (a, w') ∧
    s' = {| fw := w'; disk := disk s; calls := calls s ++ [c] |}.
Proof.
  unfold issue. destruct (op (fw s)) as [[a0 w0]|e]; split.
  - intros [= <- <-]. by eexists.
  - by intros (? & [= -> ->] & ->).
  - done.
  - by intros (? & [=] & _).
Qed.


Lemma print_OK (c : call) s r :
  print c s = OK r ↔ r = ((), {| fw := fw s; disk := disk s; calls := calls s ++ [c] |}).
Proof. unfold print. split; [by intros [= <-]|by intros ->]. Qed.

Lemma save_OK by_ obj path s r :
  save by_ obj path s = OK r ↔
  r = ((), {| fw := fw s;
              disk := <[path := {| written_by := by_; content := obj |}]> (disk s);
              calls := calls s ++ [CSave path] |}).
Proof. unfold save. split; [by intros [= <-]|by intros ->]. Qed.

Lemma get_fw_OK s r : get_fw s = OK r ↔ r = (fw s, s).
Proof. unfold get_fw. split; [by intros [= <-]|by intros ->]. Qed.

Lemma load_OK path s p s' : load path s = OK (p, s') → s' = s.
Proof. unfold load. destruct (disk s !! path); [by intros [= _ <-]|done]. Qed.

Lemma issue_fst {A B C} (c : call) (op : M W (A * B)) (k : A → M world C) s :
  ('(a, _) ← issue c op; k a) s = (a ← issue c (r ← op; mret r.1); k a) s.
Proof.
  unfold mbind, M_bind, issue, mret, M_ret. by destruct (op (fw s)) as [[[a b] w']|].
Qed.

End training_lemmas.

(** Inversion of a successful run of a notebook function. *)
Ltac inv_world H :=
  repeat match type of H with
  | (_ ≫= _) _ = OK _ =>
      let a := fresh "a" in let s := fresh "s" in let H1 := fresh "Hrun" in
      apply bind_OK in H as (a & s & H1 & H);
      first [ apply lift_OK in H1 as (? & H1 & [= -> ->])
            | apply issue_OK in H1 as (? & H1 & ->)
            | apply get_fw_OK in H1 as [= -> ->]
            | apply save_OK in H1 as [= -> ->]
            | apply print_OK in H1 as [= -> ->]
            | apply ret_OK in H1 as [= -> ->]
            | idtac ]
  | (let '(_, _) := ?x in _) _ = OK _ => destruct x
  | mret _ _ = OK _ => apply ret_OK in H; simplify_eq
  end.

Section training_runs.
Context `{Backend}.

(** A loop over batches, when every batch is a step that adds its loss:
    the steps follow one another in the state of the framework. *)
Lemma batches_loop (body : batch → F → M world F) (calls_of : batch_run → list call)
    (step : batch_run → W → W → Prop) :
  (∀ b acc s acc' s', body b acc s = OK (acc', s') →
     ∃ r, run_batch r = b ∧ step r (fw s) (fw s') ∧ acc' = py_add acc (run_loss r) ∧
          disk s' = disk s ∧ calls s' = calls s ++ calls_of r) →
  ∀ bs acc s acc' s', for_each bs body acc s = OK (acc', s') →
    ∃ rs, in_sequence step rs (fw s) (fw s') ∧ run_batch <$> rs = bs ∧
      acc' = foldl py_add acc (run_loss <$> rs) ∧ disk s' = disk s ∧
      calls s' = calls s ++ (rs ≫= calls_of).
Proof.
  intros Hbody bs. induction bs as [|b bs IH]; intros acc s acc' s'; simpl.
  - intros [= <- <-]%ret_OK. exists []. split_and!; try done. by rewrite app_nil_r.
  - intros (acc1 & s1 & Hb & Hrest)%bind_OK.
    destruct (Hbody _ _ _ _ _ Hb) as (r & <- & HQ & -> & Hd & Hc).
    destruct (IH _ _ _ _ Hrest) as (rs & HQs & <- & -> & Hd' & Hc').
    exists (r :: rs). split_and!.
    + by exists (fw s1).
    + done.
    + done.
    + congruence.
    + rewrite Hc', Hc. simpl. by rewrite <- app_assoc.
Qed.

Lemma training_seq2seq_batch_inv model loss_fn optimizer device b acc s acc' s' :
  training_seq2seq_batch model loss_fn optimizer device b acc s = OK (acc', s') →
  ∃ r, run_batch r = b ∧ trains_on model loss_fn optimizer device r (fw s) (fw s') ∧
    acc' = py_add acc (run_loss r) ∧ disk s' = disk s ∧
    calls s' = calls s ++ training_calls device r.
Proof.
  unfold training_seq2seq_batch. intros Hrun. inv_world Hrun. simpl in *.
  repeat match goal with u : () |- _ => destruct u end.
  eexists {| run_batch := b |}. unfold trains_on, training_calls. simpl.
  split_and!; [done|by eexists _, _, _, _, _, _, _, _|done|done|by rewrite <- !app_assoc].
Qed.

Lemma evaluate_seq2seq_batch_inv model loss_fn device b acc s acc' s' :
  evaluate_seq2seq_batch model loss_fn device b acc s = OK (acc', s') →
  ∃ r, run_batch r = b ∧ evaluates_on model loss_fn device r (fw s) (fw s') ∧
    acc' = py_add acc (run_loss r) ∧ disk s' = disk s ∧
    calls s' = calls s ++ evaluation_calls device r.
Proof.
  unfold evaluate_seq2seq_batch. intros Hrun. inv_world Hrun. simpl in *.
  eexists {| run_batch := b |}. unfold evaluates_on, evaluation_calls. simpl.
  split_and!; [done|by eexists _, _, _, _|done|done|by rewrite <- !app_assoc].
Qed.

(** A batch of [training_validation_bleu] is a batch of [training_seq2seq]
    on the model that returns the predictions only. *)
Lemma training_validation_bleu_batch_eq model loss_fn optimizer device b acc s :
  training_validation_bleu_batch model loss_fn optimizer device b acc s
  = training_seq2seq_batch (predictions_only model) loss_fn optimizer device b acc s.
Proof.
  unfold training_validation_bleu_batch, training_seq2seq_batch.
  do 4 (apply bind_ext; intros ? ?). apply issue_fst.
Qed.

Lemma training_validation_bleu_batch_inv model loss_fn optimizer device b acc s acc' s' :
  training_validation_bleu_batch model loss_fn optimizer device b acc s = OK (acc', s') →
  ∃ r, run_batch r = b ∧
    trains_on (predictions_only model) loss_fn optimizer device r (fw s) (fw s') ∧
    acc' = py_add acc (run_loss r) ∧ disk s' = disk s ∧
    calls s' = calls s ++ training_calls device r.
Proof.
  rewrite training_validation_bleu_batch_eq. apply training_seq2seq_batch_inv.
Qed.

Lemma training_seq2seq_epoch_inv model dl num_epochs loss_fn optimizer device verbose
    epoch loss_total s loss_total' s' :
  training_seq2seq_epoch model dl num_epochs loss_fn optimizer device verbose epoch
    loss_total s = OK (loss_total', s') →
  ∃ rs, epoch_of (trains_on model loss_fn optimizer device) dl rs (fw s) (fw s') ∧
    loss_total' = loss_total ++ [epoch_loss rs] ∧
    disk s' = <["lstm_model.pt" :=
                 {| written_by := TorchSave;
                    content := PStateDict (state_dict model (fw s')) |}]> (disk s) ∧
    calls s' = calls s ++ epoch_calls device verbose num_epochs ["lstm_model.pt"] epoch rs.
Proof.
  unfold training_seq2seq_epoch. intros Hrun.
  apply bind_OK in Hrun as (bs & s1 & (w1 & Hiter & ->)%issue_OK & Hrun).
  apply bind_OK in Hrun as (acc & s2 & Hloop & Hrun).
  eapply batches_loop in Hloop as (rs & HQ & <- & -> & Hd & Hc);
    [|apply training_seq2seq_batch_inv].
  exists rs. simpl in *. unfold epoch_calls, epoch_loss, epoch_of.
  destruct verbose; inv_world Hrun; simpl; rewrite Hd, Hc; simpl;
    (split_and!; [by eexists|done|done|by rewrite <- !app_assoc]).
Qed.

Lemma training_seq2seq_epochs model dl num_epochs loss_fn optimizer device verbose
    k m loss_total s loss_total' s' :
  for_each (seq k m)
    (training_seq2seq_epoch model dl num_epochs loss_fn optimizer device verbose)
    loss_total s = OK (loss_total', s') →
  ∃ epochs, length epochs = m ∧
    in_sequence (epoch_of (trains_on model loss_fn optimizer device) dl) epochs
      (fw s) (fw s') ∧
    loss_total' = loss_total ++ (epoch_loss <$> epochs) ∧
    (m = 0 → s' = s) ∧
    disk s' = files_after
                (WTraining model dl m loss_fn optimizer device verbose) (fw s') (disk s) ∧
    calls s' = calls s ++
      concat (zip_with (epoch_calls device verbose num_epochs ["lstm_model.pt"])
                       (seq k m) epochs).
Proof.
  revert k loss_total s. induction m as [|m IH]; intros k loss_total s; simpl.
  - intros [= <- <-]%ret_OK. exists []. by rewrite !app_nil_r.
  - intros (lt1 & s1 & Hepoch & Hrest)%bind_OK.
    apply training_seq2seq_epoch_inv in Hepoch as (rs & HQ & -> & Hd & Hc).
    apply IH in Hrest as (epochs & Hlen & HQs & -> & Hs & Hd' & Hc').
    exists (rs :: epochs). split_and!; [| |  |done| |].
    + simpl. by rewrite Hlen.
    + by exists (fw s1).
    + simpl. by rewrite <- app_assoc.
    + rewrite Hd'. simpl. destruct m as [|m]; simpl.
      * by rewrite (Hs eq_refl).
      * by rewrite Hd, insert_insert_eq.
    + rewrite Hc', Hc. simpl. by rewrite <- app_assoc.
Qed.

Lemma training_seq2seq_inv model dl num_epochs loss_fn optimizer device verbose
    s loss_total s' :
  training_seq2seq model dl num_epochs loss_fn optimizer device verbose s
    = OK (loss_total, s') →
  ∃ epochs,
    training_run model dl num_epochs loss_fn optimizer device (fw s) epochs (fw s') ∧
    loss_total = epoch_loss <$> epochs ∧
    disk s' = files_after
                (WTraining model dl num_epochs loss_fn optimizer device verbose)
                (fw s') (disk s) ∧
    calls s' = calls s ++ [CModelTrain; CModelTo device] ++
      concat (zip_with (epoch_calls device verbose num_epochs ["lstm_model.pt"])
                       (seq 0 num_epochs) epochs).
Proof.
  unfold training_seq2seq, range. intros Hrun.
  apply bind_OK in Hrun as ([] & s1 & (w1 & Htrain & ->)%issue_OK & Hrun).
  apply bind_OK in Hrun as ([] & s2 & (w2 & Hto & ->)%issue_OK & Hrun).
  rewrite Nat.sub_0_r in Hrun.
  apply training_seq2seq_epochs in Hrun as (epochs & Hlen & HQs & -> & _ & Hd & Hc).
  exists epochs. simpl in *. split_and!; try done.
  - by exists w1, w2.
  - by rewrite Hc, <- !app_assoc.
Qed.

Lemma training_validation_bleu_epoch_inv model dl num_epochs loss_fn optimizer device
    verbose epoch loss_total s loss_total' s' :
  training_validation_bleu_epoch model dl num_epochs loss_fn optimizer device verbose epoch
    loss_total s = OK (loss_total', s') →
  ∃ rs,
    epoch_of (trains_on (predictions_only model) loss_fn optimizer device) dl rs
      (fw s) (fw s') ∧
    loss_total' = loss_total ++ [epoch_loss rs] ∧
    disk s' = disk s ∧
    calls s' = calls s ++ epoch_calls device verbose num_epochs [] epoch rs.
Proof.
  unfold training_validation_bleu_epoch. intros Hrun.
  apply bind_OK in Hrun as (bs & s1 & (w1 & Hiter & ->)%issue_OK & Hrun).
  apply bind_OK in Hrun as (acc & s2 & Hloop & Hrun).
  eapply batches_loop in Hloop as (rs & HQ & <- & -> & Hd & Hc);
    [|apply training_validation_bleu_batch_inv].
  exists rs. simpl in *. unfold epoch_calls, epoch_loss, epoch_of.
  destruct verbose; inv_world Hrun; simpl; rewrite ?Hd, ?Hc; simpl;
    (split_and!; [by eexists|done|done|by rewrite <- ?app_assoc, ?app_nil_r]).
Qed.

Lemma training_validation_bleu_epochs model dl num_epochs loss_fn optimizer device verbose
    k m loss_total s loss_total' s' :
  for_each (seq k m)
    (training_validation_bleu_epoch model dl num_epochs loss_fn optimizer device verbose)
    loss_total s = OK (loss_total', s') →
  ∃ epochs, length epochs = m ∧
    in_sequence (epoch_of (trains_on (predictions_only model) loss_fn optimizer device) dl)
      epochs (fw s) (fw s') ∧
    loss_total' = loss_total ++ (epoch_loss <$> epochs) ∧
    disk s' = disk s ∧
    calls s' = calls s ++
      concat (zip_with (epoch_calls device verbose num_epochs []) (seq k m) epochs).
Proof.
  revert k loss_total s. induction m as [|m IH]; intros k loss_total s; simpl.
  - intros [= <- <-]%ret_OK. exists []. by rewrite !app_nil_r.
  - intros (lt1 & s1 & Hepoch & Hrest)%bind_OK.
    apply training_validation_bleu_epoch_inv in Hepoch as (rs & HQ & -> & Hd & Hc).
    apply IH in Hrest as (epochs & Hlen & HQs & -> & Hd' & Hc').
    exists (rs :: epochs). split_and!.
    + simpl. by rewrite Hlen.
    + by exists (fw s1).
    + simpl. by rewrite <- app_assoc.
    + by rewrite Hd'.
    + rewrite Hc', Hc. simpl. by rewrite <- app_assoc.
Qed.

Lemma training_validation_bleu_inv model dl num_epochs loss_fn optimizer model_name
    valid_dataloader device verbose s loss_total bleu s' :
  training_validation_bleu model dl num_epochs loss_fn optimizer model_name
    valid_dataloader device verbose s = OK ((loss_total, bleu), s') →
  ∃ epochs,
    training_run (predictions_only model) dl num_epochs loss_fn optimizer device
      (fw s) epochs (fw s') ∧
    loss_total = epoch_loss <$> epochs ∧ bleu = [] ∧
    disk s' = disk s ∧
    calls s' = calls s ++ [CModelTrain; CModelTo device] ++
      concat (zip_with (epoch_calls device verbose num_epochs [])
                       (seq 0 num_epochs) epochs).
Proof.
  unfold training_validation_bleu, range. intros Hrun.
  apply bind_OK in Hrun as ([] & s1 & (w1 & Htrain & ->)%issue_OK & Hrun).
  apply bind_OK in Hrun as ([] & s2 & (w2 & Hto & ->)%issue_OK & Hrun).
  apply bind_OK in Hrun as (lt & s3 & Hloop & [= <- <- <-]%ret_OK).
  rewrite Nat.sub_0_r in Hloop.
  apply training_validation_bleu_epochs in Hloop as (epochs & Hlen & HQs & -> & Hd & Hc).
  exists epochs. simpl in *. split_and!; try done.
  - by exists w1, w2.
  - by rewrite Hc, <- !app_assoc.
Qed.

Lemma evaluate_seq2seq_inv model dl loss_fn device s loss s' :
  evaluate_seq2seq model dl loss_fn device s = OK (loss, s') →
  ∃ rs, evaluation_run model dl loss_fn device (fw s) rs (fw s') ∧
    loss = epoch_loss rs ∧
    disk s' = disk s ∧
    calls s' = calls s ++ [CModelEval; CModelTo device; CIter]
                 ++ (rs ≫= evaluation_calls device).
Proof.
  unfold evaluate_seq2seq. intros Hrun.
  apply bind_OK in Hrun as ([] & s1 & (w1 & Heval & ->)%issue_OK & Hrun).
  apply bind_OK in Hrun as ([] & s2 & (w2 & Hto & ->)%issue_OK & Hrun).
  apply bind_OK in Hrun as (bs & s3 & (w3 & Hiter & ->)%issue_OK & Hloop).
  eapply batches_loop in Hloop as (rs & HQ & <- & -> & Hd & Hc);
    [|apply evaluate_seq2seq_batch_inv].
  exists rs. simpl in *. split_and!; try done.
  - exists w1, w2. split_and!; try done. by exists w3.
  - by rewrite Hc, <- !app_assoc.
Qed.
End training_runs.

(** ** The operands of the loss *)

Section first_position.
Context `{Backend}.

Lemma remove_first_token_inv P T P' T' L B V :
  shape P = [L; B; V] → shape T = [L; B] →
  remove_first_token P T = OK (P', T') →
  positions_from_1 L B V P T P' T'.
Proof.
  unfold remove_first_token, size_last, slice_from, view_rows, view_flat.
  intros HP HT. rewrite HP, HT. simpl.
  case_decide as HV; [|done]. simpl. intros [= <- <-]. destruct HV as [HV _].
  assert ((L - 1) * (B * (V * 1)) / V = (L - 1) * B) as Hrows.
  { replace ((L - 1) * (B * (V * 1))) with ((L - 1) * B * V) by lia. by apply Nat.div_mul. }
  split_and!; simpl.
  - by rewrite Hrows.
  - f_equal. lia.
  - intros t b k Ht Hb Hk. unfold lookup, tensor_lookup. simpl. rewrite HP, Hrows. simpl.
    assert (t * B + b < (L - 1) * B) by nia.
    rewrite !decide_True by lia. simpl. rewrite lookup_drop. f_equal. lia.
  - intros t b Ht Hb. unfold lookup, tensor_lookup. simpl. rewrite HT. simpl.
    assert (t * B + b < (L - 1) * (B * 1)) by nia.
    rewrite !decide_True by lia. simpl. rewrite lookup_drop. f_equal. lia.
Qed.

Lemma drop_same_from_1 {A} (T1 T2 : tensor A) d sh :
  shape T1 = d :: sh → same_from_1 T1 T2 →
  drop (1 * numel sh) (data T1) = drop (1 * numel sh) (data T2).
Proof.
  intros Hsh (Hwf1 & Hwf2 & Heq & Hsame). rewrite Nat.mul_1_l.
  unfold wf in *. rewrite <- Heq, Hsh in Hwf2. rewrite Hsh in Hwf1.
  apply list_eq. intros i. rewrite !lookup_drop.
  destruct (decide (numel sh + i < numel (d :: sh))) as [Hi|Hi].
  - destruct (indices (d :: sh) !! (numel sh + i)) as [idx|] eqn:E.
    + apply offset_indices in E. destruct idx as [|t idx]; [by destruct sh|].
      assert (1 ≤ t) as Ht.
      { simpl in E. case_decide; [|done].
        destruct (offset sh idx) as [o|] eqn:Eo; [|done]. apply offset_lt in Eo.
        injection E as E. destruct t; [lia|lia]. }
      specialize (Hsame t idx Ht). unfold lookup, tensor_lookup in Hsame.
      rewrite <- Heq, Hsh, E in Hsame. done.
    + apply lookup_ge_None in E. rewrite length_indices in E. lia.
  - rewrite !lookup_ge_None_2; [done| |]; lia.
Qed.

(** The operands of the loss are those of any predictions and target with
    the same entries from position 1 on. *)
Lemma remove_first_token_same_from_1 (P1 P2 : tensor F) (T1 T2 : tensor Z) :
  same_from_1 P1 P2 → same_from_1 T1 T2 →
  remove_first_token P1 T1 = remove_first_token P2 T2.
Proof.
  intros HP HT. pose proof HP as (_ & _ & HPs & _). pose proof HT as (_ & _ & HTs & _).
  unfold remove_first_token, size_last, slice_from, view_rows, view_flat.
  rewrite <- HPs, <- HTs.
  destruct (shape P1) as [|d sh] eqn:EP; [by destruct (last _)|].
  rewrite (drop_same_from_1 P1 P2 d sh EP HP).
  destruct (shape T1) as [|d' sh'] eqn:ET; [done|].
  by rewrite (drop_same_from_1 T1 T2 d' sh' ET HT).
Qed.
End first_position.

(** ** The operands of the losses of a run *)

Section operands.
Context `{Backend}.

Lemma loss_operands_app cs1 cs2 :
  loss_operands (cs1 ++ cs2) = loss_operands cs1 ++ loss_operands cs2.
Proof. unfold loss_operands. by rewrite bind_app. Qed.

Lemma loss_operands_training device rs :
  loss_operands (rs ≫= training_calls device) = operands <$> rs.
Proof.
  induction rs as [|r rs IH]; [done|].
  rewrite bind_cons, loss_operands_app, IH. done.
Qed.

Lemma loss_operands_evaluation device rs :
  loss_operands (rs ≫= evaluation_calls device) = operands <$> rs.
Proof.
  induction rs as [|r rs IH]; [done|].
  rewrite bind_cons, loss_operands_app, IH. done.
Qed.

Lemma loss_operands_epoch device verbose num_epochs saved epoch rs :
  loss_operands (epoch_calls device verbose num_epochs saved epoch rs) = operands <$> rs.
Proof.
  unfold epoch_calls. change (CIter :: ?l) with ([CIter] ++ l).
  rewrite !loss_operands_app, loss_operands_training.
  assert (loss_operands (CSave <$> saved) = []) as ->.
  { induction saved as [|p saved IH]; [done|]. by rewrite fmap_cons. }
  destruct verbose; simpl; by rewrite app_nil_r.
Qed.

Lemma loss_operands_epochs device verbose num_epochs saved k epochs :
  loss_operands
    (concat (zip_with (epoch_calls device verbose num_epochs saved)
                      (seq k (length epochs)) epochs))
  = operands <$> concat epochs.
Proof.
  revert k. induction epochs as [|rs epochs IH]; intros k; [done|].
  cbn [length seq zip_with concat].
  by rewrite loss_operands_app, loss_operands_epoch, IH, fmap_app.
Qed.

Lemma remove_first_token_skips (r : batch_run) :
  remove_first_token (run_model_pred r) (run_trg r) = OK (run_loss_pred r, run_loss_trg r) →
  skips_first_position r.
Proof.
  intros Hrm. split.
  - intros L B V HP HT. by eapply remove_first_token_inv.
  - intros P T HP HT. by rewrite <- (remove_first_token_same_from_1 _ _ _ _ HP HT).
Qed.

Lemma trains_on_skips_first_position model loss_fn optimizer device r w w' :
  trains_on model loss_fn optimizer device r w w' → skips_first_position r.
Proof.
  intros (w1 & w2 & w3 & w4 & loss & w5 & w6 & w7 & _ & _ & _ & _ & _ & Hrm & _).
  by apply remove_first_token_skips.
Qed.

Lemma evaluates_on_skips_first_position model loss_fn device r w w' :
  evaluates_on model loss_fn device r w w' → skips_first_position r.
Proof.
  intros (w1 & w2 & w3 & loss & _ & _ & _ & _ & Hrm & _).
  by apply remove_first_token_skips.
Qed.

Lemma in_sequence_Forall {X} (step : X → W → W → Prop) (Q : X → Prop) xs w w' :
  (∀ x w w', step x w w' → Q x) → in_sequence step xs w w' → Forall Q xs.
Proof.
  intros HQ. revert w. induction xs as [|x xs IH]; intros w; simpl; [by constructor|].
  intros (w1 & Hx & Hxs). constructor; [by eapply HQ|by eapply IH].
Qed.

Lemma training_epochs_skip_first_position model dl loss_fn optimizer device epochs w w' :
  in_sequence (epoch_of (trains_on model loss_fn optimizer device) dl) epochs w w' →
  Forall (Forall skips_first_position) epochs.
Proof.
  apply in_sequence_Forall. intros rs w1 w2 (w0 & _ & Hrs).
  eapply in_sequence_Forall; [|done]. intros r ? ?.
  apply trains_on_skips_first_position.
Qed.

(** The operands of the loss are those of any predictions with the same
    entries from position 1 on. *)
Lemma remove_first_token_same_pred (P1 P2 : tensor F) (T : tensor Z) :
  same_from_1 P1 P2 → remove_first_token P1 T = remove_first_token P2 T.
Proof.
  intros HP. pose proof HP as (_ & _ & HPs & _).
  unfold remove_first_token, size_last, slice_from, view_rows, view_flat.
  rewrite <- HPs.
  destruct (shape P1) as [|d sh] eqn:EP; [by destruct (last _)|].
  by rewrite (drop_same_from_1 P1 P2 d sh EP HP).
Qed.

Lemma in_sequence_map {X} (step step' : X → W → W → Prop) (inv : X → X → Prop) xs w w' :
  (∀ x w w', step x w w' → ∃ x', inv x x' ∧ step' x' w w') →
  in_sequence step xs w w' → ∃ xs', Forall2 inv xs xs' ∧ in_sequence step' xs' w w'.
Proof.
  intros Hstep. revert w. induction xs as [|x xs IH]; intros w; simpl.
  - intros ->. exists []. by split; [constructor|].
  - intros (w1 & (x' & Hx & Hx')%Hstep & (xs' & Hxs & Hxs')%IH).
    exists (x' :: xs'). split; [by constructor|]. by exists w1.
Qed.

Lemma trains_on_agree model model' loss_fn optimizer device r w w' :
  agree_from_1 model model' →
  trains_on model loss_fn optimizer device r w w' →
  ∃ r', (run_batch r = run_batch r' ∧ run_loss r = run_loss r') ∧
        trains_on model' loss_fn optimizer device r' w w'.
Proof.
  intros (_ & _ & Hpar & Hcalls)
    (w1 & w2 & w3 & w4 & loss & w5 & w6 & w7 &
     Hsrc & Htrg & Hlen & Hzero & Hcall & Hrm & Hloss & Hback & Hclip & Hstep & Hitem).
  specialize (Hcalls (run_src r) (run_trg_len r) w3). rewrite Hcall in Hcalls.
  destruct (model_call model' (run_src r) (run_trg_len r) w3) as [[P' w4']|e] eqn:Hcall';
    [|done].
  destruct Hcalls as [Hsame ->].
  exists {| run_batch := run_batch r; run_src := run_src r; run_trg := run_trg r;
            run_trg_len := run_trg_len r; run_model_pred := P';
            run_loss_pred := run_loss_pred r; run_loss_trg := run_loss_trg r;
            run_loss := run_loss r |}.
  split; [done|]. exists w1, w2, w3, w4, loss, w5, w6, w7. simpl.
  split_and!; try done.
  - by rewrite <- (remove_first_token_same_pred _ _ _ Hsame).
  - by rewrite Hpar.
Qed.

Lemma Forall2_same_batches_and_losses (rs rs' : list batch_run) :
  Forall2 (λ r r', run_batch r = run_batch r' ∧ run_loss r = run_loss r') rs rs' →
  run_batch <$> rs = run_batch <$> rs' ∧ epoch_loss rs = epoch_loss rs'.
Proof.
  intros Hrs. unfold epoch_loss.
  assert (run_batch <$> rs = run_batch <$> rs' ∧ run_loss <$> rs = run_loss <$> rs')
    as [-> ->]; [|done].
  induction Hrs as [|r r' rs rs' [Hb Hl] _ [IHb IHl]]; [done|].
  rewrite !fmap_cons. by rewrite Hb, Hl, IHb, IHl.
Qed.

Lemma training_run_agree model model' dl num_epochs loss_fn optimizer device w epochs w' :
  agree_from_1 model model' →
  training_run model dl num_epochs loss_fn optimizer device w epochs w' →
  ∃ epochs',
    training_run model' dl num_epochs loss_fn optimizer device w epochs' w' ∧
    epoch_loss <$> epochs = epoch_loss <$> epochs'.
Proof.
  intros Hagree (w1 & w2 & Htrain & Hto & Hlen & Hseq).
  eapply (in_sequence_map _
            (epoch_of (trains_on model' loss_fn optimizer device) dl)
            (λ rs rs', epoch_loss rs = epoch_loss rs')) in Hseq
    as (epochs' & Hsame & Hseq').
  - exists epochs'. split.
    + destruct Hagree as (Ht & Hm & _). exists w1, w2. rewrite Ht, Hm.
      split_and!; try done. by rewrite <- (Forall2_length _ _ _ Hsame).
    + clear -Hsame. induction Hsame as [|rs rs' eps eps' Hl _ IH]; [done|].
      rewrite !fmap_cons. by rewrite Hl, IH.
  - intros rs w3 w4 (w0 & Hdl & Hrs).
    eapply in_sequence_map in Hrs as (rs' & Hsame & Hrs');
      [|intros r ? ?; by apply trains_on_agree].
    apply Forall2_same_batches_and_losses in Hsame as [Hb Hl].
    exists rs'. split; [done|]. exists w0. by rewrite <- Hb.
Qed.

End operands.

(** ** Files *)

Section files.
Context `{Backend}.

Lemma evaluate_bleu_disk model dl bleu_score device s x s' :
  evaluate_bleu model dl bleu_score device s = OK (x, s') → disk s' = disk s.
Proof.
  unfold evaluate_bleu. intros Hrun.
  apply bind_OK in Hrun as ([] & s1 & (w1 & _ & ->)%issue_OK & Hrun).
  apply bind_OK in Hrun as ([] & s2 & (w2 & _ & ->)%issue_OK & Hrun).
  apply bind_OK in Hrun as (bs & s3 & (w3 & _ & ->)%issue_OK & Hrun).
  apply bind_OK in Hrun as ([] & s4 & Hloop & (w4 & _ & ->)%issue_OK).
  simpl. eapply (for_each_inv (λ _ s0, disk s0 = disk s)) in Hloop; [done| |done].
  clear. intros b [] s0 [] s1 _ Hd Hrun. inv_world Hrun. done.
Qed.
End files.

(** ** The first input of the decoder, read in a vocabulary *)



(** ** Runs and failures, from the operations of the framework *)

(** The next operation of a run that returns, and the one that raises. *)
Ltac run_next :=
  apply bind_OK; eexists _, _;
  split; [first [ apply issue_OK; eexists; split; [eassumption|reflexivity]
                | apply lift_OK; eexists; split; [eassumption|reflexivity] ]|];
  simpl.



Section sequences.
Context `{Backend}.

(** A loop whose turns are steps of the framework is these steps, one
    after the other. *)
Lemma for_each_sequence {X R St} (body : X → St → M world St) (rel : R → X → Prop)
    (step : R → W → W → Prop) (upd : St → R → St) :
  (∀ x st s st' w',
     (∃ s', body x st s = OK (st', s') ∧ fw s' = w') ↔
     (∃ r, rel r x ∧ step r (fw s) w' ∧ st' = upd st r)) →
  ∀ xs st s st' w',
    (∃ s', for_each xs body st s = OK (st', s') ∧ fw s' = w') ↔
    (∃ rs, Forall2 rel rs xs ∧ in_sequence step rs (fw s) w' ∧ st' = foldl upd st rs).
Proof.
  intros Hbody xs. induction xs as [|x xs IH]; intros st s st' w'; simpl.
  - split.
    + intros (s' & [= <- <-]%ret_OK & <-). exists []. by split_and!; [constructor|..].
    + intros (rs & Hrel & Hseq & ->). apply Forall2_nil_inv_r in Hrel as ->.
      simpl in *. subst. exists s. by split; [apply ret_OK|].
  - split.
    + intros (s' & (st1 & s1 & Hb & Hrest)%bind_OK & <-).
      destruct (proj1 (Hbody x st s st1 (fw s1))) as (r & Hr & Hstep & ->);
        [by exists s1|].
      destruct (proj1 (IH (upd st r) s1 st' (fw s'))) as (rs & Hrs & Hseq & ->);
        [by exists s'|].
      exists (r :: rs). split_and!; [by constructor|by exists (fw s1)|done].
    + intros (rs & Hrel & Hseq & ->).
      apply Forall2_cons_inv_r in Hrel as (r & rs' & Hr & Hrs & ->). simpl in Hseq.
      destruct Hseq as (w1 & Hstep & Hseq).
      destruct (proj2 (Hbody x st s (upd st r) w1)) as (s1 & Hb & <-); [by exists r|].
      destruct (proj2 (IH (upd st r) s1 (foldl upd (upd st r) rs') w'))
        as (s' & Hrest & <-); [by exists rs'|].
      exists s'. split; [|done]. apply bind_OK. by exists (upd st r), s1.
Qed.


Lemma Forall2_run_batch (rs : list batch_run) (bs : list batch) :
  Forall2 (λ r b, run_batch r = b) rs bs ↔ run_batch <$> rs = bs.
Proof.
  revert bs. induction rs as [|r rs IH]; intros bs; split.
  - by intros ->%Forall2_nil_inv_l.
  - intros <-. constructor.
  - intros (b & bs' & <- & Hrs%IH & ->)%Forall2_cons_inv_l. by rewrite fmap_cons, Hrs.
  - intros <-. rewrite fmap_cons. constructor; [done|by apply IH].
Qed.

Lemma Forall2_any {A B} (l : list A) (k : list B) :
  Forall2 (λ _ _, True) l k ↔ length l = length k.
Proof.
  split; [apply Forall2_length|]. by apply Forall2_true.
Qed.

Lemma foldl_batch_losses (acc : F) (rs : list batch_run) :
  foldl (λ acc r, py_add acc (run_loss r)) acc rs = foldl py_add acc (run_loss <$> rs).
Proof. revert acc. induction rs as [|r rs IH]; intros acc; [done|]. simpl. apply IH. Qed.

Lemma foldl_epoch_losses (loss_total : list F) (epochs : list (list batch_run)) :
  foldl (λ lt rs, lt ++ [epoch_loss rs]) loss_total epochs
  = loss_total ++ (epoch_loss <$> epochs).
Proof.
  revert loss_total. induction epochs as [|rs epochs IH]; intros lt; simpl.
  - by rewrite app_nil_r.
  - by rewrite IH, <- app_assoc.
Qed.

(** *** The statements before the loss *)


(** *** A batch *)

Lemma training_seq2seq_batch_runs model loss_fn optimizer device b acc s acc' w' :
  (∃ s', training_seq2seq_batch model loss_fn optimizer device b acc s = OK (acc', s') ∧
         fw s' = w') ↔
  (∃ r, run_batch r = b ∧ trains_on model loss_fn optimizer device r (fw s) w' ∧
        acc' = py_add acc (run_loss r)).
Proof.
  split.
  - intros (s' & (r & Hb & Hr & Hacc & _)%training_seq2seq_batch_inv & <-). by exists r.
  - intros (r & <- & Hr & ->).
    destruct Hr as (w1 & w2 & w3 & w4 & loss & w5 & w6 & w7 &
                    Hsrc & Htrg & Hlen & Hzero & Hcall & Hrm & Hloss & Hback & Hclip &
                    Hstep & Hitem).
    eexists. split.
    + unfold training_seq2seq_batch. repeat run_next. by apply ret_OK.
    + done.
Qed.


Lemma evaluate_seq2seq_batch_runs model loss_fn device b acc s acc' w' :
  (∃ s', evaluate_seq2seq_batch model loss_fn device b acc s = OK (acc', s') ∧
         fw s' = w') ↔
  (∃ r, run_batch r = b ∧ evaluates_on model loss_fn device r (fw s) w' ∧
        acc' = py_add acc (run_loss r)).
Proof.
  split.
  - intros (s' & (r & Hb & Hr & Hacc & _)%evaluate_seq2seq_batch_inv & <-). by exists r.
  - intros (r & <- & Hr & ->).
    destruct Hr as (w1 & w2 & w3 & loss & Hsrc & Htrg & Hlen & Hcall & Hrm & Hloss & Hitem).
    eexists. split.
    + unfold evaluate_seq2seq_batch. repeat run_next. by apply ret_OK.
    + done.
Qed.

(** *** An epoch *)

Lemma training_seq2seq_epoch_runs model dl num_epochs loss_fn optimizer device verbose
    epoch loss_total s loss_total' w' :
  (∃ s', training_seq2seq_epoch model dl num_epochs loss_fn optimizer device verbose epoch
           loss_total s = OK (loss_total', s') ∧ fw s' = w') ↔
  (∃ rs, epoch_of (trains_on model loss_fn optimizer device) dl rs (fw s) w' ∧
         loss_total' = loss_total ++ [epoch_loss rs]).
Proof.
  split.
  - intros (s' & (rs & Hrs & Hlt & _)%training_seq2seq_epoch_inv & <-). by exists rs.
  - intros (rs & (w0 & Hdl & Hseq) & ->).
    pose (s1 := {| fw := w0; disk := disk s; calls := calls s ++ [CIter] |}).
    destruct (proj2 (for_each_sequence _ _ _ _
                (training_seq2seq_batch_runs model loss_fn optimizer device)
                (run_batch <$> rs) F0 s1 (epoch_loss rs) w'))
      as (s2 & Hloop & <-).
    { exists rs. split_and!; [by apply Forall2_run_batch|done|].
      unfold epoch_loss. by rewrite foldl_batch_losses. }
    unfold training_seq2seq_epoch. destruct verbose.
    + eexists. split; [|shelve].
      apply bind_OK. eexists _, _.
      split; [apply issue_OK; eexists; split; [eassumption|reflexivity]|].
      apply bind_OK. eexists _, _. split; [exact Hloop|]. reflexivity.
      Unshelve. done.
    + eexists. split; [|shelve].
      apply bind_OK. eexists _, _.
      split; [apply issue_OK; eexists; split; [eassumption|reflexivity]|].
      apply bind_OK. eexists _, _. split; [exact Hloop|]. reflexivity.
      Unshelve. done.
Qed.


Lemma training_validation_bleu_batch_runs model loss_fn optimizer device b acc s acc' w' :
  (∃ s', training_validation_bleu_batch model loss_fn optimizer device b acc s
           = OK (acc', s') ∧ fw s' = w') ↔
  (∃ r, run_batch r = b ∧
        trains_on (predictions_only model) loss_fn optimizer device r (fw s) w' ∧
        acc' = py_add acc (run_loss r)).
Proof.
  rewrite <- training_seq2seq_batch_runs.
  by setoid_rewrite training_validation_bleu_batch_eq.
Qed.

Lemma training_validation_bleu_epoch_runs model dl num_epochs loss_fn optimizer device
    verbose epoch loss_total s loss_total' w' :
  (∃ s', training_validation_bleu_epoch model dl num_epochs loss_fn optimizer device verbose
           epoch loss_total s = OK (loss_total', s') ∧ fw s' = w') ↔
  (∃ rs, epoch_of (trains_on (predictions_only model) loss_fn optimizer device) dl rs
           (fw s) w' ∧
         loss_total' = loss_total ++ [epoch_loss rs]).
Proof.
  split.
  - intros (s' & (rs & Hrs & Hlt & _)%training_validation_bleu_epoch_inv & <-).
    by exists rs.
  - intros (rs & (w0 & Hdl & Hseq) & ->).
    pose (s1 := {| fw := w0; disk := disk s; calls := calls s ++ [CIter] |}).
    destruct (proj2 (for_each_sequence _ _ _ _
                (training_validation_bleu_batch_runs model loss_fn optimizer device)
                (run_batch <$> rs) F0 s1 (epoch_loss rs) w'))
      as (s2 & Hloop & <-).
    { exists rs. split_and!; [by apply Forall2_run_batch|done|].
      unfold epoch_loss. by rewrite foldl_batch_losses. }
    unfold training_validation_bleu_epoch. destruct verbose.
    + eexists. split; [|shelve].
      apply bind_OK. eexists _, _.
      split; [apply issue_OK; eexists; split; [eassumption|reflexivity]|].
      apply bind_OK. eexists _, _. split; [exact Hloop|]. reflexivity.
      Unshelve. done.
    + eexists. split; [|shelve].
      apply bind_OK. eexists _, _.
      split; [apply issue_OK; eexists; split; [eassumption|reflexivity]|].
      apply bind_OK. eexists _, _. split; [exact Hloop|]. reflexivity.
      Unshelve. done.
Qed.

(** *** The functions *)

Lemma training_seq2seq_epoch_step model dl num_epochs loss_fn optimizer device verbose
    (epoch : nat) loss_total s loss_total' w' :
  (∃ s', training_seq2seq_epoch model dl num_epochs loss_fn optimizer device verbose epoch
           loss_total s = OK (loss_total', s') ∧ fw s' = w') ↔
  (∃ rs, True ∧ epoch_of (trains_on model loss_fn optimizer device) dl rs (fw s) w' ∧
         loss_total' = loss_total ++ [epoch_loss rs]).
Proof.
  rewrite training_seq2seq_epoch_runs.
  split; [intros (rs & ? & ?)|intros (rs & _ & ? & ?)]; by exists rs.
Qed.

Lemma training_validation_bleu_epoch_step model dl num_epochs loss_fn optimizer device
    verbose (epoch : nat) loss_total s loss_total' w' :
  (∃ s', training_validation_bleu_epoch model dl num_epochs loss_fn optimizer device verbose
           epoch loss_total s = OK (loss_total', s') ∧ fw s' = w') ↔
  (∃ rs, True ∧
         epoch_of (trains_on (predictions_only model) loss_fn optimizer device) dl rs
           (fw s) w' ∧
         loss_total' = loss_total ++ [epoch_loss rs]).
Proof.
  rewrite training_validation_bleu_epoch_runs.
  split; [intros (rs & ? & ?)|intros (rs & _ & ? & ?)]; by exists rs.
Qed.

Lemma training_seq2seq_runs model dl num_epochs loss_fn optimizer device verbose s
    loss_total w' :
  (∃ s', training_seq2seq model dl num_epochs loss_fn optimizer device verbose s
           = OK (loss_total, s') ∧ fw s' = w') ↔
  (∃ epochs, training_run model dl num_epochs loss_fn optimizer device (fw s) epochs w' ∧
             loss_total = epoch_loss <$> epochs).
Proof.
  split.
  - intros (s' & (epochs & Hrun & Hlt & _)%training_seq2seq_inv & <-). by exists epochs.
  - intros (epochs & (w1 & w2 & Htrain & Hto & Hlen & Hseq) & ->).
    pose (s2 := {| fw := w2; disk := disk s;
                   calls := (calls s ++ [CModelTrain]) ++ [CModelTo device] |}).
    destruct (proj2 (for_each_sequence _ _ _ _
                (training_seq2seq_epoch_step model dl num_epochs loss_fn optimizer device
                   verbose)
                (range 0 num_epochs) [] s2 (epoch_loss <$> epochs) w'))
      as (s3 & Hloop & <-).
    { exists epochs. split_and!; [|done|by rewrite foldl_epoch_losses].
      apply Forall2_any. unfold range. by rewrite length_seq, Nat.sub_0_r. }
    exists s3. split; [|done]. unfold training_seq2seq.
    apply bind_OK. eexists _, _.
    split; [apply issue_OK; eexists; split; [eassumption|reflexivity]|].
    apply bind_OK. eexists _, _.
    split; [apply issue_OK; eexists; split; [eassumption|reflexivity]|]. exact Hloop.
Qed.

Lemma training_validation_bleu_runs model dl num_epochs loss_fn optimizer model_name
    valid_dataloader device verbose s loss_total bleu w' :
  (∃ s', training_validation_bleu model dl num_epochs loss_fn optimizer model_name
           valid_dataloader device verbose s = OK ((loss_total, bleu), s') ∧ fw s' = w') ↔
  (∃ epochs,
     training_run (predictions_only model) dl num_epochs loss_fn optimizer device
       (fw s) epochs w' ∧
     loss_total = epoch_loss <$> epochs ∧ bleu = []).
Proof.
  split.
  - intros (s' & (epochs & Hrun & Hlt & Hbleu & _)%training_validation_bleu_inv & <-).
    by exists epochs.
  - intros (epochs & (w1 & w2 & Htrain & Hto & Hlen & Hseq) & -> & ->).
    pose (s2 := {| fw := w2; disk := disk s;
                   calls := (calls s ++ [CModelTrain]) ++ [CModelTo device] |}).
    destruct (proj2 (for_each_sequence _ _ _ _
                (training_validation_bleu_epoch_step model dl num_epochs loss_fn optimizer
                   device verbose)
                (range 0 num_epochs) [] s2 (epoch_loss <$> epochs) w'))
      as (s3 & Hloop & <-).
    { exists epochs. split_and!; [|done|by rewrite foldl_epoch_losses].
      apply Forall2_any. unfold range. by rewrite length_seq, Nat.sub_0_r. }
    exists s3. split; [|done]. unfold training_validation_bleu.
    apply bind_OK. eexists _, _.
    split; [apply issue_OK; eexists; split; [eassumption|reflexivity]|].
    apply bind_OK. eexists _, _.
    split; [apply issue_OK; eexists; split; [eassumption|reflexivity]|].
    apply bind_OK. eexists _, _. split; [exact Hloop|]. by apply ret_OK.
Qed.



(** *** The evaluations *)

Lemma evaluate_seq2seq_runs model dl loss_fn device s loss w' :
  (∃ s', evaluate_seq2seq model dl loss_fn device s = OK (loss, s') ∧ fw s' = w') ↔
  (∃ rs, evaluation_run model dl loss_fn device (fw s) rs w' ∧ loss = epoch_loss rs).
Proof.
  split.
  - intros (s' & (rs & Hrun & Hl & _)%evaluate_seq2seq_inv & <-). by exists rs.
  - intros (rs & (w1 & w2 & Heval & Hto & w0 & Hdl & Hseq) & ->).
    pose (s3 := {| fw := w0; disk := disk s;
                   calls := ((calls s ++ [CModelEval]) ++ [CModelTo device]) ++ [CIter] |}).
    destruct (proj2 (for_each_sequence _ _ _ _
                (evaluate_seq2seq_batch_runs model loss_fn device)
                (run_batch <$> rs) F0 s3 (epoch_loss rs) w'))
      as (s4 & Hloop & <-).
    { exists rs. split_and!; [by apply Forall2_run_batch|done|].
      unfold epoch_loss. by rewrite foldl_batch_losses. }
    exists s4. split; [|done]. unfold evaluate_seq2seq.
    do 3 (apply bind_OK; eexists _, _;
          split; [apply issue_OK; eexists; split; [eassumption|reflexivity]|]).
    exact Hloop.
Qed.

Lemma evaluate_bleu_batch_runs (model : Module (tensor F * tensor F)) (device : string)
    b (u : ()) s (u' : ()) w' :
  (∃ s', (src ← issue (CTo device) (to_device device (batch_src b));
          trg ← issue (CTo device) (to_device device (batch_trg b));
          trg_len ← lift (size_first trg);
          '(pred_probas, _) ← issue (CForward src trg_len) (model_call model src trg_len);
          trg_pred ← lift (argmax_last pred_probas);
          mret ()) s = OK (u', s') ∧ fw s' = w') ↔
  (∃ b', b' = b ∧ predicts_on model device b' (fw s) w' ∧ u' = ()).
Proof.
  split.
  - intros (s' & Hrun & <-). inv_world Hrun. simpl in *. exists b.
    split_and!; [done| |done].
    by eexists _, _, _, _, _, _, _, _.
  - intros (? & -> & Hr & ->).
    destruct Hr as (src & w1 & trg & w2 & trg_len & P & a & trg_pred &
                    Hsrc & Htrg & Hlen & Hcall & Hmax).
    eexists. split; [|shelve]. repeat run_next. by apply ret_OK.
    Unshelve. done.
Qed.


Lemma Forall2_eq_iff {A} (l k : list A) : Forall2 (λ x y, x = y) l k ↔ l = k.
Proof.
  revert k. induction l as [|a l IH]; intros k; split.
  - by intros ->%Forall2_nil_inv_l.
  - intros <-. constructor.
  - intros (b & k' & <- & ->%IH & ->)%Forall2_cons_inv_l. done.
  - intros <-. constructor; [done|by apply IH].
Qed.

Lemma evaluate_bleu_runs model dl bleu_score device s score w' :
  (∃ s', evaluate_bleu model dl bleu_score device s = OK (score, s') ∧ fw s' = w') ↔
  (∃ bs, bleu_run model dl bleu_score device (fw s) bs score w').
Proof.
  unfold evaluate_bleu, bleu_run. split.
  - intros (s' & Hrun & <-).
    apply bind_OK in Hrun as ([] & s1 & (w1 & Heval & ->)%issue_OK & Hrun).
    apply bind_OK in Hrun as ([] & s2 & (w2 & Hto & ->)%issue_OK & Hrun).
    apply bind_OK in Hrun as (bs & s3 & (w3 & Hdl & ->)%issue_OK & Hrun).
    apply bind_OK in Hrun as ([] & s4 & Hloop & (w4 & Hscore & ->)%issue_OK).
    simpl in *.
    match type of Hloop with
    | for_each _ _ _ ?s3 = _ =>
        destruct (proj1 (for_each_sequence _ _ _ (λ _ _, ())
                    (evaluate_bleu_batch_runs model device) bs () s3 () (fw s4)))
          as (bs' & ->%Forall2_eq_iff & Hseq & _); [by exists s4|]
    end.
    exists bs, w1, w2, w3, (fw s4). by split_and!.
  - intros (bs & w1 & w2 & w3 & w4 & Heval & Hto & Hdl & Hseq & Hscore).
    pose (s3 := {| fw := w3; disk := disk s;
                   calls := ((calls s ++ [CModelEval]) ++ [CModelTo device]) ++ [CIter] |}).
    destruct (proj2 (for_each_sequence _ _ _ (λ _ _, ())
                (evaluate_bleu_batch_runs model device) bs () s3 () w4))
      as (s4 & Hloop & <-).
    { exists bs. split_and!; [by apply Forall2_eq_iff|done|].
      by destruct (foldl _ _ _). }
    eexists. split; [|shelve].
    do 3 (apply bind_OK; eexists _, _;
          split; [apply issue_OK; eexists; split; [eassumption|reflexivity]|]).
    apply bind_OK. eexists _, _. split; [exact Hloop|].
    apply issue_OK. eexists. split; [eassumption|reflexivity].
    Unshelve. done.
Qed.

End sequences.

(** ** The claims on the forward pass *)

Section forward_claims.
Context `{Backend}.
Implicit Types (self : Seq2Seq.t) (src : tensor Z).

(** C8: in the predictions that [forward] returns, position 0 holds, for
    every sentence of the batch, a one at index 2 of the vocabulary and a
    zero at every other index, whatever the source, the model and the state
    of the framework. *)
Theorem forward_first_position self src trg_len w P attn w' :
  Seq2Seq.forward self src trg_len w = OK ((P, attn), w') →
  ∃ batch_size, size_last src = OK batch_size ∧
    1 ≤ trg_len ∧
    shape P = [trg_len; batch_size; Seq2Seq.trg_vocab_size self] ∧
    ∀ b k, b < batch_size → k < Seq2Seq.trg_vocab_size self →
      P !! [0; b; k] = Some (if decide (k = 2) then F1 else F0).
Proof.
  intros (B & Ns & P0 & enc & ctx & w0 & h & idx & HB & HP0 & HS & Henc & Hloop)%forward_inv.
  exists B. split; [done|].
  apply first_write_inv in HP0 as (HL & _ & Hsh & H0). split; [lia|].
  apply (for_each_inv (λ st _,
    shape st.1.1.1 = [trg_len; B; Seq2Seq.trg_vocab_size self] ∧
    ∀ b k, b < B → k < Seq2Seq.trg_vocab_size self →
      st.1.1.1 !! [0; b; k] = Some (if decide (k = 2) then F1 else F0)))
    in Hloop; [done| |done].
  clear. intros t [[[P h] i] a] w [[[P' h'] i'] a'] w' [Ht _]%elem_of_range [Hsh HP].
  intros (p & a0 & _ & Hset & _)%step_inv. simpl in *. split.
  - by rewrite (setitem_shape _ _ _ _ Hset).
  - intros b k Hb Hk. eapply setitem_lookup_other; [done| |by apply HP].
    simpl. by rewrite decide_False by lia.
Qed.

(** C1: a run of [forward] that returns is a run of greedy decoding: the
    encoder is applied to the source, then the decoder once for each step
    from 1 to [trg_len - 1], in this order and on the states they leave; the
    first step takes the index 2 for every sentence and the encoder's final
    state, every further step the highest-scoring indices of the prediction
    before it; and position [t] of the predictions holds the prediction of
    step [t] (itself, when it has the shape of a batch of predictions). *)
Theorem forward_greedy self src trg_len w P attn w' :
  Seq2Seq.forward self src trg_len w = OK ((P, attn), w') →
  ∃ batch_size enc_outputs steps,
    size_last src = OK batch_size ∧
    greedy_decoding self src trg_len w = OK ((enc_outputs, steps), w') ∧
    length steps = trg_len - 1 ∧
    (∀ st, steps !! 0 = Some st → step_input st = full [batch_size] 2%Z) ∧
    (∀ i st st', steps !! i = Some st → steps !! (i + 1) = Some st' →
       argmax_last (step_pred st) = OK (step_input st')) ∧
    (∀ i st, steps !! i = Some st →
       ∃ pred', broadcast (step_pred st) [batch_size; Seq2Seq.trg_vocab_size self] = OK pred' ∧
         (∀ b k, b < batch_size → k < Seq2Seq.trg_vocab_size self →
            P !! [1 + i; b; k] = pred' !! [b; k]) ∧
         (shape (step_pred st) = [batch_size; Seq2Seq.trg_vocab_size self] →
          ∀ b k, b < batch_size → k < Seq2Seq.trg_vocab_size self →
            P !! [1 + i; b; k] = Some (step_pred st !!! [b; k]))).
Proof.
  intros (B & Ns & P0 & enc & ctx & w0 & h & idx & HB & HP0 & HS & Henc & Hloop)%forward_inv.
  apply first_write_inv in HP0 as (HL & _ & Hsh & _).
  eapply decoding_loop in Hloop as (steps & Hsteps & Hlen & _ & _ & _ & Hpos);
    [|done|by apply wf_full || done].
  destruct (greedy_steps_inputs _ _ _ _ _ _ _ _ Hsteps) as [Hfirst Hnext].
  exists B, enc, steps. split_and!; try done.
  - unfold greedy_decoding. apply bind_OK. eexists _, _. split; [by apply lift_OK; eexists|].
    apply bind_OK. eexists _, _. split; [done|]. simpl.
    apply bind_OK. eexists _, _. split; [done|]. by apply ret_OK.
  - intros st Hst. by destruct (Hfirst _ Hst).
  - intros i st Hst. destruct (Hpos _ _ Hst) as (pred' & a' & Hb & _ & Hw & _).
    exists pred'. split_and!; try done.
    intros Hshape b k Hb' Hk. rewrite Hw by done. rewrite <- Hshape in Hb.
    rewrite (broadcast_lookup _ _ _ [b; k] Hb)
      by (rewrite Hshape; in_range).
    f_equal. apply (broadcast_same _ _ Hb). rewrite Hshape. in_range.
Qed.
(** X1: [forward] returns predictions for every target position when the
    encoder and the greedy steps return, the vocabulary has an index 2, the
    predictions and attentions of the steps have the shapes of a batch, and
    the source has not one token for several sentences. *)
Theorem forward_returns (self : Seq2Seq.t) src trg_len w Ns B enc_outputs steps w' :
  shape src = [Ns; B] → 1 ≤ trg_len → 2 < Seq2Seq.trg_vocab_size self →
  Ns ≠ 1 ∨ B = 1 →
  greedy_decoding self src trg_len w = OK ((enc_outputs, steps), w') →
  Forall (λ st, shape (step_pred st) = [B; Seq2Seq.trg_vocab_size self] ∧
                shape (step_attention st) = [B; 1; Ns]) steps →
  ∃ P attn,
    Seq2Seq.forward self src trg_len w = OK ((P, attn), w') ∧
    shape P = [trg_len; B; Seq2Seq.trg_vocab_size self] ∧
    shape attn = [B; Ns; trg_len].
Proof.
  intros Hsrc HL HV Hfit Hrun Hshapes. unfold greedy_decoding in Hrun.
  apply bind_OK in Hrun as (B' & w0 & (? & HB & [= <- <-])%lift_OK & Hrun).
  unfold size_last in HB. rewrite Hsrc in HB. simpl in HB. injection HB as <-.
  apply bind_OK in Hrun as ([eo ctx] & w1 & Henc & Hrun). simpl in Hrun.
  apply bind_OK in Hrun as (steps' & w2 & Hsteps & [= <- <- <-]%ret_OK).
  destruct (setitem_returns [Idx 0; All; Idx 2]
              (zeros [trg_len; B; Seq2Seq.trg_vocab_size self]) (scalar F1) [B])
    as (P0 & HP0 & HsP0).
  { simpl. rewrite !decide_True by lia. done. }
  { rewrite broadcast_scalar. by eexists. }
  simpl in HsP0.
  destruct (decoding_loop_returns self enc_outputs trg_len B Ns _ (trg_len - 1) 1 P0 ctx
              (Seq2Seq.sos_input B) (zeros [B; Ns; trg_len]) _ _ _
              HsP0 eq_refl ltac:(lia) Hfit Hsteps Hshapes)
    as (P & h' & i' & attn & Hloop & HP & HA).
  exists P, attn. split_and!; try done.
  unfold Seq2Seq.forward.
  apply bind_OK. eexists _, _. split; [apply lift_OK; eexists; split; [|done]|].
  { unfold size_last. by rewrite Hsrc. }
  apply bind_OK. eexists _, _. split; [by apply lift_OK; eexists|].
  apply bind_OK. eexists _, _. split; [apply lift_OK; eexists; split; [|done]|].
  { unfold size_first. by rewrite Hsrc. }
  apply bind_OK. eexists _, _. split; [done|]. simpl.
  apply bind_OK. eexists _, _. split; [done|]. by apply ret_OK.
Qed.
End forward_claims.

(** A run of [forward] on two sentences of two tokens, for three positions. *)
Lemma forward_first_position_witness :
  ∃ P attn w',
    Seq2Seq.forward Toy.model Toy.src_2_2 3 0 = OK ((P, attn), w') ∧
    ∃ batch_size, size_last Toy.src_2_2 = OK batch_size ∧
      1 ≤ 3 ∧
      shape P = [3; batch_size; Seq2Seq.trg_vocab_size Toy.model] ∧
      ∀ b k, b < batch_size → k < Seq2Seq.trg_vocab_size Toy.model →
        P !! [0; b; k] = Some (if decide (k = 2) then F1 else F0).
Proof.
  eexists _, _, _. split; [vm_compute; reflexivity|].
  eapply (forward_first_position (H := Toy.backend) Toy.model Toy.src_2_2 3 0).
  vm_compute. reflexivity.
Defined.

Lemma forward_greedy_witness :
  ∃ P attn w',
    Seq2Seq.forward Toy.model Toy.src_2_2 3 0 = OK ((P, attn), w') ∧
    ∃ batch_size enc_outputs steps,
      size_last Toy.src_2_2 = OK batch_size ∧
      greedy_decoding Toy.model Toy.src_2_2 3 0 = OK ((enc_outputs, steps), w') ∧
      length steps = 3 - 1 ∧
      (∀ st, steps !! 0 = Some st → step_input st = full [batch_size] 2%Z) ∧
      (∀ i st st', steps !! i = Some st → steps !! (i + 1) = Some st' →
         argmax_last (step_pred st) = OK (step_input st')) ∧
      (∀ i st, steps !! i = Some st →
         ∃ pred',
           broadcast (step_pred st) [batch_size; Seq2Seq.trg_vocab_size Toy.model] = OK pred' ∧
           (∀ b k, b < batch_size → k < Seq2Seq.trg_vocab_size Toy.model →
              P !! [1 + i; b; k] = pred' !! [b; k]) ∧
           (shape (step_pred st) = [batch_size; Seq2Seq.trg_vocab_size Toy.model] →
            ∀ b k, b < batch_size → k < Seq2Seq.trg_vocab_size Toy.model →
              P !! [1 + i; b; k] = Some (step_pred st !!! [b; k]))).
Proof.
  eexists _, _, _. split; [vm_compute; reflexivity|].
  eapply (forward_greedy (H := Toy.backend) Toy.model Toy.src_2_2 3 0).
  vm_compute. reflexivity.
Defined.

Lemma forward_returns_witness :
  ∃ P attn w',
    Seq2Seq.forward Toy.model Toy.src_2_2 3 0 = OK ((P, attn), w') ∧
    shape P = [3; 2; Seq2Seq.trg_vocab_size Toy.model] ∧ shape attn = [2; 2; 3].
Proof.
  assert (∃ enc_outputs steps w',
    greedy_decoding Toy.model Toy.src_2_2 3 0 = OK ((enc_outputs, steps), w') ∧
    Forall (λ st, shape (step_pred st) = [2; Seq2Seq.trg_vocab_size Toy.model] ∧
                  shape (step_attention st) = [2; 1; 2]) steps)
    as (enc_outputs & steps & w' & Hrun & Hshapes).
  { eexists _, _, _. split; [vm_compute; reflexivity|].
    repeat (apply Forall_cons; split; [by split|]). apply Forall_nil_2. }
  destruct (forward_returns (H := Toy.backend) Toy.model Toy.src_2_2 3 0 2 2
              enc_outputs steps w' eq_refl ltac:(lia) ltac:(simpl; lia)
              ltac:(left; lia) Hrun Hshapes)
    as (P & attn & Hfw & HP & HA).
  exists P, attn, w'. exact (conj Hfw (conj HP HA)).
Defined.

(** ** The claims on the attention model *)

Section attention_claims.
Context `{Backend}.

(** C4: [forward] does not return predictions for every source: on a
    source of one token and two sentences or more, with two target positions
    or more, it raises. The encoder's outputs then have one source position,
    the attention of the first step has the shape [[B; 1; 1]], squeezing it
    leaves the shape [[B]], and that does not fit the view [attn[:, :, 1]] of
    shape [[B; 1]]. *)
Theorem forward_single_token_source (enc : Encoder.t) (dec : Decoder.t) src trg_len w B :
  shape src = [1; B] → 2 ≤ B → 2 ≤ trg_len →
  (∀ eo ctx w0, Encoder.forward enc src w = OK ((eo, ctx), w0) → ∃ He, shape eo = [1; B; He]) →
  ∃ e, Seq2Seq.forward (Seq2Seq.init enc dec) src trg_len w = Raise e.
Proof.
  intros Hsrc HB HL Henc_shape.
  destruct (Seq2Seq.forward _ src trg_len w) as [[[P attn] w']|e] eqn:Hrun; [|by eexists].
  exfalso.
  apply forward_inv in Hrun
    as (B' & Ns & P0 & eo & ctx & w0 & h & idx & HB' & _ & HS & Henc & Hloop).
  unfold size_last in HB'. unfold size_first in HS. rewrite Hsrc in HB', HS.
  injection HB' as <-. injection HS as <-.
  destruct (Henc_shape _ _ _ Henc) as [He Heo].
  unfold range in Hloop. replace (trg_len - 1) with (S (trg_len - 2)) in Hloop by lia.
  cbn [seq for_each] in Hloop.
  apply bind_OK in Hloop as ([[[P1 h1] i1] a1] & w1 & Hstep & _).
  apply step_inv in Hstep as (pred & a & Hdec & _ & _ & Hattn).
  apply decoder_inv in Hdec
    as (Ns & B' & He' & E & y0 & w2 & y & w3 & a0 & w4 & scores & X & out & w5 & out'
        & Heo' & _ & _ & _ & _ & _ & _ & Ha & _).
  rewrite Heo in Heo'. injection Heo' as <- <- <-.
  eapply attn_store in Hattn as (_ & _ & a' & Hbc & _); [|by apply wf_full || done].
  destruct (attention_squeeze _ _ _ _ Ha Hbc) as [HB1 _]. specialize (HB1 eq_refl). lia.
Qed.

(** C2: in a run of [forward] of the attention model that returns, every
    decoding step calls the decoder on its current state, and the decoder
    applies the attention module to that state and to all encoder outputs,
    gets from the softmax one weight for every sentence and source position,
    and hands the recurrent layer the token embedding concatenated with the
    sum of the encoder outputs weighted by these weights. *)
Theorem attention_every_step (enc : Encoder.t) (dec : Decoder.t) src trg_len w P attn w' :
  Seq2Seq.forward (Seq2Seq.init enc dec) src trg_len w = OK ((P, attn), w') →
  ∃ batch_size src_len enc_outputs steps,
    size_last src = OK batch_size ∧ size_first src = OK src_len ∧
    greedy_decoding (Seq2Seq.init enc dec) src trg_len w = OK ((enc_outputs, steps), w') ∧
    length steps = trg_len - 1 ∧
    ∀ i st, steps !! i = Some st →
      attends dec enc_outputs attn batch_size src_len (1 + i) st.
Proof.
  intros Hrun. pose proof Hrun as Hrun'.
  apply forward_inv in Hrun
    as (B & Ns & P0 & eo & ctx & w0 & h & idx & HB & HP0 & HS & Henc & Hloop).
  apply first_write_inv in HP0 as (HL & _ & Hsh & _).
  eapply decoding_loop in Hloop as (steps & Hsteps & Hlen & _ & _ & _ & Hpos);
    [|done|by apply wf_full || done].
  exists B, Ns, eo, steps. split_and!; try done.
  - unfold greedy_decoding. apply bind_OK. eexists _, _. split; [by apply lift_OK; eexists|].
    apply bind_OK. eexists _, _. split; [done|]. simpl.
    apply bind_OK. eexists _, _. split; [done|]. by apply ret_OK.
  - intros i st Hst.
    destruct (greedy_steps_calls _ _ _ _ _ _ _ _ Hsteps _ _ Hst) as (wi & h' & wi' & Hcall & _).
    simpl in Hcall. pose proof (decoder_inv _ _ _ _ _ _ _ _ _ Hcall) as Hdec.
    exists h', wi, wi'. split; [done|]. intros Heo b s Hb Hs.
    destruct Hdec as (Ns' & B' & He' & E & y0 & w2 & y & w3 & a0 & w4 & scores & X & out & w5
      & out' & Heo' & _ & _ & _ & _ & _ & _ & Ha & _).
    rewrite Heo' in Heo. injection Heo as -> ->.
    destruct (Hpos _ _ Hst) as (_ & a' & _ & Hbc & _ & Hw).
    rewrite Hw by done. rewrite (broadcast_lookup _ _ _ [b; s] Hbc) by in_range.
    f_equal. by apply (attention_squeeze _ _ _ _ Ha Hbc).
Qed.
End attention_claims.

(** The run on two sentences of one token raises. *)
Lemma forward_single_token_source_witness :
  ∃ e, Seq2Seq.forward (Seq2Seq.init Toy.encoder Toy.decoder) Toy.src_1_2 2 0 = Raise e.
Proof.
  apply (forward_single_token_source (H := Toy.backend) Toy.encoder Toy.decoder
           Toy.src_1_2 2 0 2); [reflexivity|lia|lia|].
  intros eo ctx w0 Henc. exists 2. vm_compute in Henc. by injection Henc as <- _ _.
Defined.

Lemma attention_every_step_witness :
  ∃ P attn w',
    Seq2Seq.forward (Seq2Seq.init Toy.encoder Toy.decoder) Toy.src_2_2 3 0
      = OK ((P, attn), w') ∧
    ∃ batch_size src_len enc_outputs steps,
      size_last Toy.src_2_2 = OK batch_size ∧ size_first Toy.src_2_2 = OK src_len ∧
      greedy_decoding (Seq2Seq.init Toy.encoder Toy.decoder) Toy.src_2_2 3 0
        = OK ((enc_outputs, steps), w') ∧
      length steps = 3 - 1 ∧
      ∀ i st, steps !! i = Some st →
        attends Toy.decoder enc_outputs attn batch_size src_len (1 + i) st.
Proof.
  eexists _, _, _. split; [vm_compute; reflexivity|].
  eapply (attention_every_step (H := Toy.backend) Toy.encoder Toy.decoder Toy.src_2_2 3 0).
  vm_compute. reflexivity.
Defined.

(** ** The claims on training and evaluation *)

Section training_claims.
Context `{Backend}.

(** C9: in the training and evaluation functions, the first position has
    no part in the loss nor in the gradients. Every batch of every epoch runs
    as [trains_on], or [evaluates_on], describes, from the state of the
    framework that the batch before left: the loss is computed from the
    predictions of the model and from the target without their first position
    (what the loss is given holds the positions from 1 on, one row for each
    position and sentence, and is the same whatever the first position of
    the predictions and of the target holds), and the backward pass, which
    computes the gradients, runs on this loss and on nothing else of the
    batch; the evaluation runs no backward pass. A model that returns other
    values at the first position of its predictions is trained to the same
    state of the framework, with the same losses. *)
Theorem loss_skips_first_position :
  (∀ model dl num_epochs loss_fn optimizer device verbose s loss_total s',
     training_seq2seq model dl num_epochs loss_fn optimizer device verbose s
       = OK (loss_total, s') →
     ∃ epochs,
       training_run model dl num_epochs loss_fn optimizer device (fw s) epochs (fw s') ∧
       Forall (Forall skips_first_position) epochs ∧
       loss_operands (calls s') = loss_operands (calls s) ++ (operands <$> concat epochs) ∧
       loss_total = epoch_loss <$> epochs) ∧
  (∀ model dl loss_fn device s loss s',
     evaluate_seq2seq model dl loss_fn device s = OK (loss, s') →
     ∃ rs,
       evaluation_run model dl loss_fn device (fw s) rs (fw s') ∧
       Forall skips_first_position rs ∧
       loss_operands (calls s') = loss_operands (calls s) ++ (operands <$> rs) ∧
       loss = epoch_loss rs) ∧
  (∀ model dl num_epochs loss_fn optimizer model_name valid_dataloader device verbose
       s loss_total bleu s',
     training_validation_bleu model dl num_epochs loss_fn optimizer model_name
       valid_dataloader device verbose s = OK ((loss_total, bleu), s') →
     ∃ epochs,
       training_run (predictions_only model) dl num_epochs loss_fn optimizer device
         (fw s) epochs (fw s') ∧
       Forall (Forall skips_first_position) epochs ∧
       loss_operands (calls s') = loss_operands (calls s) ++ (operands <$> concat epochs) ∧
       loss_total = epoch_loss <$> epochs) ∧
  (∀ model model' dl num_epochs loss_fn optimizer device verbose s loss_total s',
     agree_from_1 model model' →
     training_seq2seq model dl num_epochs loss_fn optimizer device verbose s
       = OK (loss_total, s') →
     ∃ s'',
       training_seq2seq model' dl num_epochs loss_fn optimizer device verbose s
         = OK (loss_total, s'') ∧
       fw s'' = fw s').
Proof.
  split_and!.
  - intros * Hrun.
    apply training_seq2seq_inv in Hrun as (epochs & Hruns & -> & _ & Hcalls).
    pose proof Hruns as (w1 & w2 & _ & _ & Hlen & Hseq).
    exists epochs. split_and!; [done| |by rewrite Hcalls, <- Hlen,
      !loss_operands_app, loss_operands_epochs|done].
    by eapply training_epochs_skip_first_position.
  - intros * Hrun.
    apply evaluate_seq2seq_inv in Hrun as (rs & Hruns & -> & _ & Hcalls).
    pose proof Hruns as (w1 & w2 & _ & _ & w0 & _ & Hseq).
    exists rs. split_and!; [done| |by rewrite Hcalls, !loss_operands_app,
      loss_operands_evaluation|done].
    eapply in_sequence_Forall; [|done]. intros r ? ?.
    apply evaluates_on_skips_first_position.
  - intros * Hrun.
    apply training_validation_bleu_inv in Hrun
      as (epochs & Hruns & -> & _ & _ & Hcalls).
    pose proof Hruns as (w1 & w2 & _ & _ & Hlen & Hseq).
    exists epochs. split_and!; [done| |by rewrite Hcalls, <- Hlen,
      !loss_operands_app, loss_operands_epochs|done].
    by eapply training_epochs_skip_first_position.
  - intros model model' dl num_epochs loss_fn optimizer device verbose s loss_total s'
      Hagree Hrun.
    destruct (proj1 (training_seq2seq_runs model dl num_epochs loss_fn optimizer device
                       verbose s loss_total (fw s'))) as (epochs & Hruns & ->);
      [by exists s'|].
    eapply training_run_agree in Hruns as (epochs' & Hruns' & Hl); [|done].
    apply training_seq2seq_runs. exists epochs'. by rewrite Hl.
Qed.


(** C5, amended: the code that runs with files at hand writes them through
    the save routines of the framework and of the array library only, and
    not parameter dictionaries only. A training of at least one epoch leaves
    the parameter dictionary of the model in [lstm_model.pt]; the evaluation,
    the training of the attention model and the evaluation of its score
    leave the files as they found them; the cells of the basics notebook
    leave an array in [x_np.npy], a tensor in [x_tensor.pt], a whole layer
    in [fnn_model.pt] and a parameter dictionary in [fnn_model_params.pt]. *)
Theorem files_written (c : writer) s r s' :
  run_writer c s = OK (r, s') → disk s' = files_after c (fw s') (disk s).
Proof.
  destruct c; simpl; intros Hrun.
  - apply bind_OK in Hrun as (lt & s1 & Hrun & [= _ <-]%ret_OK).
    by apply training_seq2seq_inv in Hrun as (epochs & _ & _ & Hd & _).
  - apply bind_OK in Hrun as (lt & s1 & Hrun & [= _ <-]%ret_OK).
    by apply evaluate_seq2seq_inv in Hrun as (rs & _ & _ & Hd & _).
  - apply bind_OK in Hrun as ([lt bl] & s1 & Hrun & [= _ <-]%ret_OK).
    by apply training_validation_bleu_inv in Hrun as (epochs & _ & _ & _ & Hd & _).
  - apply bind_OK in Hrun as (x & s1 & Hrun & [= _ <-]%ret_OK).
    by eapply evaluate_bleu_disk.
  - apply bind_OK in Hrun as (x & s1 & Hrun & [= _ <-]%ret_OK).
    unfold save_load_cell in Hrun.
    apply bind_OK in Hrun as ([] & s2 & [= ->]%save_OK & Hrun).
    apply bind_OK in Hrun as (p1 & s3 & ->%load_OK & Hrun).
    apply bind_OK in Hrun as ([] & s4 & [= ->]%save_OK & Hrun).
    by apply bind_OK in Hrun as (p2 & s5 & ->%load_OK & [= _ ->]%ret_OK).
  - apply bind_OK in Hrun as (x & s1 & Hrun & [= _ <-]%ret_OK).
    unfold save_layer_cell in Hrun.
    apply bind_OK in Hrun as (w & s2 & [= -> ->]%get_fw_OK & Hrun).
    by apply bind_OK in Hrun as ([] & s3 & [= ->]%save_OK & ->%load_OK).
  - apply bind_OK in Hrun as (x & s1 & Hrun & [= _ <-]%ret_OK).
    unfold save_params_cell in Hrun.
    apply bind_OK in Hrun as (w & s2 & [= -> ->]%get_fw_OK & Hrun).
    by apply bind_OK in Hrun as ([] & s3 & [= ->]%save_OK & ->%load_OK).
Qed.
End training_claims.

(** A training of two epochs on one batch of two sentences. *)
Lemma loss_skips_first_position_witness :
  ∃ loss_total s',
    training_seq2seq Toy.module_pred Toy.dataloader 2 Toy.loss_fn Toy.optimizer "cpu" true
      Toy.start = OK (loss_total, s') ∧
    ∃ epochs,
      training_run Toy.module_pred Toy.dataloader 2 Toy.loss_fn Toy.optimizer "cpu"
        (fw Toy.start) epochs (fw s') ∧
      Forall (Forall skips_first_position) epochs ∧
      loss_operands (calls s')
      = loss_operands (calls Toy.start) ++ (operands <$> concat epochs) ∧
      loss_total = epoch_loss <$> epochs.
Proof.
  eexists _, _. split; [vm_compute; reflexivity|].
  eapply (proj1 (loss_skips_first_position (H := Toy.backend))
            Toy.module_pred Toy.dataloader 2 Toy.loss_fn Toy.optimizer "cpu" true Toy.start).
  vm_compute. reflexivity.
Defined.


(** The cell that saves an array and a tensor, run on an empty directory. *)
Lemma files_written_witness :
  ∃ s',
    run_writer (H := Toy.backend) WSaveLoad Toy.start = OK ((), s') ∧
    disk s' = files_after WSaveLoad (fw s') (disk Toy.start).
Proof.
  eexists. split; [vm_compute; reflexivity|].
  eapply (files_written (H := Toy.backend) WSaveLoad Toy.start ()).
  vm_compute. reflexivity.
Defined.

(** Against C5 as stated: not every file that a run leaves and did not
    find is a checkpoint. The cell that saves an array and a tensor,
    run on an empty directory, leaves [x_np.npy], an array written by the
    save routine of the array library. *)
Lemma writes_are_not_all_checkpoints :
  ¬ (∀ (c : writer (H := Toy.backend)) s r s' path f,
       run_writer c s = OK (r, s') → disk s' !! path = Some f →
       disk s !! path = Some f ∨ checkpoint f).
Proof.
  intros Hall.
  destruct (Hall WSaveLoad Toy.start () _ "x_np.npy" _ eq_refl eq_refl)
    as [Hfound|[Hby _]].
  - vm_compute in Hfound. discriminate.
  - vm_compute in Hby. discriminate.
Qed.

(** ** The claim on the data *)

(** C10: after the data setup, the test split is the first 100 examples of
    the training split, which is the first 1000 examples of the training
    data: every test example is a training example, and the test data that
    was loaded has no part in it. *)
Theorem test_split_is_training_data {example : Type} (d : splits example) :
  test_data (take_subset d) = take 100 (train_data (take_subset d)) ∧
  train_data (take_subset d) = take 1000 (train_data d) ∧
  test_data (take_subset d) = take 100 (train_data d) ∧
  (∀ x, x ∈ test_data (take_subset d) → x ∈ train_data (take_subset d)) ∧
  (∀ other,
     test_data (take_subset {| train_data := train_data d; valid_data := valid_data d;
                               test_data := other |})
     = test_data (take_subset d)).
Proof.
  unfold take_subset. simpl. split_and!; try done.
  - rewrite take_take. f_equal.
  - intros x Hx. apply list_elem_of_lookup in Hx as [i Hi].
    apply list_elem_of_lookup. exists i.
    rewrite lookup_take_Some in Hi. by destruct Hi.
Qed.

(** ** The claim on the vocabulary *)




Section vocabulary_claim.
Context `{Backend}.

End vocabulary_claim.


(** * Part III: more of the notebooks *)

(** ** The ticks and the matrix of [vizualize_attention] *)

Lemma ticks_prefix tokens : ticks tokens `prefix_of` tokens.
Proof.
  induction tokens as [|t tokens IH]; [done|]. simpl. case_decide.
  - by apply prefix_cons, prefix_nil.
  - by apply prefix_cons.
Qed.

Lemma ticks_no_eos tokens : "<eos>" ∉ tokens → ticks tokens = tokens.
Proof.
  induction tokens as [|t tokens IH]; [done|]. intros [Ht Hrest]%not_elem_of_cons.
  simpl. rewrite decide_False by done. by rewrite IH.
Qed.

Lemma ticks_first_eos tokens i :
  tokens !! i = Some "<eos>" → (∀ j, j < i → tokens !! j ≠ Some "<eos>") →
  ticks tokens = take (S i) tokens.
Proof.
  revert i. induction tokens as [|t tokens IH]; intros i Hi Hfirst; [done|].
  destruct i as [|i]; simpl in *.
  - injection Hi as ->. by rewrite decide_True, take_0.
  - rewrite decide_False.
    + f_equal. apply IH; [done|]. intros j Hj. apply (Hfirst (S j)). lia.
    + intros ->. by apply (Hfirst 0); [lia|].
Qed.

Lemma length_ticks tokens : length (ticks tokens) ≤ length tokens.
Proof. apply prefix_length, ticks_prefix. Qed.

Lemma ticks_eos_last tokens i :
  ticks tokens !! i = Some "<eos>" → S i = length (ticks tokens).
Proof.
  revert i. induction tokens as [|t tokens IH]; intros i; [done|]. simpl.
  case_decide as Ht.
  - destruct i; [done|]. done.
  - destruct i as [|i]; simpl; [by intros [= ->]|]. intros Hi. f_equal. by apply IH.
Qed.

(** X2: the ticks of a sentence are its tokens up to its first end of
    sentence, this one included, and all its tokens when it has none. *)
Theorem ticks_until_eos (tokens : list string) :
  ticks tokens `prefix_of` tokens ∧
  ("<eos>" ∉ tokens → ticks tokens = tokens) ∧
  (∀ i, tokens !! i = Some "<eos>" → (∀ j, j < i → tokens !! j ≠ Some "<eos>") →
     ticks tokens = take (S i) tokens) ∧
  (∀ i, ticks tokens !! i = Some "<eos>" → S i = length (ticks tokens)) ∧
  ticks (ticks tokens) = ticks tokens.
Proof.
  split_and!.
  - apply ticks_prefix.
  - apply ticks_no_eos.
  - apply ticks_first_eos.
  - apply ticks_eos_last.
  - induction tokens as [|t tokens IH]; [done|]. cbn [ticks].
    destruct (decide (t = "<eos>")) as [Ht|Ht]; cbn [ticks]; [done|by rewrite IH].
Qed.

Section showing_lemmas.
Context `{Backend}.

Lemma slice_rows_columns_OK {A} `{!Inhabited A} lo hi hi2 (a : tensor A) r c :
  shape a = [r; c] →
  ∃ a', slice_rows_columns lo hi hi2 a = OK a' ∧
    shape a' = [hi `min` r - lo; hi2 `min` c] ∧
    ∀ i j, i < hi `min` r - lo → j < hi2 `min` c →
      a' !! [i; j] = Some (a !!! [lo + i; j]).
Proof.
  intros Hsh. unfold slice_rows_columns. rewrite Hsh. eexists. split_and!; [done..|].
  intros i j Hi Hj. by rewrite lookup_build by in_range.
Qed.

Lemma vizualize_attention_OK (attention : tensor F) sentence translation R C :
  shape attention = [R; C] → C ≠ 1 →
  ∃ fig, vizualize_attention attention sentence translation = OK fig ∧
    y_labels fig = ticks translation ∧
    x_labels fig = EmptyString :: ticks sentence ∧
    shape (shown fig) = [length (ticks translation) `min` R - 1;
                         length (ticks sentence) `min` C] ∧
    ∀ i j, i < length (ticks translation) `min` R - 1 →
           j < length (ticks sentence) `min` C →
      shown fig !! [i; j] = Some (attention !!! [1 + i; j]).
Proof.
  intros Hsh HC. unfold vizualize_attention, squeeze_dim. rewrite Hsh. simpl.
  destruct C as [|[|C]]; [|done|]; simpl.
  all: rewrite Nat.sub_0_r.
  all: edestruct (slice_rows_columns_OK 1 (length (ticks translation))
         (length (ticks sentence)) attention) as (a' & -> & Hsh' & Hat); [done|].
  all: simpl; by eexists.
Qed.

Lemma vizualize_attention_Raise (attention : tensor F) sentence translation R :
  shape attention = [R; 1] →
  vizualize_attention attention sentence translation
    = Raise (IndexError "too many indices for array").
Proof. intros Hsh. unfold vizualize_attention, squeeze_dim. by rewrite Hsh. Qed.

(** X3: the figure of [vizualize_attention] for an attention of two
    dimensions: the labels are the tokens up to their first end of sentence, and the
    matrix holds the attention from its second row on, its rows cut at the
    number of labels of the translation and its columns at that of the
    sentence. *)
Theorem vizualize_attention_shows (attention : tensor F) sentence translation R C :
  shape attention = [R; C] → C ≠ 1 →
  ∃ fig, vizualize_attention attention sentence translation = OK fig ∧
    y_labels fig = ticks translation ∧
    x_labels fig = EmptyString :: ticks sentence ∧
    shape (shown fig) = [length (ticks translation) `min` R - 1;
                         length (ticks sentence) `min` C] ∧
    ∀ i j, i < length (ticks translation) `min` R - 1 →
           j < length (ticks sentence) `min` C →
      shown fig !! [i; j] = Some (attention !!! [1 + i; j]).
Proof. apply vizualize_attention_OK. Qed.

(** X4: [vizualize_attention] raises on an attention with one column, which
    squeezing leaves with one dimension. *)
Theorem vizualize_attention_one_column (attention : tensor F) sentence translation R :
  shape attention = [R; 1] →
  vizualize_attention attention sentence translation
    = Raise (IndexError "too many indices for array").
Proof. apply vizualize_attention_Raise. Qed.
End showing_lemmas.

(** ** Reading indices in a vocabulary *)

Lemma list_getitem_in_bounds {A} `{!Inhabited A} (l : list A) z :
  in_bounds l z → list_getitem l z = OK (l !!! Z.to_nat (z `mod` Z.of_nat (length l))).
Proof.
  unfold in_bounds, list_getitem. intros Hz. cbn zeta.
  assert (Z.to_nat (z `mod` Z.of_nat (length l))
          = Z.to_nat (if decide (z < 0)%Z then (z + Z.of_nat (length l))%Z else z)) as ->.
  { case_decide.
    - f_equal. symmetry. apply Z.mod_unique_pos with (q := (-1)%Z); lia.
    - f_equal. apply Z.mod_small. lia. }
  rewrite decide_True by (case_decide; lia).
  destruct (l !! _) as [x|] eqn:E.
  - by rewrite (list_lookup_total_correct _ _ _ E).
  - apply lookup_ge_None in E. case_decide; lia.
Qed.

Lemma list_getitem_out_of_bounds {A} (l : list A) z :
  ¬ in_bounds l z → list_getitem l z = index_error.
Proof.
  unfold in_bounds, list_getitem. intros Hz. cbn zeta.
  rewrite decide_False; [done|]. case_decide; lia.
Qed.

Lemma mapM_result_fmap {A B} (f : A → result B) (g : A → B) (l : list A) :
  (∀ a, a ∈ l → f a = OK (g a)) → mapM f l = OK (g <$> l).
Proof.
  induction l as [|a l IH]; intros Hf; [done|].
  cbn [mapM]. rewrite (Hf a) by left. simpl. by rewrite IH by (intros; apply Hf; by right).
Qed.

Lemma mapM_result_Raise {A B} (f : A → result B) (l : list A) e :
  (∀ a, a ∈ l → f a = Raise e ∨ ∃ b, f a = OK b) → (∃ a, a ∈ l ∧ f a = Raise e) →
  mapM f l = Raise e.
Proof.
  induction l as [|a l IH]; intros Hf (a' & Hin & Ha'); [by apply elem_of_nil in Hin|].
  cbn [mapM]. destruct (Hf a ltac:(left)) as [Hfa|[b Hfa]]; rewrite Hfa; [done|]. simpl.
  rewrite IH; [done|intros; apply Hf; by right|].
  apply elem_of_cons in Hin as [->|Hin]; [congruence|by exists a'].
Qed.

Lemma select_vector {A} (T : tensor A) n i x :
  shape T = [n] → data T !! i = Some x → i < n → select i T = OK (scalar x).
Proof.
  intros Hsh Hx Hi. unfold select, scalar. rewrite Hsh. simpl.
  rewrite decide_True by done. rewrite Nat.mul_1_r. do 2 f_equal.
  rewrite (drop_S _ _ _ Hx). done.
Qed.

Lemma fmap_seq_lookup_total {A B} `{!Inhabited A} (h : A → B) (d : list A) :
  (λ i, h (d !!! i)) <$> seq 0 (length d) = h <$> d.
Proof.
  apply list_eq. intros i. rewrite !list_lookup_fmap.
  destruct (d !! i) as [x|] eqn:E.
  - rewrite lookup_seq_lt by (by eapply lookup_lt_Some). simpl.
    by rewrite (list_lookup_total_correct _ _ _ E).
  - rewrite lookup_seq_ge by (by apply lookup_ge_None). done.
Qed.

(** X5: on a tensor of one dimension whose indices are within the bounds
    of the vocabulary, [itos_list] returns one token for every index, in
    their order: the token at the index, counted from the end of the
    vocabulary when the index is negative. *)
Theorem itos_list_in_bounds (itos : list string) (tensor_indx : tensor Z) n :
  shape tensor_indx = [n] → wf tensor_indx → Forall (in_bounds itos) (data tensor_indx) →
  itos_list itos tensor_indx
  = OK ((λ z, itos !!! Z.to_nat (z `mod` Z.of_nat (length itos))) <$> data tensor_indx).
Proof.
  intros Hsh Hwf Hall. unfold wf in Hwf. rewrite Hsh in Hwf. simpl in Hwf.
  unfold itos_list, len. rewrite Hsh. simpl.
  replace n with (length (data tensor_indx)) by lia.
  rewrite <- (fmap_seq_lookup_total _ (data tensor_indx)).
  apply mapM_result_fmap. intros i [_ Hi]%elem_of_seq.
  destruct (data tensor_indx !! i) as [z|] eqn:E; [|apply lookup_ge_None in E; lia].
  rewrite (select_vector _ _ _ _ Hsh E) by lia. simpl.
  rewrite (list_lookup_total_correct _ _ _ E).
  apply list_getitem_in_bounds. rewrite Forall_lookup in Hall. by eapply Hall.
Qed.

(** X6: on a tensor of one dimension with an index beyond the bounds of
    the vocabulary, [itos_list] raises [IndexError]. *)
Theorem itos_list_out_of_bounds (itos : list string) (tensor_indx : tensor Z) n :
  shape tensor_indx = [n] → wf tensor_indx → Exists (λ z, ¬ in_bounds itos z) (data tensor_indx) →
  itos_list itos tensor_indx = index_error.
Proof.
  intros Hsh Hwf Hex. unfold wf in Hwf. rewrite Hsh in Hwf. simpl in Hwf.
  unfold itos_list, len. rewrite Hsh. simpl.
  assert (∀ i, i < n → ∃ z, data tensor_indx !! i = Some z ∧
    (e ← select i tensor_indx; j ← as_index e; list_getitem itos j) = list_getitem itos z)
    as Hsel.
  { intros i Hi. destruct (data tensor_indx !! i) as [z|] eqn:E;
      [|apply lookup_ge_None in E; lia].
    exists z. split; [done|]. by rewrite (select_vector _ _ _ _ Hsh E) by lia. }
  apply mapM_result_Raise.
  - intros i [_ Hi]%elem_of_seq. destruct (Hsel i ltac:(lia)) as (z & _ & ->).
    destruct (decide (in_bounds itos z)).
    + right. eexists. by apply list_getitem_in_bounds.
    + left. by apply list_getitem_out_of_bounds.
  - apply Exists_exists in Hex as (z & [i Hz]%list_elem_of_lookup & Hout).
    assert (i < n) as Hi by (apply lookup_lt_Some in Hz; lia).
    exists i. split; [apply elem_of_seq; lia|].
    destruct (Hsel i Hi) as (z' & Hz' & ->). rewrite Hz in Hz'. injection Hz' as <-.
    by apply list_getitem_out_of_bounds.
Qed.

(** ** The attention module *)

Section attention_lemmas.
Context `{Backend}.

Ltac not_one := rewrite ?(decide_False (P := 1 ≠ 1)) by (intros Hne; by apply Hne).

(** The state of the decoder, squeezed, unsqueezed and repeated along the
    source: one copy for every source position, when the state has one
    layer and its size is not one for several sentences. *)
Lemma repeated_hidden (h hu hr : tensor F) S B Hd :
  shape h = [1; B; Hd] → Hd ≠ 1 ∨ B = 1 →
  unsqueeze 0 (squeeze h) = OK hu → repeat [S; 1; 1] hu = OK hr →
  shape hr = [S; B; Hd] ∧
  ∀ s b j, s < S → b < B → j < Hd → hr !!! [s; b; j] = h !!! [0; b; j].
Proof.
  intros Hsh Hfit. unfold unsqueeze, squeeze, rank. simpl shape. rewrite Hsh.
  rewrite !filter_cons, filter_nil. not_one.
  destruct (decide (B = 1)) as [->|HB], (decide (Hd = 1)) as [->|HH].
  - not_one. simpl. intros [= <-]. unfold repeat, rank. simpl. intros [= <-].
    split; [by rewrite Nat.mul_1_r|].
    intros s b j Hs Hb Hj. rewrite lookup_total_build by (in_range).
    apply lookup_total_same_data; [done|]. simpl. rewrite Hsh. simpl.
    replace b with 0 by lia. replace j with 0 by lia. done.
  - not_one. rewrite (decide_True (P := Hd ≠ 1)) by done. simpl. intros [= <-].
    unfold repeat, rank. simpl. intros [= <-].
    split; [by rewrite Nat.mul_1_r, Nat.add_0_r|].
    intros s b j Hs Hb Hj. rewrite lookup_total_build by (in_range).
    apply lookup_total_same_data; [done|]. simpl. rewrite Hsh. simpl.
    replace b with 0 by lia. rewrite (Nat.mod_small j) by done. simpl.
    rewrite !decide_True by lia. simpl. try done; f_equal; lia.
  - by destruct Hfit.
  - rewrite (decide_True (P := B ≠ 1)), (decide_True (P := Hd ≠ 1)) by done. simpl.
    intros [= <-]. unfold repeat, rank. simpl. intros [= <-].
    split; [by rewrite Nat.mul_1_r, !Nat.add_0_r|].
    intros s b j Hs Hb Hj. rewrite lookup_total_build by (in_range).
    apply lookup_total_same_data; [done|]. simpl. rewrite Hsh. simpl.
    rewrite (Nat.mod_small b), (Nat.mod_small j) by done.
    rewrite !decide_True by lia. simpl. done.
Qed.

(** A state of size one for several sentences loses its last dimension. *)
Lemma repeated_hidden_size_1 (h hu hr : tensor F) S B :
  shape h = [1; B; 1] → B ≠ 1 →
  unsqueeze 0 (squeeze h) = OK hu → repeat [S; 1; 1] hu = OK hr →
  shape hr = [S; 1; B].
Proof.
  intros Hsh HB. unfold unsqueeze, squeeze, rank. simpl shape. rewrite Hsh.
  rewrite !filter_cons, filter_nil. not_one.
  rewrite (decide_True (P := B ≠ 1)) by done. not_one. simpl.
  intros [= <-]. unfold repeat, rank. simpl. intros [= <-]. simpl.
  by rewrite Nat.mul_1_r, Nat.add_0_r.
Qed.

Lemma attention_run (self : Attention.t) (h eo : tensor F) w a w' S B Hd He :
  shape h = [1; B; Hd] → shape eo = [S; B; He] →
  Attention.forward self h eo w = OK (a, w') →
  ∃ comb energy w1 scores3 scores,
    shape comb = [B; S; Hd + He] ∧
    (∀ b s j, b < B → s < S → j < Hd + He →
       comb !!! [b; s; j]
       = if decide (j < Hd) then h !!! [0; b; j] else eo !!! [s; b; j - Hd]) ∧
    Attention.energy_layer self comb w = OK (energy, w1) ∧
    Attention.v self energy w1 = OK (scores3, w') ∧
    squeeze_dim 2 scores3 = OK scores ∧ softmax 1 scores = OK a ∧
    (Hd ≠ 1 ∨ B = 1).
Proof.
  intros Hh Heo (S' & hu & hr & hp & enc_p & comb & energy & w1 & scores3 & scores
    & HS & Hhu & Hhr & Hhp & Henc & Hcat & Hen & Hv & Hsq & Hsm)%attention_inv.
  unfold size_first in HS. rewrite Heo in HS. injection HS as <-.
  apply permute_102 in Henc as (S' & B' & He' & Heo' & Hencp & Hencp_at).
  rewrite Heo in Heo'. injection Heo' as <- <- <-.
  destruct (decide (Hd ≠ 1 ∨ B = 1)) as [Hfit|Hbad].
  - destruct (repeated_hidden _ _ _ _ _ _ Hh Hfit Hhu Hhr) as [Hhr_sh Hhr_at].
    apply permute_102 in Hhp as (S' & B' & Hd' & Hhr' & Hhp & Hhp_at).
    rewrite Hhr_sh in Hhr'. injection Hhr' as <- <- <-.
    apply (cat_2 _ _ _ _ _ _ ltac:(by rewrite Hhp) Hencp) in Hcat as (c1 & Hhp' & Hc & Hc_at).
    rewrite Hhp in Hhp'. injection Hhp' as <-.
    exists comb, energy, w1, scores3, scores. split_and!; try done.
    intros b s j Hb Hs Hj. rewrite Hc_at by done. case_decide.
    + rewrite Hhp_at by done. by apply Hhr_at.
    + apply Hencp_at; lia.
  - exfalso. assert (Hd = 1 ∧ B ≠ 1) as [-> HB].
    { destruct (decide (Hd = 1)), (decide (B = 1)); try done; exfalso; apply Hbad; auto. }
    pose proof (repeated_hidden_size_1 _ _ _ S _ Hh HB Hhu Hhr) as Hhr_sh.
    apply permute_102 in Hhp as (S' & B' & Hd' & Hhr' & Hhp & _).
    rewrite Hhr_sh in Hhr'. injection Hhr' as <- <- <-.
    apply (cat_2 _ _ _ _ _ _ ltac:(by rewrite Hhp) Hencp) in Hcat as (c1 & Hhp' & _).
    rewrite Hhp in Hhp'. by injection Hhp' as <-.
Qed.

(** X7: what the attention module hands to its energy layer: for every
    sentence and source position, the state of the decoder followed by the output of
    the encoder at that position. *)
Theorem attention_energy_input (self : Attention.t) (h eo : tensor F) w a w' S B Hd He :
  shape h = [1; B; Hd] → shape eo = [S; B; He] →
  Attention.forward self h eo w = OK (a, w') →
  ∃ comb energy w1 scores3 scores,
    shape comb = [B; S; Hd + He] ∧
    (∀ b s j, b < B → s < S → j < Hd + He →
       comb !!! [b; s; j]
       = if decide (j < Hd) then h !!! [0; b; j] else eo !!! [s; b; j - Hd]) ∧
    Attention.energy_layer self comb w = OK (energy, w1) ∧
    Attention.v self energy w1 = OK (scores3, w') ∧
    squeeze_dim 2 scores3 = OK scores ∧ softmax 1 scores = OK a ∧
    (Hd ≠ 1 ∨ B = 1).
Proof. apply attention_run. Qed.

(** X8: the attention module raises on the state of a decoder of two
    layers or more. *)
Theorem attention_several_layers (self : Attention.t) (h eo : tensor F) w n B Hd S B' He :
  shape h = [n; B; Hd] → 2 ≤ n → B ≠ 1 → Hd ≠ 1 → shape eo = [S; B'; He] →
  Attention.forward self h eo w = Raise (RuntimeError "shape mismatch").
Proof.
  intros Hh Hn HB HH Heo. unfold Attention.forward, size_first. rewrite Heo.
  unfold squeeze, unsqueeze, repeat, rank. simpl shape. rewrite Hh.
  rewrite !filter_cons, filter_nil.
  rewrite (decide_True (P := n ≠ 1)), (decide_True (P := B ≠ 1)),
    (decide_True (P := Hd ≠ 1)) by (done || lia).
  done.
Qed.

(** X9: the attention module raises on a state of size one for several
    sentences. *)
Theorem attention_state_of_size_1 (self : Attention.t) (h eo : tensor F) w B S He :
  shape h = [1; B; 1] → B ≠ 1 → shape eo = [S; B; He] →
  Attention.forward self h eo w = Raise (RuntimeError "shape mismatch").
Proof.
  intros Hh HB Heo.
  destruct (Attention.forward self h eo w) as [[a w']|e] eqn:Hrun.
  { destruct (attention_run _ _ _ _ _ _ _ _ _ _ Hh Heo Hrun)
      as (? & ? & ? & ? & ? & _ & _ & _ & _ & _ & _ & [?|?]); done. }
  unfold Attention.forward in Hrun.
  apply bind_Raise in Hrun as [Hr%lift_Raise|(S' & w1 & (? & HS & [= <- <-])%lift_OK & Hrun)].
  { unfold size_first in Hr. by rewrite Heo in Hr. }
  apply bind_Raise in Hrun as [Hr%lift_Raise|(hu & w2 & (? & Hhu & [= <- <-])%lift_OK & Hrun)].
  { revert Hr. unfold unsqueeze. by rewrite decide_True by lia. }
  apply bind_Raise in Hrun as [Hr%lift_Raise|(hr & w3 & (? & Hhr & [= <- <-])%lift_OK & Hrun)].
  { revert Hr Hhu. unfold unsqueeze, squeeze, rank. simpl shape. rewrite Hh.
    rewrite !filter_cons, filter_nil. not_one.
    rewrite (decide_True (P := B ≠ 1)) by done. not_one. simpl.
    intros Hr [= <-]. by revert Hr. }
  pose proof (repeated_hidden_size_1 _ _ _ S' _ Hh HB Hhu Hhr) as Hhr_sh.
  apply bind_Raise in Hrun as [Hr%lift_Raise|(hp & w4 & (? & Hhp & [= <- <-])%lift_OK & Hrun)].
  { revert Hr. unfold permute, rank. rewrite Hhr_sh.
    destruct (decide _); [done|by intros [= <-]]. }
  apply bind_Raise in Hrun as [Hr%lift_Raise|(ep & w5 & (? & Hep & [= <- <-])%lift_OK & Hrun)].
  { revert Hr. unfold permute, rank. rewrite Heo.
    destruct (decide _); [done|by intros [= <-]]. }
  apply permute_102 in Hhp as (? & ? & ? & Hhr' & Hhp & _).
  rewrite Hhr_sh in Hhr'. injection Hhr' as <- <- <-.
  apply permute_102 in Hep as (? & ? & ? & Heo' & Hep & _).
  rewrite Heo in Heo'. injection Heo' as <- <- <-.
  apply bind_Raise in Hrun as [Hr%lift_Raise|(c & w6 & (? & Hc & [= <- <-])%lift_OK & Hrun)].
  { revert Hr. unfold cat. rewrite Hhp, Hep. simpl.
    rewrite !(decide_False (P := _ = [0])) by done. simpl.
    rewrite decide_False; [by intros [= <-]|]. intros [= Heq]. lia. }
  apply (cat_2 _ _ _ _ _ _ ltac:(by rewrite Hhp) Hep) in Hc as (c1 & Hhp' & _).
  rewrite Hhp in Hhp'. by injection Hhp' as <-.
Qed.
End attention_lemmas.

(** ** More on the forward pass *)

Section forward_more.
Context `{Backend}.
Implicit Types (self : Seq2Seq.t) (src : tensor Z).

(** The results of a run of [forward]: their shapes, the first position of
    the predictions, and the first position of the attention. *)
Lemma forward_results self src trg_len w P attn w' :
  Seq2Seq.forward self src trg_len w = OK ((P, attn), w') →
  ∃ B S, size_last src = OK B ∧ size_first src = OK S ∧
    1 ≤ trg_len ∧ 2 < Seq2Seq.trg_vocab_size self ∧
    shape P = [trg_len; B; Seq2Seq.trg_vocab_size self] ∧
    shape attn = [B; S; trg_len] ∧
    (∀ b k, b < B → k < Seq2Seq.trg_vocab_size self →
       P !! [0; b; k] = Some (if decide (k = 2) then F1 else F0)) ∧
    (∀ b s, b < B → s < S → attn !! [b; s; 0] = Some F0).
Proof.
  intros (B & Ns & P0 & enc & ctx & w0 & h & idx & HB & HP0 & HS & Henc & Hloop)%forward_inv.
  apply first_write_inv in HP0 as (HL & HV & Hsh & H0).
  exists B, Ns. split_and!; try done; try lia.
  all: apply (for_each_inv (λ st _,
    (shape st.1.1.1 = [trg_len; B; Seq2Seq.trg_vocab_size self] ∧
     shape st.2 = [B; Ns; trg_len]) ∧
    (∀ b k, b < B → k < Seq2Seq.trg_vocab_size self →
       st.1.1.1 !! [0; b; k] = Some (if decide (k = 2) then F1 else F0)) ∧
    (∀ b s, b < B → s < Ns → st.2 !! [b; s; 0] = Some F0)))
    in Hloop; [try (by destruct Hloop as [[? ?] [? ?]])| |].
  all: try (split_and!; try done; intros b s Hb Hs; apply lookup_full; in_range).
  all: clear; intros t [[[P h] i] a] w [[[P' h'] i'] a'] w' [Ht _]%elem_of_range
         [[Hsh Hsa] [HP Ha]].
  all: intros (p & a0 & _ & Hset & _ & Hattn)%step_inv; simpl in *.
  all: split_and!.
  all: try by rewrite (setitem_shape _ _ _ _ Hset).
  all: try by rewrite (setitem_shape _ _ _ _ Hattn).
  all: try (intros b k Hb Hk; eapply setitem_lookup_other; [done| |by apply HP];
            simpl; by rewrite decide_False by lia).
  all: intros b s Hb Hs; eapply setitem_lookup_other; [done| |by apply Ha];
       simpl; by rewrite decide_False by lia.
Qed.

(** X10: the attention that [forward] returns has one weight for every
    sentence, source position and target position, and the weights of
    target position 0, where no step of decoding writes, are zero. *)
Theorem forward_attention_position_0 self src trg_len w P attn w' :
  Seq2Seq.forward self src trg_len w = OK ((P, attn), w') →
  ∃ B S, size_last src = OK B ∧ size_first src = OK S ∧
    shape attn = [B; S; trg_len] ∧
    ∀ b s, b < B → s < S → attn !! [b; s; 0] = Some F0.
Proof.
  intros (B & S & HB & HS & _ & _ & _ & Hsh & _ & H0)%forward_results.
  by exists B, S.
Qed.

(** X11: [forward] raises [IndexError] when no target position is asked for, or
    when the target vocabulary has no index 2. *)
Theorem forward_without_index_2 self src trg_len w B :
  size_last src = OK B → trg_len = 0 ∨ Seq2Seq.trg_vocab_size self ≤ 2 →
  Seq2Seq.forward self src trg_len w = Raise (IndexError "index out of range").
Proof.
  intros HB Hbad.
  destruct (Seq2Seq.forward self src trg_len w) as [[[P attn] w']|e] eqn:Hrun;
    unfold Seq2Seq.forward in Hrun.
  - apply bind_OK in Hrun as (B' & w0 & (? & HB' & [= <- <-])%lift_OK & Hrun).
    apply bind_OK in Hrun as (P0 & w1 & (? & HP0 & [= <- <-])%lift_OK & _).
    apply first_write_inv in HP0 as (? & ? & _). lia.
  - apply bind_Raise in Hrun as [Hr%lift_Raise|(B' & w0 & (? & HB' & [= <- <-])%lift_OK & Hrun)];
      [congruence|].
    apply bind_Raise in Hrun as [Hr%lift_Raise|(P0 & w1 & (? & HP0 & [= <- <-])%lift_OK & _)].
    + revert Hr. unfold setitem, zeros, full. simpl.
      repeat case_decide; simpl; try lia; try by intros [= <-].
    + apply first_write_inv in HP0 as (? & ? & _). lia.
Qed.

(** X12: for one target position, [forward] calls the encoder and no decoder:
    it returns when the encoder does, in the state the encoder leaves, with
    an attention of zeros. *)
Theorem forward_one_position self src w S B enc_outputs context w' :
  shape src = [S; B] → 2 < Seq2Seq.trg_vocab_size self →
  Seq2Seq.encoder self src w = OK ((enc_outputs, context), w') →
  ∃ P, Seq2Seq.forward self src 1 w = OK ((P, zeros [B; S; 1]), w') ∧
    shape P = [1; B; Seq2Seq.trg_vocab_size self].
Proof.
  intros Hsrc HV Henc.
  destruct (setitem_returns [Idx 0; All; Idx 2]
              (zeros [1; B; Seq2Seq.trg_vocab_size self]) (scalar F1) [B])
    as (P0 & HP0 & HsP0).
  { simpl. rewrite !decide_True by lia. done. }
  { rewrite broadcast_scalar. by eexists. }
  exists P0. split; [|done]. unfold Seq2Seq.forward.
  apply bind_OK. eexists _, _. split; [apply lift_OK; eexists; split; [|done]|].
  { unfold size_last. by rewrite Hsrc. }
  apply bind_OK. eexists _, _. split; [by apply lift_OK; eexists|].
  apply bind_OK. eexists _, _. split; [apply lift_OK; eexists; split; [|done]|].
  { unfold size_first. by rewrite Hsrc. }
  apply bind_OK. eexists _, _. split; [done|]. simpl.
  apply bind_OK. eexists (_, _, _, _), _. split; [by apply ret_OK|]. by apply ret_OK.
Qed.
End forward_more.

(** ** The cells that show a translation and its attention *)

Section reading_lemmas.
Context {A : Type} `{!Inhabited A}.

Lemma getitem_column (T c : tensor A) n B i :
  shape T = [n; B] → getitem [All; Idx i] T = OK c →
  i < B ∧ shape c = [n] ∧ wf c ∧ ∀ j, j < n → c !! [j] = Some (T !!! [j; i]).
Proof.
  intros Hsh. unfold getitem. rewrite Hsh. simpl. case_decide as Hi; [|done]. simpl.
  intros [= <-]. split_and!; [done|done|apply wf_build|].
  intros j Hj. by rewrite lookup_build by in_range.
Qed.

Lemma getitem_first (T T' : tensor A) B S L i :
  shape T = [B; S; L] → getitem [Idx i] T = OK T' →
  i < B ∧ shape T' = [S; L] ∧
  ∀ s l, s < S → l < L → T' !!! [s; l] = T !!! [i; s; l].
Proof.
  intros Hsh. unfold getitem. rewrite Hsh. simpl. case_decide as Hi; [|done]. simpl.
  intros [= <-]. split_and!; [done|done|].
  intros s l Hs Hl. by rewrite lookup_total_build by in_range.
Qed.

Lemma lookup_vector (T : tensor A) n i :
  shape T = [n] → i < n → T !! [i] = data T !! i.
Proof.
  intros Hsh Hi. unfold lookup at 1, tensor_lookup. rewrite Hsh. simpl.
  rewrite decide_True by done. simpl. f_equal. lia.
Qed.
End reading_lemmas.

Lemma mapM_result_OK {A B} (f : A → result B) (l : list A) ys :
  mapM f l = OK ys → Forall2 (λ x y, f x = OK y) l ys.
Proof.
  revert ys. induction l as [|a l IH]; intros ys; cbn [mapM].
  - intros [= <-]. constructor.
  - intros (y & Hy & (k & Hk & [= <-])%result_bind_OK)%result_bind_OK.
    constructor; [done|by apply IH].
Qed.

(** The tokens that [itos_list] returns: one for every index, read in the
    vocabulary. *)
Lemma itos_list_inv (itos : list string) (T : tensor Z) n toks :
  shape T = [n] → wf T → itos_list itos T = OK toks →
  length toks = n ∧
  ∀ i z, T !! [i] = Some z → ∃ tok, toks !! i = Some tok ∧ list_getitem itos z = OK tok.
Proof.
  intros Hsh Hwf. unfold itos_list, len. rewrite Hsh. simpl.
  intros Hall%mapM_result_OK. split.
  - apply Forall2_length in Hall. by rewrite length_seq in Hall.
  - intros i z Hz.
    assert (i < n) as Hi.
    { unfold lookup, tensor_lookup in Hz. rewrite Hsh in Hz. simpl in Hz.
      by case_decide. }
    rewrite (lookup_vector _ n) in Hz by done.
    destruct (Forall2_lookup_l _ _ _ i i Hall) as (tok & Htok & Hf).
    { by apply lookup_seq_lt. }
    exists tok. split; [done|].
    by rewrite (select_vector _ _ _ _ Hsh Hz) in Hf by done.
Qed.

Lemma list_getitem_nat {A} (l : list A) (i : nat) x :
  list_getitem l (Z.of_nat i) = OK x → l !! i = Some x.
Proof.
  unfold list_getitem. cbn zeta.
  rewrite (decide_False (P := (Z.of_nat i < 0)%Z)) by lia.
  case_decide; [|done]. rewrite Nat2Z.id. by destruct (l !! i); [intros [= ->]|].
Qed.

Section cells.
Context `{Backend}.

Lemma argmax_last_predictions (P : tensor F) idx n B V t b :
  shape P = [n; B; V] → 0 < V → argmax_last P = OK idx → t < n → b < B →
  shape idx = [n; B] ∧
  idx !!! [t; b] = Z.of_nat (argmax_row ((λ k, P !!! [t; b; k]) <$> seq 0 V)).
Proof.
  intros Hsh HV. unfold argmax_last. rewrite Hsh. simpl.
  destruct V as [|V]; [lia|]. intros [= <-] Ht Hb. split; [done|].
  by rewrite lookup_total_build by in_range.
Qed.

Lemma check_results_cell_inv model itos_de itos_en example_batch w
    sentence translation translation_pred attention w' :
  check_results_cell model itos_de itos_en example_batch w
    = OK ((sentence, translation, translation_pred, attention), w') →
  ∃ n P a indx_pred src_column trg_column pred_column,
    len (batch_trg example_batch) = OK n ∧
    model_call model (batch_src example_batch) n w = OK ((P, a), w') ∧
    argmax_last P = OK indx_pred ∧
    getitem [All; Idx indx_sentence_print] (batch_src example_batch) = OK src_column ∧
    itos_list itos_de src_column = OK sentence ∧
    getitem [All; Idx indx_sentence_print] (batch_trg example_batch) = OK trg_column ∧
    itos_list itos_en trg_column = OK translation ∧
    getitem [All; Idx indx_sentence_print] indx_pred = OK pred_column ∧
    itos_list itos_en pred_column = OK translation_pred ∧
    getitem [Idx indx_sentence_print] a = OK attention.
Proof.
  unfold check_results_cell. intros Hrun. inv_run Hrun.
  by eexists _, _, _, _, _, _, _.
Qed.

(** X13: in the cell that checks the results of the model of the notebooks, the
    predicted translation has one token for every target position, and its
    first token is the one at index 2 of the vocabulary. *)
Theorem predicted_translation_starts_at_index_2 (self : Seq2Seq.t)
    (model : Module (tensor F * tensor F)) itos_de itos_en example_batch w
    sentence translation translation_pred attention w' :
  model_call model = Seq2Seq.forward self →
  argmax_row (sos_row (Seq2Seq.trg_vocab_size self)) = 2 →
  check_results_cell model itos_de itos_en example_batch w
    = OK ((sentence, translation, translation_pred, attention), w') →
  ∃ n tok, len (batch_trg example_batch) = OK n ∧
    length translation_pred = n ∧
    itos_en !! 2 = Some tok ∧ translation_pred !! 0 = Some tok.
Proof.
  intros Hmodel Hargmax (n & P & a & indx_pred & src_column & trg_column & pred_column
    & Hn & Hcall & Harg & _ & _ & _ & _ & Hcol & Htoks & _)%check_results_cell_inv.
  rewrite Hmodel in Hcall.
  apply forward_results in Hcall as (B & S & _ & _ & HL & HV & HP & _ & H0 & _).
  assert (shape indx_pred = [n; B]) as Hidx.
  { revert Harg. unfold argmax_last. rewrite HP. simpl.
    destruct (Seq2Seq.trg_vocab_size self); [lia|]. by intros [= <-]. }
  destruct (getitem_column _ _ _ _ _ Hidx Hcol) as (HB & Hcsh & Hcwf & Hc_at).
  destruct (itos_list_inv _ _ _ _ Hcsh Hcwf Htoks) as [Hlen Htok].
  destruct (Htok 0 _ (Hc_at 0 ltac:(lia))) as (tok & Htok0 & Hget).
  exists n, tok. split_and!; try done.
  destruct (argmax_last_predictions _ _ _ _ _ 0 indx_sentence_print HP ltac:(lia) Harg
              ltac:(lia) HB) as [_ Hat].
  rewrite Hat in Hget.
  replace ((λ k, P !!! [0; indx_sentence_print; k]) <$> seq 0 (Seq2Seq.trg_vocab_size self))
    with (sos_row (Seq2Seq.trg_vocab_size self)) in Hget.
  - rewrite Hargmax in Hget. by apply list_getitem_nat in Hget.
  - unfold sos_row. apply list_fmap_ext. intros i k [-> Hk]%lookup_seq. simpl.
    symmetry. apply lookup_total_Some. by apply H0.
Qed.

(** X14: what the cell that shows the attention shows: the labels are the
    tokens of the source sentence and of the predicted translation up to
    their first end of sentence; the matrix holds the attention of sentence
    [indx_sentence_print] from its second row on, its rows cut at the number
    of labels of the translation and its columns at that of the sentence. *)
Theorem show_attention_cell_shows (model : Module (tensor F * tensor F)) itos_de itos_en
    example_batch w fig w' :
  show_attention_cell model itos_de itos_en example_batch w = OK (fig, w') →
  ∃ n P a sentence translation translation_pred attention,
    check_results_cell model itos_de itos_en example_batch w
      = OK ((sentence, translation, translation_pred, attention), w') ∧
    model_call model (batch_src example_batch) n w = OK ((P, a), w') ∧
    y_labels fig = ticks translation_pred ∧
    x_labels fig = EmptyString :: ticks sentence ∧
    ∀ B R C, shape a = [B; R; C] →
      indx_sentence_print < B ∧ C ≠ 1 ∧
      shape (shown fig) = [length (ticks translation_pred) `min` R - 1;
                           length (ticks sentence) `min` C] ∧
      ∀ i j, i < length (ticks translation_pred) `min` R - 1 →
             j < length (ticks sentence) `min` C →
        shown fig !! [i; j] = Some (a !!! [indx_sentence_print; 1 + i; j]).
Proof.
  unfold show_attention_cell.
  intros ([[[sentence translation] translation_pred] attention] & w1 & Hcell & Hviz)%bind_OK.
  apply lift_OK in Hviz as (? & Hviz & [= <- <-]).
  pose proof Hcell as (n & P & a & indx_pred & src_column & trg_column & pred_column
    & Hn & Hcall & _ & _ & _ & _ & _ & _ & _ & Hatt)%check_results_cell_inv.
  exists n, P, a, sentence, translation, translation_pred, attention.
  assert (y_labels fig = ticks translation_pred ∧ x_labels fig = EmptyString :: ticks sentence)
    as [Hy Hx].
  { revert Hviz. unfold vizualize_attention.
    intros (a1 & _ & (a2 & _ & [= <-])%result_bind_OK)%result_bind_OK. done. }
  split_and!; try done.
  intros B R C Ha. destruct (getitem_first _ _ _ _ _ _ Ha Hatt) as (HB & Hsh & Hat).
  destruct (decide (C = 1)) as [->|HC].
  { by rewrite (vizualize_attention_Raise _ _ _ _ Hsh) in Hviz. }
  destruct (vizualize_attention_OK _ sentence translation_pred _ _ Hsh HC)
    as (fig' & Hfig & _ & _ & Hshown & Hentries).
  rewrite Hviz in Hfig. injection Hfig as <-. split_and!; try done.
  intros i j Hi Hj. rewrite Hentries by done. f_equal. apply Hat; lia.
Qed.
End cells.

(** ** The functions of one notebook and of another *)

Section evaluation.
Context `{Backend}.

Lemma evaluate_seq2seq_attention_batch_eq model loss_fn device b acc s :
  evaluate_seq2seq_attention_batch model loss_fn device b acc s
  = evaluate_seq2seq_batch (predictions_only model) loss_fn device b acc s.
Proof.
  unfold evaluate_seq2seq_attention_batch, evaluate_seq2seq_batch.
  do 3 (apply bind_ext; intros ? ?). apply issue_fst.
Qed.

Lemma evaluate_seq2seq_attention_run model eval_dataloader loss_fn device s :
  evaluate_seq2seq_attention model eval_dataloader loss_fn device s
  = evaluate_seq2seq (predictions_only model) eval_dataloader loss_fn device s.
Proof.
  unfold evaluate_seq2seq_attention, evaluate_seq2seq. simpl.
  do 3 (apply bind_ext; intros ? ?). apply for_each_ext.
  intros. apply evaluate_seq2seq_attention_batch_eq.
Qed.

(** X15: the evaluation of the attention notebook is that of the first
    notebook, on the model that returns the predictions only. *)
Theorem evaluate_seq2seq_attention_eq model eval_dataloader loss_fn device s :
  evaluate_seq2seq_attention model eval_dataloader loss_fn device s
  = evaluate_seq2seq (predictions_only model) eval_dataloader loss_fn device s.
Proof. apply evaluate_seq2seq_attention_run. Qed.

Lemma alike_bind {A A' B B'} (R : A → A' → Prop) (Q : B → B' → Prop)
    (m1 : M world A) (m2 : M world A') (k1 : A → M world B) (k2 : A' → M world B') s1 s2 :
  alike R (m1 s1) (m2 s2) →
  (∀ a a' s1' s2', R a a' → fw s1' = fw s2' → alike Q (k1 a s1') (k2 a' s2')) →
  alike Q ((m1 ≫= k1) s1) ((m2 ≫= k2) s2).
Proof.
  unfold mbind, M_bind, alike at 1.
  destruct (m1 s1) as [[a s1']|e1], (m2 s2) as [[a' s2']|e2]; try done.
  intros [HR Hfw] Hk. by apply Hk.
Qed.

Lemma alike_issue {A} (c1 c2 : call) (op : M W A) s1 s2 :
  fw s1 = fw s2 → alike eq (issue c1 op s1) (issue c2 op s2).
Proof. unfold issue, alike. intros ->. by destruct (op (fw s2)) as [[a w']|]. Qed.

Lemma alike_lift {A} (r : result A) s1 s2 :
  fw s1 = fw s2 → alike eq (lift r s1) (lift r s2).
Proof. unfold lift, alike. by destruct r. Qed.

Lemma alike_for_each {X St} (xs : list X) (body1 body2 : X → St → M world St) st s1 s2 :
  (∀ x st s1 s2, fw s1 = fw s2 → alike eq (body1 x st s1) (body2 x st s2)) →
  fw s1 = fw s2 → alike eq (for_each xs body1 st s1) (for_each xs body2 st s2).
Proof.
  intros Hb. revert st s1 s2. induction xs as [|x xs IH]; intros st s1 s2 Hfw; simpl.
  - done.
  - eapply alike_bind; [by apply Hb|]. intros ? ? ? ? <- ?. by apply IH.
Qed.

Lemma training_seq2seq_batch_alike model loss_fn optimizer device b acc s1 s2 :
  fw s1 = fw s2 →
  alike eq (training_seq2seq_batch model loss_fn optimizer device b acc s1)
           (training_seq2seq_batch model loss_fn optimizer device b acc s2).
Proof.
  intros Hfw. unfold training_seq2seq_batch.
  eapply alike_bind; [by apply alike_issue|]. intros src ? s1' s2' <- Hfw1.
  eapply alike_bind; [by apply alike_issue|]. intros trg ? s1'' s2'' <- Hfw2.
  eapply alike_bind; [by apply alike_lift|]. intros trg_len ? s12 s22 <- Hfw12.
  eapply alike_bind; [by apply alike_issue|]. intros [] ? s13 s23 <- Hfw3.
  eapply alike_bind; [by apply alike_issue|]. intros P ? s14 s24 <- Hfw4.
  eapply alike_bind; [by apply alike_lift|]. intros [P' T'] ? s1r s2r <- Hfwr.
  eapply alike_bind; [by apply alike_issue|]. intros loss ? s15 s25 <- Hfw5.
  eapply alike_bind; [by apply alike_issue|]. intros [] ? s16 s26 <- Hfw6.
  eapply alike_bind; [by apply alike_issue|]. intros [] ? s17 s27 <- Hfw7.
  eapply alike_bind; [by apply alike_issue|]. intros [] ? s18 s28 <- Hfw8.
  eapply alike_bind; [by apply alike_lift|]. by intros x ? s19 s29 <- Hfw9.
Qed.

Lemma training_epochs_alike model dl num_epochs loss_fn optimizer device verbose
    epoch loss_total s1 s2 :
  fw s1 = fw s2 →
  alike eq
    (training_validation_bleu_epoch model dl num_epochs loss_fn optimizer device verbose
       epoch loss_total s1)
    (training_seq2seq_epoch (predictions_only model) dl num_epochs loss_fn optimizer device
       verbose epoch loss_total s2).
Proof.
  intros Hfw. unfold training_validation_bleu_epoch, training_seq2seq_epoch.
  eapply alike_bind; [by apply alike_issue|]. intros bs ? s1' s2' <- Hfw1.
  eapply alike_bind.
  { apply alike_for_each; [|done]. intros b acc s3 s4 Hfw3.
    rewrite training_validation_bleu_batch_eq. by apply training_seq2seq_batch_alike. }
  intros acc ? s3 s4 <- Hfw3. destruct verbose; done.
Qed.

(** X16: the training of the attention notebooks trains as that of the first
    notebook does on the model that returns the predictions only: the same
    losses and the same state of the framework at the end, or the same
    exception; and it returns no score. *)
Theorem training_validation_bleu_trains_alike model dl num_epochs loss_fn optimizer
    model_name valid_dataloader device verbose s :
  alike (λ r loss_total, r = (loss_total, []))
    (training_validation_bleu model dl num_epochs loss_fn optimizer model_name
       valid_dataloader device verbose s)
    (training_seq2seq (predictions_only model) dl num_epochs loss_fn optimizer device
       verbose s).
Proof.
  unfold training_validation_bleu, training_seq2seq.
  eapply alike_bind; [by apply alike_issue|]. intros [] ? s1 s2 <- Hfw1.
  eapply alike_bind; [by apply alike_issue|]. intros [] ? s3 s4 <- Hfw3.
  assert (∀ xs lt s5 s6, fw s5 = fw s6 →
    alike eq
      (for_each xs (training_validation_bleu_epoch model dl num_epochs loss_fn optimizer
                      device verbose) lt s5)
      (for_each xs (training_seq2seq_epoch (predictions_only model) dl num_epochs loss_fn
                      optimizer device verbose) lt s6)) as Hloop.
  { induction xs as [|x xs IH]; intros lt s5 s6 Hfw; simpl; [done|].
    eapply alike_bind; [by apply training_epochs_alike|]. intros ? ? ? ? <- ?. by apply IH. }
  specialize (Hloop (range 0 num_epochs) [] s3 s4 Hfw3).
  unfold mbind, M_bind. unfold alike in *.
  destruct (for_each _ _ _ s3) as [[lt s5]|e1], (for_each _ _ _ s4) as [[lt' s6]|e2]; try done.
  destruct Hloop as [-> Hfw]. done.
Qed.
End evaluation.

(** ** Evaluation, the test cell and the save cells *)

Section evaluation_more.
Context `{Backend}.

(** X17: what an evaluation does to the state of the framework. It
    returns a loss in a state exactly when these operations return, one after
    the other, each from the state that the one before left: [model.eval()],
    [model.to(device)], one iteration of the dataloader and, for every batch
    it gave, in their order, the two moves to the device, the call of the
    model and the loss; the loss returned is the sum of the losses of the
    batches from zero. No gradient is zeroed, computed or clipped, and no
    optimizer steps: the state changes by the operations listed only. *)
Theorem evaluation_runs_no_update :
  (∀ model dl loss_fn device s loss w',
     (∃ s', evaluate_seq2seq model dl loss_fn device s = OK (loss, s') ∧ fw s' = w') ↔
     (∃ rs, evaluation_run model dl loss_fn device (fw s) rs w' ∧ loss = epoch_loss rs)) ∧
  (∀ model dl loss_fn device s loss w',
     (∃ s', evaluate_seq2seq_attention model dl loss_fn device s = OK (loss, s') ∧
            fw s' = w') ↔
     (∃ rs, evaluation_run (predictions_only model) dl loss_fn device (fw s) rs w' ∧
            loss = epoch_loss rs)).
Proof.
  split.
  - intros *. apply evaluate_seq2seq_runs.
  - intros model dl loss_fn device s loss w'.
    rewrite <- evaluate_seq2seq_runs.
    by setoid_rewrite evaluate_seq2seq_attention_run.
Qed.

(** X18: [evaluate_bleu] calls the model on every batch and scores none
    of its predictions. It returns a score in a state exactly when these
    operations return, one after the other, each from the state that the one
    before left: [model.eval()], [model.to(device)], one iteration of the
    dataloader, for every batch it gave, in their order, the two moves to the
    device, the call of the model and the index of its largest predictions,
    and last the score of no sentence against no reference, which is the
    score returned. *)
Theorem evaluate_bleu_scores_no_sentence model dl bleu_score device s score w' :
  (∃ s', evaluate_bleu model dl bleu_score device s = OK (score, s') ∧ fw s' = w') ↔
  (∃ bs, bleu_run model dl bleu_score device (fw s) bs score w').
Proof. apply evaluate_bleu_runs. Qed.

(** X19: the cell that evaluates the attention model on the test set raises,
    for want of the file [model_attention.pt], after the cell that trains
    the model has run where the file is not: the training writes no file. *)
Theorem test_cell_without_checkpoint model train_dataloader num_epochs loss_fn optimizer
    valid_dataloader load_state_dict test_dataloader s r s' :
  disk s !! "model_attention.pt" = None →
  train_cell model train_dataloader num_epochs loss_fn optimizer valid_dataloader s
    = OK (r, s') →
  r.2 = [] ∧ disk s' = disk s ∧
  test_cell model load_state_dict test_dataloader loss_fn s'
    = Raise (FileNotFoundError "model_attention.pt").
Proof.
  intros Hnone. unfold train_cell, training_validation_seq2seq, range. intros Hrun.
  apply bind_OK in Hrun as ([] & s1 & (w1 & Htrain & ->)%issue_OK & Hrun).
  apply bind_OK in Hrun as ([] & s2 & (w2 & Hto & ->)%issue_OK & Hrun).
  apply bind_OK in Hrun as (lt & s3 & Hloop & [= -> ->]%ret_OK).
  apply training_validation_bleu_epochs in Hloop as (epochs & _ & _ & _ & Hd & _).
  simpl in Hd. split_and!; [done|done|].
  unfold test_cell, load, mbind, M_bind. by rewrite Hd, Hnone.
Qed.

End evaluation_more.

(** ** The operands of the loss, and the checkpoint *)

Section loss_and_checkpoint.
Context `{Backend}.

(** X22: after every epoch of [training_seq2seq] that ends, whatever the
    epochs after it do, the file [lstm_model.pt] holds the parameter
    dictionary of the model as the epoch leaves it. *)
Theorem checkpoint_after_every_epoch model dl num_epochs loss_fn optimizer device verbose
    k loss_total s loss_total' s' :
  0 < k →
  for_each (range 0 k)
    (training_seq2seq_epoch model dl num_epochs loss_fn optimizer device verbose)
    loss_total s = OK (loss_total', s') →
  disk s' !! "lstm_model.pt"
  = Some {| written_by := TorchSave; content := PStateDict (state_dict model (fw s')) |} ∧
  ∀ path, path ≠ "lstm_model.pt" → disk s' !! path = disk s !! path.
Proof.
  intros Hk. unfold range. rewrite Nat.sub_0_r.
  intros (epochs & _ & _ & _ & _ & Hd & _)%training_seq2seq_epochs.
  simpl in Hd. rewrite decide_False in Hd by lia. rewrite Hd. split.
  - apply lookup_insert_eq.
  - intros path Hp. by apply lookup_insert_ne.
Qed.
(** X23: a training is its batches, one after the other. The training
    functions return the losses of the epochs in a state of the framework
    exactly when these operations return, each from the state that the one
    before left: [model.train()], [model.to(device)], and then for every
    epoch one iteration of the dataloader and, for every batch it gave, in
    their order, the whole update of [trains_on]: both moves to the device,
    the gradients zeroed, the call of the model, the loss, the backward pass
    on this loss, the clipping of the gradients and the step of the
    optimizer. A batch begins in the state that the step of the optimizer of
    the batch before left, the loss of an epoch is the sum of the losses of
    its batches from zero, and as many epochs run as were asked for. *)
Theorem training_runs_batch_by_batch :
  (∀ model dl num_epochs loss_fn optimizer device verbose s loss_total w',
     (∃ s', training_seq2seq model dl num_epochs loss_fn optimizer device verbose s
              = OK (loss_total, s') ∧ fw s' = w') ↔
     (∃ epochs,
        training_run model dl num_epochs loss_fn optimizer device (fw s) epochs w' ∧
        loss_total = epoch_loss <$> epochs)) ∧
  (∀ model dl num_epochs loss_fn optimizer model_name valid_dataloader device verbose
       s loss_total bleu w',
     (∃ s', training_validation_bleu model dl num_epochs loss_fn optimizer model_name
              valid_dataloader device verbose s = OK ((loss_total, bleu), s') ∧
            fw s' = w') ↔
     (∃ epochs,
        training_run (predictions_only model) dl num_epochs loss_fn optimizer device
          (fw s) epochs w' ∧
        loss_total = epoch_loss <$> epochs ∧ bleu = [])) ∧
  (∀ model dl num_epochs loss_fn optimizer device verbose s loss_total s',
     training_seq2seq model dl num_epochs loss_fn optimizer device verbose s
       = OK (loss_total, s') →
     ∃ epochs,
       training_run model dl num_epochs loss_fn optimizer device (fw s) epochs (fw s') ∧
       calls s' = calls s ++ [CModelTrain; CModelTo device] ++
         concat (zip_with (epoch_calls device verbose num_epochs ["lstm_model.pt"])
                          (seq 0 num_epochs) epochs)).
Proof.
  split_and!.
  - intros *. apply training_seq2seq_runs.
  - intros *. apply training_validation_bleu_runs.
  - intros * Hrun.
    apply training_seq2seq_inv in Hrun as (epochs & Hruns & _ & _ & Hcalls).
    by exists epochs.
Qed.
End loss_and_checkpoint.


(** ** The theorems on the small instance *)

Lemma vizualize_attention_shows_witness :
  ∃ fig,
    vizualize_attention Example.attention_3_2 ["<sos>"; "ein"; "<eos>"; "<pad>"]
      ["<sos>"; "a"; "<eos>"; "<pad>"] = OK fig ∧
    y_labels fig = ticks ["<sos>"; "a"; "<eos>"; "<pad>"] ∧
    x_labels fig = EmptyString :: ticks ["<sos>"; "ein"; "<eos>"; "<pad>"] ∧
    shape (shown fig) = [length (ticks ["<sos>"; "a"; "<eos>"; "<pad>"]) `min` 3 - 1;
                         length (ticks ["<sos>"; "ein"; "<eos>"; "<pad>"]) `min` 2] ∧
    ∀ i j, i < length (ticks ["<sos>"; "a"; "<eos>"; "<pad>"]) `min` 3 - 1 →
           j < length (ticks ["<sos>"; "ein"; "<eos>"; "<pad>"]) `min` 2 →
      shown fig !! [i; j] = Some (Example.attention_3_2 !!! [1 + i; j]).
Proof.
  apply (vizualize_attention_shows (H := Toy.backend) Example.attention_3_2
           ["<sos>"; "ein"; "<eos>"; "<pad>"] ["<sos>"; "a"; "<eos>"; "<pad>"] 3 2);
    [reflexivity|lia].
Defined.

Lemma vizualize_attention_one_column_witness :
  vizualize_attention Example.attention_3_1 ["<sos>"; "<eos>"] ["<sos>"; "<eos>"]
  = Raise (IndexError "too many indices for array").
Proof.
  apply (vizualize_attention_one_column (H := Toy.backend) Example.attention_3_1
           ["<sos>"; "<eos>"] ["<sos>"; "<eos>"] 3).
  reflexivity.
Defined.

Lemma itos_list_in_bounds_witness :
  itos_list Example.itos_en (Tensor [3] [2; -1; 0]%Z)
  = OK ((λ z, Example.itos_en !!! Z.to_nat (z `mod` Z.of_nat (length Example.itos_en)))
          <$> [2; -1; 0]%Z).
Proof.
  apply (itos_list_in_bounds Example.itos_en (Tensor [3] [2; -1; 0]%Z) 3);
    [reflexivity|reflexivity|].
  repeat (apply Forall_cons; split; [unfold in_bounds; simpl; lia|]). apply Forall_nil_2.
Defined.

Lemma itos_list_out_of_bounds_witness :
  itos_list Example.itos_en (Tensor [3] [2; 4; 0]%Z) = index_error.
Proof.
  apply (itos_list_out_of_bounds Example.itos_en (Tensor [3] [2; 4; 0]%Z) 3);
    [reflexivity|reflexivity|].
  apply Exists_cons_tl, Exists_cons_hd. unfold in_bounds. simpl. lia.
Defined.

Lemma attention_energy_input_witness :
  ∃ a w',
    Attention.forward Toy.attention Example.hidden_1_2_2 Example.enc_outputs_2_2_2 0
      = OK (a, w') ∧
    ∃ comb energy w1 scores3 scores,
      shape comb = [2; 2; 2 + 2] ∧
      (∀ b s j, b < 2 → s < 2 → j < 2 + 2 →
         comb !!! [b; s; j]
         = if decide (j < 2) then Example.hidden_1_2_2 !!! [0; b; j]
           else Example.enc_outputs_2_2_2 !!! [s; b; j - 2]) ∧
      Attention.energy_layer Toy.attention comb 0 = OK (energy, w1) ∧
      Attention.v Toy.attention energy w1 = OK (scores3, w') ∧
      squeeze_dim 2 scores3 = OK scores ∧ softmax 1 scores = OK a ∧
      (2 ≠ 1 ∨ 2 = 1).
Proof.
  eexists _, _. split; [vm_compute; reflexivity|].
  eapply (attention_energy_input (H := Toy.backend) Toy.attention Example.hidden_1_2_2
            Example.enc_outputs_2_2_2 0 _ _ 2 2 2 2); [reflexivity|reflexivity|].
  vm_compute. reflexivity.
Defined.

Lemma attention_several_layers_witness :
  Attention.forward Toy.attention Example.hidden_2_2_2 Example.enc_outputs_2_2_2 0
  = Raise (RuntimeError "shape mismatch").
Proof.
  apply (attention_several_layers (H := Toy.backend) Toy.attention Example.hidden_2_2_2
           Example.enc_outputs_2_2_2 0 2 2 2 2 2 2); (reflexivity || lia).
Defined.

Lemma attention_state_of_size_1_witness :
  Attention.forward Toy.attention Example.hidden_1_2_1 Example.enc_outputs_2_2_2 0
  = Raise (RuntimeError "shape mismatch").
Proof.
  apply (attention_state_of_size_1 (H := Toy.backend) Toy.attention Example.hidden_1_2_1
           Example.enc_outputs_2_2_2 0 2 2 2); (reflexivity || lia).
Defined.

Lemma forward_attention_position_0_witness :
  ∃ P attn w',
    Seq2Seq.forward Toy.model Toy.src_2_2 3 0 = OK ((P, attn), w') ∧
    ∃ B S, size_last Toy.src_2_2 = OK B ∧ size_first Toy.src_2_2 = OK S ∧
      shape attn = [B; S; 3] ∧
      ∀ b s, b < B → s < S → attn !! [b; s; 0] = Some F0.
Proof.
  eexists _, _, _. split; [vm_compute; reflexivity|].
  eapply (forward_attention_position_0 (H := Toy.backend) Toy.model Toy.src_2_2 3 0).
  vm_compute. reflexivity.
Defined.

Lemma forward_without_index_2_witness :
  Seq2Seq.forward Toy.model Toy.src_2_2 0 0 = Raise (IndexError "index out of range").
Proof.
  apply (forward_without_index_2 (H := Toy.backend) Toy.model Toy.src_2_2 0 0 2);
    [reflexivity|by left].
Defined.

Lemma forward_one_position_witness :
  ∃ enc_outputs context w',
    Seq2Seq.encoder Toy.model Toy.src_2_2 0 = OK ((enc_outputs, context), w') ∧
    ∃ P, Seq2Seq.forward Toy.model Toy.src_2_2 1 0 = OK ((P, zeros [2; 2; 1]), w') ∧
      shape P = [1; 2; Seq2Seq.trg_vocab_size Toy.model].
Proof.
  eexists _, _, _. split; [vm_compute; reflexivity|].
  eapply (forward_one_position (H := Toy.backend) Toy.model Toy.src_2_2 0 2 2);
    [reflexivity|simpl; lia|vm_compute; reflexivity].
Defined.

Lemma predicted_translation_starts_at_index_2_witness :
  ∃ sentence translation translation_pred attention w',
    check_results_cell Toy.module Example.itos_de Example.itos_en Example.example_batch 0
      = OK ((sentence, translation, translation_pred, attention), w') ∧
    ∃ n tok, len (batch_trg Example.example_batch) = OK n ∧
      length translation_pred = n ∧
      Example.itos_en !! 2 = Some tok ∧ translation_pred !! 0 = Some tok.
Proof.
  eexists _, _, _, _, _. split; [vm_compute; reflexivity|].
  eapply (predicted_translation_starts_at_index_2 (H := Toy.backend) Toy.model Toy.module
            Example.itos_de Example.itos_en Example.example_batch 0);
    [reflexivity|reflexivity|vm_compute; reflexivity].
Defined.

Lemma show_attention_cell_shows_witness :
  ∃ fig w',
    show_attention_cell Toy.module Example.itos_de Example.itos_en Example.example_batch 0
      = OK (fig, w') ∧
    ∃ n (P a : tensor (@F Toy.backend)) sentence translation translation_pred attention,
      check_results_cell Toy.module Example.itos_de Example.itos_en Example.example_batch 0
        = OK ((sentence, translation, translation_pred, attention), w') ∧
      model_call Toy.module (batch_src Example.example_batch) n 0 = OK ((P, a), w') ∧
      y_labels fig = ticks translation_pred ∧
      x_labels fig = EmptyString :: ticks sentence ∧
      ∀ B R C, shape a = [B; R; C] →
        indx_sentence_print < B ∧ C ≠ 1 ∧
        shape (shown fig) = [length (ticks translation_pred) `min` R - 1;
                             length (ticks sentence) `min` C] ∧
        ∀ i j, i < length (ticks translation_pred) `min` R - 1 →
               j < length (ticks sentence) `min` C →
          shown fig !! [i; j] = Some (a !!! [indx_sentence_print; 1 + i; j]).
Proof.
  eexists _, _. split; [vm_compute; reflexivity|].
  eapply (show_attention_cell_shows (H := Toy.backend) Toy.module Example.itos_de
            Example.itos_en Example.example_batch 0).
  vm_compute. reflexivity.
Defined.

(** An evaluation on one batch of two sentences. *)
Lemma evaluation_runs_no_update_witness :
  ∃ loss s',
    evaluate_seq2seq Toy.module_pred Toy.dataloader Toy.loss_fn "cpu" Toy.start
      = OK (loss, s') ∧
    ∃ rs,
      evaluation_run Toy.module_pred Toy.dataloader Toy.loss_fn "cpu" (fw Toy.start) rs
        (fw s') ∧
      loss = epoch_loss rs.
Proof.
  eexists _, _. split; [vm_compute; reflexivity|].
  apply (proj1 (proj1 (evaluation_runs_no_update (H := Toy.backend))
                  Toy.module_pred Toy.dataloader Toy.loss_fn "cpu" Toy.start _ _)).
  eexists. split; [vm_compute; reflexivity|reflexivity].
Defined.

(** The score of the model on one batch of two sentences, for a score
    that counts the sentences it is given. *)
Lemma evaluate_bleu_scores_no_sentence_witness :
  ∃ score s',
    evaluate_bleu Toy.module Toy.dataloader
      (λ candidates _, Toy.count (Z.of_nat (length candidates))) "cpu" Toy.start
      = OK (score, s') ∧
    score = 0%Z ∧
    ∃ bs, bleu_run Toy.module Toy.dataloader
            (λ candidates _, Toy.count (Z.of_nat (length candidates))) "cpu"
            (fw Toy.start) bs score (fw s').
Proof.
  eexists _, _. split; [vm_compute; reflexivity|]. split; [reflexivity|].
  apply (proj1 (evaluate_bleu_scores_no_sentence (H := Toy.backend)
                  Toy.module Toy.dataloader
                  (λ candidates _, Toy.count (Z.of_nat (length candidates))) "cpu"
                  Toy.start _ _)).
  eexists. split; [vm_compute; reflexivity|reflexivity].
Defined.

Lemma test_cell_without_checkpoint_witness :
  ∃ r s',
    train_cell Toy.module Toy.dataloader 2 Toy.loss_fn Toy.optimizer Toy.dataloader Toy.start
      = OK (r, s') ∧
    r.2 = [] ∧ disk s' = disk Toy.start ∧
    test_cell Toy.module (λ _, Toy.count ()) Toy.dataloader Toy.loss_fn s'
      = Raise (FileNotFoundError "model_attention.pt").
Proof.
  eexists _, _. split; [vm_compute; reflexivity|].
  eapply (test_cell_without_checkpoint (H := Toy.backend) Toy.module Toy.dataloader 2
            Toy.loss_fn Toy.optimizer Toy.dataloader (λ _, Toy.count ()) Toy.dataloader
            Toy.start);
    [reflexivity|vm_compute; reflexivity].
Defined.


Lemma checkpoint_after_every_epoch_witness :
  ∃ loss_total' s',
    for_each (range 0 1)
      (training_seq2seq_epoch Toy.module_pred Toy.dataloader 2 Toy.loss_fn Toy.optimizer
         "cpu" true) [] Toy.start = OK (loss_total', s') ∧
    disk s' !! "lstm_model.pt"
    = Some {| written_by := TorchSave;
              content := PStateDict (state_dict Toy.module_pred (fw s')) |} ∧
    ∀ path, path ≠ "lstm_model.pt" → disk s' !! path = disk Toy.start !! path.
Proof.
  eexists _, _. split; [vm_compute; reflexivity|].
  eapply (checkpoint_after_every_epoch (H := Toy.backend) Toy.module_pred Toy.dataloader 2
            Toy.loss_fn Toy.optimizer "cpu" true 1 [] Toy.start); [lia|].
  vm_compute. reflexivity.
Defined.

(** A training of two epochs on one batch of two sentences. *)
Lemma training_runs_batch_by_batch_witness :
  ∃ loss_total s',
    training_seq2seq Toy.module_pred Toy.dataloader 2 Toy.loss_fn Toy.optimizer "cpu" true
      Toy.start = OK (loss_total, s') ∧
    ∃ epochs,
      training_run Toy.module_pred Toy.dataloader 2 Toy.loss_fn Toy.optimizer "cpu"
        (fw Toy.start) epochs (fw s') ∧
      calls s' = calls Toy.start ++ [CModelTrain; CModelTo "cpu"] ++
        concat (zip_with (epoch_calls "cpu" true 2 ["lstm_model.pt"]) (seq 0 2) epochs).
Proof.
  eexists _, _. split; [vm_compute; reflexivity|].
  eapply (proj2 (proj2 (training_runs_batch_by_batch (H := Toy.backend)))
            Toy.module_pred Toy.dataloader 2 Toy.loss_fn Toy.optimizer "cpu" true Toy.start).
  vm_compute. reflexivity.
Defined.
